(** * Particle filter of robot_localization/pf.py

    A shallow embedding of [Particle] and [ParticleFilter] and the
    properties of the estimator that follow from the code.

    Numbers.  Python floats are idealised as real numbers ([R]), except
    where the control flow of the code depends on what a float is:
    division by a zero float raises [ZeroDivisionError], a range reading
    may be infinite, and the running sum of the resampler is rounded at
    every addition, so that its last entry need not be 1 and a uniform
    draw can fall at or above it.  The rounding is a parameter [fl] of the
    filter; [b64] below is the rounding of binary64.  [np.arctan2] is
    written out from [atan] by quadrant.

    Randomness.  [np.random] is a generator whose k-th call returns
    [randn k] (standard normal) or [rand k] (uniform on [0,1)); the filter
    state carries the number of calls made so far.

    Collaborators that are not part of pf.py (occupancy field, transform
    helper, quaternion conversion) are section variables. *)

From Stdlib Require Import String.
From Stdlib Require Import Reals Lra Lia List ZArith Bool Permutation Sorted.
From Equations Require Import Equations.
Import ListNotations.

Open Scope R_scope.

(* ------------------------------------------------------------------ *)
(** ** Float tests and numpy functions *)

Definition Rgtb (a b : R) : bool := if Rgt_dec a b then true else false.
Definition Rltb (a b : R) : bool := if Rlt_dec a b then true else false.
Definition Rleb (a b : R) : bool := if Rle_dec a b then true else false.
Definition Reqb (a b : R) : bool := if Req_dec_T a b then true else false.

(** [np.arctan2 y x] *)
Definition arctan2 (y x : R) : R :=
  if Rltb 0 x then atan (y / x)
  else if Rltb x 0 then
         (if Rleb 0 y then atan (y / x) + PI else atan (y / x) - PI)
  else if Rltb 0 y then PI / 2
  else if Rltb y 0 then - (PI / 2)
  else 0.

(** Python's [round] on a float: nearest integer, halves to the even one. *)
Definition py_round (r : R) : Z :=
  let f := (up r - 1)%Z in
  let d := r - IZR f in
  if Rltb d (1 / 2) then f
  else if Rltb (1 / 2) d then (f + 1)%Z
  else if Z.even f then f else (f + 1)%Z.

(** The sum of a sequence of floats. *)
Definition Rsum (l : list R) : R := fold_right Rplus 0 l.

(** [ndarray.cumsum] on an array of floats: the first entry is kept, and
    every further entry is the float sum of the previous result and the
    next entry, that is, the exact sum rounded by [rnd]. *)
Fixpoint cumsum_from (rnd : R -> R) (acc : R) (l : list R) : list R :=
  match l with
  | [] => []
  | a :: l' => rnd (acc + a) :: cumsum_from rnd (rnd (acc + a)) l'
  end.

Definition cumsum (rnd : R -> R) (l : list R) : list R :=
  match l with
  | [] => []
  | a :: l' => a :: cumsum_from rnd a l'
  end.

(** No rounding: arithmetic on real numbers. *)
Definition no_rounding (r : R) : R := r.

(** The rounding of binary64 arithmetic, to nearest with ties to even,
    for a result inside the normal range: [binade r] is the exponent [e]
    with [2^(e-1) <= |r| < 2^e], and the result keeps 53 significant
    bits. *)
Definition binade (r : R) : Z := up (ln (Rabs r) / ln 2).

(** [r * 2^(53-e)] lies in [2^52, 2^53); it is rounded to the nearest
    integer, a half going to the even one. *)
Definition b64 (r : R) : R :=
  if Reqb r 0 then 0
  else let e := binade r in
       IZR (py_round (r * powerRZ 2 (53 - e))) * powerRZ 2 (e - 53).

(** Binary64 values as pairs [(m, e)] of integers, standing for
    [m * 2^e], and the same rounding and running sum computed on them;
    they serve to evaluate [b64] on concrete inputs. *)
Definition dy2R (d : Z * Z) : R := IZR (fst d) * powerRZ 2 (snd d).

Definition dy_round (d : Z * Z) : Z * Z :=
  let s := (Z.log2 (fst d) - 52)%Z in
  if (s <=? 0)%Z then d
  else
    let q := (fst d / 2 ^ s)%Z in
    let r := (fst d mod 2 ^ s)%Z in
    let h := (2 ^ (s - 1))%Z in
    ((if (r <? h)%Z then q
      else if (h <? r)%Z then q + 1
      else if Z.even q then q else q + 1)%Z,
     (snd d + s)%Z).

Definition dy_add (a b : Z * Z) : Z * Z :=
  let e := Z.min (snd a) (snd b) in
  ((fst a * 2 ^ (snd a - e) + fst b * 2 ^ (snd b - e))%Z, e).

Fixpoint dy_cumsum_from (acc : Z * Z) (l : list (Z * Z)) : list (Z * Z) :=
  match l with
  | [] => []
  | a :: l' =>
      let c := dy_round (dy_add acc a) in
      c :: dy_cumsum_from c l'
  end.

Definition dy_leb (a b : Z * Z) : bool :=
  let e := Z.min (snd a) (snd b) in
  (fst a * 2 ^ (snd a - e) <=? fst b * 2 ^ (snd b - e))%Z.

(** A slice [l[start:stop]] of a Python sequence: a negative bound counts
    from the end, and both bounds are clamped to the length. *)
Definition slice_bound (len i : Z) : nat :=
  let j := if (i <? 0)%Z then (i + len)%Z else i in
  Z.to_nat (Z.min len (Z.max 0 j)).

Definition py_slice {A : Type} (l : list A) (start stop : Z) : list A :=
  let len := Z.of_nat (length l) in
  let a := slice_bound len start in
  let b := slice_bound len stop in
  firstn (b - a) (skipn a l).

(** [np.argsort weights]: the indexes of [weights] in ascending order of
    weight.  Indexes are inserted one by one; equal weights keep their
    original order.  (numpy's default sort promises no order among equal
    weights; what is proved below holds for any of them: it uses that the
    result is a permutation of the indexes, and for the boundary test
    that the weights are strictly increasing.) *)
Fixpoint insert_index (ws : list R) (i : nat) (sorted : list nat) : list nat :=
  match sorted with
  | [] => [i]
  | j :: rest =>
      if Rleb (nth j ws 0) (nth i ws 0)
      then j :: insert_index ws i rest
      else i :: j :: rest
  end.

Definition argsort (ws : list R) : list nat :=
  fold_left (fun sorted i => insert_index ws i sorted) (seq 0 (length ws)) [].

(** [np.searchsorted a 1] on a boolean array: numpy's left binary search
    for the key [True]; an entry is below the key when it is [False]. *)
Equations? binsearch_left (a : list bool) (lo hi : nat) : nat by wf (hi - lo)%nat lt :=
  binsearch_left a lo hi with lt_dec lo hi := {
    | left _ =>
        let mid := (lo + (hi - lo) / 2)%nat in
        if nth mid a false
        then binsearch_left a lo mid
        else binsearch_left a (S mid) hi
    | right _ => lo }.
Proof.
  all: subst mid;
    change (fst (Nat.divmod (hi - lo) 1 0 1)) with ((hi - lo) / 2)%nat;
    assert ((hi - lo) / 2 < hi - lo)%nat by (apply Nat.div_lt; lia); lia.
Qed.

Definition searchsorted_true (a : list bool) : nat :=
  binsearch_left a 0 (length a).

(* ------------------------------------------------------------------ *)
(** ** Exceptions *)

Inductive PyError : Type :=
| ZeroDivisionError
| IndexError
| AttributeError.

Inductive Result (A : Type) : Type :=
| Ok (a : A)
| Raise (e : PyError).
Arguments Ok {A} a.
Arguments Raise {A} e.

Definition bind {A B : Type} (m : Result A) (k : A -> Result B) : Result B :=
  match m with
  | Ok a => k a
  | Raise e => Raise e
  end.

Notation "x <- m ;; k" := (bind m (fun x => k))
  (at level 61, m at next level, right associativity).

(** [l[i]] for a Python list. *)
Definition py_index {A : Type} (l : list A) (i : nat) : Result A :=
  match nth_error l i with
  | Some a => Ok a
  | None => Raise IndexError
  end.

(** [[f(i) for i in idxs]] where [f] may raise. *)
Fixpoint map_result {A B : Type} (f : A -> Result B) (l : list A) : Result (list B) :=
  match l with
  | [] => Ok []
  | a :: l' => b <- f a ;; bs <- map_result f l' ;; Ok (b :: bs)
  end.

(* ------------------------------------------------------------------ *)
(** ** Particle *)

Record Particle : Type := mkParticle {
  x : R;
  y : R;
  theta : R;
  w : R;
  norm_w : R
}.

(** [Particle.__init__(x, y, theta, w)] *)
Definition Particle_init (x0 y0 theta0 w0 : R) : Particle :=
  mkParticle x0 y0 theta0 w0 1.

(** [Particle(x, y, theta)]: the weight takes its default, 1.0. *)
Definition Particle_new (x0 y0 theta0 : R) : Particle :=
  Particle_init x0 y0 theta0 1.

Definition turn (p : Particle) (delta_theta : R) : Particle :=
  mkParticle (x p) (y p) (theta p + delta_theta) (w p) (norm_w p).

Definition drive (p : Particle) (delta_dist : R) : Particle :=
  mkParticle (x p + delta_dist * cos (theta p))
             (y p + delta_dist * sin (theta p))
             (theta p) (w p) (norm_w p).

Definition set_norm_w (p : Particle) (v : R) : Particle :=
  mkParticle (x p) (y p) (theta p) (w p) v.

Definition set_w (p : Particle) (v : R) : Particle :=
  mkParticle (x p) (y p) (theta p) v (norm_w p).

(** A cloud for boundary tests: particle number i, counted from 0, sits
    at the origin with raw weight i + 1, so the weights are strictly
    increasing: 1.0, 2.0, ..., n. *)
Definition ramp_particle (i : nat) : Particle := Particle_init 0 0 0 (INR (S i)).

Definition ramp_cloud (n : nat) : list Particle := map ramp_particle (seq 0 n).

(* ------------------------------------------------------------------ *)
(** ** Normalization of a cloud *)

(** The first loop of [normalize_particles]. *)
Definition total_weight (cloud : list Particle) : R :=
  fold_left (fun acc p => acc + w p) cloud 0.

(** [normalize_particles] on the cloud: [p.w / total_weight] raises when
    the total is zero, at the first particle, before any assignment. *)
Definition normalize_cloud (cloud : list Particle) : Result (list Particle) :=
  match cloud with
  | [] => Ok []
  | _ :: _ =>
      if Reqb (total_weight cloud) 0 then Raise ZeroDivisionError
      else Ok (map (fun p => set_norm_w p (w p / total_weight cloud)) cloud)
  end.

(* ------------------------------------------------------------------ *)
(** ** Messages *)

(** A range reading of the scan: a finite distance or [inf]. *)
Inductive reading : Type :=
| Finite (r : R)
| Infinite.

(** [geometry_msgs/Pose]: a position and an orientation quaternion. *)
Record Pose : Type := mkPose {
  position : R * R * R;
  orientation : R * R * R * R
}.

(** [nav2_msgs/ParticleCloud]: every particle as a pose and a weight. *)
Record ParticleCloudMsg : Type := mkParticleCloudMsg {
  frame_id : string;
  msg_stamp : Z;
  particles : list (Pose * R)
}.

(** The methods of the filter, as entries of its call log. *)
Inductive Step : Type :=
| StepInitialize
| StepOdom
| StepLaser
| StepNormalize
| StepRobotPose
| StepResample
| StepPublish.

(** Stand-ins for the collaborators, for running the filter on concrete
    inputs: odometry poses given directly as [(x, y, theta)], the yaw
    quaternion, a map with an obstacle 0.1 m from every point, scans that
    are their own time stamp and hold one finite and one infinite
    reading, noise that is always 0 and uniform draws that are always
    1/2, or always the largest one. *)
Definition plain_pose (p : R * R * R) : R * R * R := p.
Definition yaw_quaternion (roll pitch yaw : R) : R * R * R * R :=
  (0, 0, sin (yaw / 2), cos (yaw / 2)).
Definition obstacle_nearby (px py : R) : option R := Some 0.1.
Definition stamp_of (scan : Z) : Z := scan.
Definition two_beams (scan : Z) : list reading * list R :=
  ([Finite 1; Infinite], [0; PI / 2]).
Definition no_noise (k : nat) : R := 0.
Definition mid_draw (k : nat) : R := 1 / 2.

(** The largest value that [np.random.rand] returns: [1 - 2^-53]. *)
Definition top_draw (k : nat) : R := 1 - powerRZ 2 (-53).

Section Filter.

(** The pose type of the transform helper and its conversion to
    [(x, y, theta)]. *)
Variable OdomPose : Type.
Variable convert_pose_to_xy_and_theta : OdomPose -> R * R * R.

(** [angle_helpers.quaternion_from_euler]. *)
Variable quaternion_from_euler : R -> R -> R -> R * R * R * R.

(** [OccupancyField.get_closest_obstacle_distance]; [None] is [nan]. *)
Variable get_closest_obstacle_distance : R -> R -> option R.

(** The scan message, its time stamp, and
    [TFHelper.convert_scan_to_polar_in_robot_frame]. *)
Variable LaserScan : Type.
Variable header_stamp : LaserScan -> Z.
Variable convert_scan_to_polar_in_robot_frame : LaserScan -> list reading * list R.

(** The k-th call of the generator, as a standard normal draw and as a
    uniform draw. *)
Variable randn : nat -> R.
Variable rand : nat -> R.

(** The rounding of float arithmetic: [fl r] is the float stored for a
    result whose exact value is [r]. *)
Variable fl : R -> R.

(** [np.array(values)]: every entry is stored as a float. *)
Definition np_array (values : list R) : list R := map fl values.

(** [Particle.as_pose] *)
Definition as_pose (p : Particle) : Pose :=
  mkPose (x p, y p, 0) (quaternion_from_euler 0 0 (theta p)).

(** The attributes of the node that the filter reads and writes.
    [odom_pose] is [None] until the attribute is first assigned;
    [current_odom_xy_theta] is [None] while it is the empty list.
    [map_to_odom] is what the transform helper was last asked to fix,
    [published] is what went out on [particle_pub], oldest first,
    [rng_calls] counts the calls of the generator, and [call_log] lists
    the methods entered so far, oldest first. *)
Record ParticleFilter : Type := mkParticleFilter {
  map_frame : string;
  n_particles : nat;
  d_thresh : R;
  a_thresh : R;
  last_scan_timestamp : option Z;
  scan_to_process : option LaserScan;
  particle_cloud : list Particle;
  current_odom_xy_theta : option (R * R * R);
  odom_pose : option OdomPose;
  robot_pose : option Pose;
  map_to_odom : option (Pose * OdomPose);
  published : list ParticleCloudMsg;
  rng_calls : nat;
  call_log : list Step
}.

(** [ParticleFilter.__init__] *)
Definition ParticleFilter_init : ParticleFilter :=
  mkParticleFilter "map"%string 300 0.2 (PI / 6) None None [] None None None None [] 0 [].

Definition with_scan (pf : ParticleFilter) (s : option LaserScan) : ParticleFilter :=
  mkParticleFilter (map_frame pf) (n_particles pf) (d_thresh pf) (a_thresh pf)
    (last_scan_timestamp pf) s (particle_cloud pf) (current_odom_xy_theta pf)
    (odom_pose pf) (robot_pose pf) (map_to_odom pf) (published pf)
    (rng_calls pf) (call_log pf).

Definition with_last_stamp (pf : ParticleFilter) (t : option Z) : ParticleFilter :=
  mkParticleFilter (map_frame pf) (n_particles pf) (d_thresh pf) (a_thresh pf)
    t (scan_to_process pf) (particle_cloud pf) (current_odom_xy_theta pf)
    (odom_pose pf) (robot_pose pf) (map_to_odom pf) (published pf)
    (rng_calls pf) (call_log pf).

Definition with_cloud (pf : ParticleFilter) (c : list Particle) : ParticleFilter :=
  mkParticleFilter (map_frame pf) (n_particles pf) (d_thresh pf) (a_thresh pf)
    (last_scan_timestamp pf) (scan_to_process pf) c (current_odom_xy_theta pf)
    (odom_pose pf) (robot_pose pf) (map_to_odom pf) (published pf)
    (rng_calls pf) (call_log pf).

Definition with_current_odom (pf : ParticleFilter) (o : option (R * R * R)) : ParticleFilter :=
  mkParticleFilter (map_frame pf) (n_particles pf) (d_thresh pf) (a_thresh pf)
    (last_scan_timestamp pf) (scan_to_process pf) (particle_cloud pf) o
    (odom_pose pf) (robot_pose pf) (map_to_odom pf) (published pf)
    (rng_calls pf) (call_log pf).

Definition with_odom_pose (pf : ParticleFilter) (o : option OdomPose) : ParticleFilter :=
  mkParticleFilter (map_frame pf) (n_particles pf) (d_thresh pf) (a_thresh pf)
    (last_scan_timestamp pf) (scan_to_process pf) (particle_cloud pf)
    (current_odom_xy_theta pf) o (robot_pose pf) (map_to_odom pf) (published pf)
    (rng_calls pf) (call_log pf).

Definition with_robot_pose (pf : ParticleFilter) (r : option Pose) : ParticleFilter :=
  mkParticleFilter (map_frame pf) (n_particles pf) (d_thresh pf) (a_thresh pf)
    (last_scan_timestamp pf) (scan_to_process pf) (particle_cloud pf)
    (current_odom_xy_theta pf) (odom_pose pf) r (map_to_odom pf) (published pf)
    (rng_calls pf) (call_log pf).

Definition with_map_to_odom (pf : ParticleFilter) (m : option (Pose * OdomPose)) : ParticleFilter :=
  mkParticleFilter (map_frame pf) (n_particles pf) (d_thresh pf) (a_thresh pf)
    (last_scan_timestamp pf) (scan_to_process pf) (particle_cloud pf)
    (current_odom_xy_theta pf) (odom_pose pf) (robot_pose pf) m (published pf)
    (rng_calls pf) (call_log pf).

Definition with_published (pf : ParticleFilter) (l : list ParticleCloudMsg) : ParticleFilter :=
  mkParticleFilter (map_frame pf) (n_particles pf) (d_thresh pf) (a_thresh pf)
    (last_scan_timestamp pf) (scan_to_process pf) (particle_cloud pf)
    (current_odom_xy_theta pf) (odom_pose pf) (robot_pose pf) (map_to_odom pf) l
    (rng_calls pf) (call_log pf).

Definition with_rng_calls (pf : ParticleFilter) (k : nat) : ParticleFilter :=
  mkParticleFilter (map_frame pf) (n_particles pf) (d_thresh pf) (a_thresh pf)
    (last_scan_timestamp pf) (scan_to_process pf) (particle_cloud pf)
    (current_odom_xy_theta pf) (odom_pose pf) (robot_pose pf) (map_to_odom pf)
    (published pf) k (call_log pf).

(** Entering a method. *)
Definition enter (pf : ParticleFilter) (s : Step) : ParticleFilter :=
  mkParticleFilter (map_frame pf) (n_particles pf) (d_thresh pf) (a_thresh pf)
    (last_scan_timestamp pf) (scan_to_process pf) (particle_cloud pf)
    (current_odom_xy_theta pf) (odom_pose pf) (robot_pose pf) (map_to_odom pf)
    (published pf) (rng_calls pf) (call_log pf ++ [s]).

(** [np.random.normal(loc, scale)] as the k-th call of the generator. *)
Definition random_normal (k : nat) (loc scale : R) : R := loc + scale * randn k.

(** *** normalize_particles *)
Definition normalize_particles (pf : ParticleFilter) : Result ParticleFilter :=
  let pf := enter pf StepNormalize in
  cloud <- normalize_cloud (particle_cloud pf) ;;
  Ok (with_cloud pf cloud).

(** *** moved_far_enough_to_update *)
Definition moved_far_enough_to_update (pf : ParticleFilter) (new_odom_xy_theta : R * R * R)
  : Result bool :=
  match current_odom_xy_theta pf with
  | None => Raise IndexError
  | Some (cx, cy, ctheta) =>
      let '(nx, ny, ntheta) := new_odom_xy_theta in
      Ok (Rgtb (Rabs (nx - cx)) (d_thresh pf)
          || Rgtb (Rabs (ny - cy)) (d_thresh pf)
          || Rgtb (Rabs (ntheta - ctheta)) (a_thresh pf))
  end.

(** *** update_robot_pose *)

(** The accumulation loop: [(x_avg, y_avg, cos_avg, sin_avg)]. *)
Definition pose_sums (cloud : list Particle) : R * R * R * R :=
  fold_left (fun '(x_avg, y_avg, cos_avg, sin_avg) p =>
               (x_avg + x p * w p,
                y_avg + y p * w p,
                cos_avg + cos (theta p) * w p,
                sin_avg + sin (theta p) * w p))
            cloud (0, 0, 0, 0).

(** The particle whose pose becomes [robot_pose]. *)
Definition mean_particle (cloud : list Particle) : Particle :=
  let '(x_avg, y_avg, cos_avg, sin_avg) := pose_sums cloud in
  let theta_avg := arctan2 sin_avg cos_avg in
  Particle_init x_avg y_avg theta_avg 1.

Definition update_robot_pose (pf : ParticleFilter) : Result ParticleFilter :=
  let pf := enter pf StepRobotPose in
  pf <- normalize_particles pf ;;
  let pf := with_robot_pose pf (Some (as_pose (mean_particle (particle_cloud pf)))) in
  match odom_pose pf with
  | Some o => Ok (with_map_to_odom pf (Some (as_pose (mean_particle (particle_cloud pf)), o)))
  | None => Ok pf
  end.

(** *** update_particles_with_odom *)

(** The loop over the cloud; particle number i draws its three noise
    terms from calls [k + 3 i], [k + 3 i + 1] and [k + 3 i + 2]. *)
Fixpoint move_particles (theta1 dist theta2 : R) (k : nat) (cloud : list Particle)
  : list Particle :=
  match cloud with
  | [] => []
  | p :: rest =>
      let p := turn p (theta1 + randn k * 0.01) in
      let p := drive p (dist + randn (k + 1) * 0.1) in
      let p := turn p (theta2 + randn (k + 2) * 0.01) in
      p :: move_particles theta1 dist theta2 (k + 3) rest
  end.

Definition update_particles_with_odom (pf : ParticleFilter) : Result ParticleFilter :=
  let pf := enter pf StepOdom in
  match odom_pose pf with
  | None => Raise AttributeError
  | Some o =>
      let new_odom_xy_theta := convert_pose_to_xy_and_theta o in
      match current_odom_xy_theta pf with
      | Some old_odom_xy_theta =>
          let '(nx, ny, ntheta) := new_odom_xy_theta in
          let '(ox, oy, otheta) := old_odom_xy_theta in
          let delta0 := nx - ox in
          let delta1 := ny - oy in
          let pf := with_current_odom pf (Some new_odom_xy_theta) in
          let theta1 := arctan2 delta1 delta0 - otheta in
          let dist := sqrt (delta0 ^ 2 + delta1 ^ 2) in
          let theta2 := ntheta - arctan2 delta1 delta0 in
          let cloud := move_particles theta1 dist theta2 (rng_calls pf) (particle_cloud pf) in
          Ok (with_rng_calls (with_cloud pf cloud)
                (rng_calls pf + 3 * length (particle_cloud pf)))
      | None => Ok (with_current_odom pf (Some new_odom_xy_theta))
      end
  end.

(** *** update_particles_with_laser *)

(** The body of the inner loop for one [(r_i, theta_i)]. *)
Definition score_beam (p : Particle) (beam : reading * R) : Particle :=
  match beam with
  | (Infinite, _) => p
  | (Finite r_i, theta_i) =>
      let bx := r_i * cos (theta p + theta_i) in
      let by_ := r_i * sin (theta p + theta_i) in
      match get_closest_obstacle_distance bx by_ with
      | None => p
      | Some obstacle_dist =>
          if Rltb obstacle_dist 0.15 then set_w p (w p + 1) else p
      end
  end.

Definition update_particles_with_laser (pf : ParticleFilter)
  (r : list reading) (thetas : list R) : Result ParticleFilter :=
  let pf := enter pf StepLaser in
  let cloud := map (fun p => fold_left score_beam (combine r thetas) p) (particle_cloud pf) in
  normalize_particles (with_cloud pf cloud).

(** *** resample_particles *)

Definition amount_to_keep : R := 0.25.
Definition position_noise : R := 1 / 12.
Definition angle_noise : R := PI / 24.

Definition worst_keeper_index (n : nat) : Z :=
  py_round (INR n * (1 - amount_to_keep)).

(** [sorted_indexes[worst_keeper_index : n_particles - 1]] *)
Definition best_particle_indexes (n : nat) (cloud : list Particle) : list nat :=
  let weights := map w cloud in
  let sorted_indexes := argsort weights in
  py_slice sorted_indexes (worst_keeper_index n) (Z.of_nat n - 1).

(** The number of entries of that slice, for a cloud of [len] particles. *)
Definition elite_count (n len : nat) : nat :=
  (slice_bound (Z.of_nat len) (Z.of_nat n - 1)
   - slice_bound (Z.of_nat len) (worst_keeper_index n))%nat.

(** The elitism stage: [[self.particle_cloud[i] for i in best_particle_indexes]]. *)
Definition best_particles (n : nat) (cloud : list Particle) : Result (list Particle) :=
  map_result (py_index cloud) (best_particle_indexes n cloud).

(** One pass of the regeneration loop, starting at call [k] of the
    generator: one uniform draw, then three normal draws.  When no
    cumulative probability exceeds the draw, the search returns the
    length of the array and the indexing raises [IndexError]. *)
Definition draw_particle (survivors : list Particle) (cumulative_probability : list R)
  (k : nat) : Result Particle :=
  let selection_array := map (fun c => Rgtb c (rand k)) cumulative_probability in
  let selection_index := searchsorted_true selection_array in
  selected_matching_particle <- py_index survivors selection_index ;;
  let x' := random_normal (k + 1) (x selected_matching_particle) position_noise in
  let y' := random_normal (k + 2) (y selected_matching_particle) position_noise in
  let theta' := random_normal (k + 3) (theta selected_matching_particle) angle_noise in
  Ok (Particle_new x' y' theta').

Fixpoint draw_particles (survivors : list Particle) (cumulative_probability : list R)
  (k count : nat) : Result (list Particle) :=
  match count with
  | O => Ok []
  | S count' =>
      p <- draw_particle survivors cumulative_probability k ;;
      ps <- draw_particles survivors cumulative_probability (k + 4) count' ;;
      Ok (p :: ps)
  end.

Definition resample_particles (pf : ParticleFilter) : Result ParticleFilter :=
  let pf := enter pf StepResample in
  best <- best_particles (n_particles pf) (particle_cloud pf) ;;
  let pf := with_cloud pf best in
  pf <- normalize_particles pf ;;
  let probability := np_array (map norm_w (particle_cloud pf)) in
  let cumulative_probability := cumsum fl probability in
  new_particles <- draw_particles (particle_cloud pf) cumulative_probability
                     (rng_calls pf) (n_particles pf) ;;
  Ok (with_rng_calls (with_cloud pf new_particles)
        (rng_calls pf + 4 * n_particles pf)).

(** The cumulative probabilities that a resampling of [pf] compares its
    uniform draws with, the last of them, and the condition that each of
    its draws is below it: only then does the search find a survivor. *)
Definition cumulative_probability_of (pf : ParticleFilter) : list R :=
  match best_particles (n_particles pf) (particle_cloud pf) with
  | Ok best =>
      match normalize_cloud best with
      | Ok survivors => cumsum fl (np_array (map norm_w survivors))
      | Raise _ => []
      end
  | Raise _ => []
  end.

Definition selection_ceiling (pf : ParticleFilter) : R :=
  last (cumulative_probability_of pf) 0.

Definition draws_find_survivor (pf : ParticleFilter) : Prop :=
  forall i, (i < n_particles pf)%nat ->
            rand (rng_calls pf + 4 * i) < selection_ceiling pf.

(** *** initialize_particle_cloud *)

Definition position_sigma : R := 1 / 6.
Definition angle_sigma : R := PI / 12.

Fixpoint sample_particles (xy_theta : R * R * R) (k count : nat) : list Particle :=
  match count with
  | O => []
  | S count' =>
      let '(mx, my, mtheta) := xy_theta in
      Particle_new (random_normal k mx position_sigma)
                   (random_normal (k + 1) my position_sigma)
                   (random_normal (k + 2) mtheta angle_sigma)
        :: sample_particles xy_theta (k + 3) count'
  end.

Definition initialize_particle_cloud (pf : ParticleFilter)
  (xy_theta : option (R * R * R)) : Result ParticleFilter :=
  let pf := enter pf StepInitialize in
  seed <- match xy_theta with
          | Some v => Ok v
          | None => match odom_pose pf with
                    | Some o => Ok (convert_pose_to_xy_and_theta o)
                    | None => Raise AttributeError
                    end
          end ;;
  let cloud := sample_particles seed (rng_calls pf) (n_particles pf) in
  let pf := with_rng_calls (with_cloud pf cloud) (rng_calls pf + 3 * n_particles pf) in
  pf <- normalize_particles pf ;;
  update_robot_pose pf.

(** *** update_initial_pose *)
Definition update_initial_pose (pf : ParticleFilter) (pose : OdomPose)
  : Result ParticleFilter :=
  initialize_particle_cloud pf (Some (convert_pose_to_xy_and_theta pose)).

(** *** publish_particles *)
Definition publish_particles (pf : ParticleFilter) (timestamp : Z) : ParticleFilter :=
  let pf := enter pf StepPublish in
  let msg := mkParticleCloudMsg (map_frame pf) timestamp
               (map (fun p => (as_pose p, w p)) (particle_cloud pf)) in
  with_published pf (published pf ++ [msg]).

(** *** scan_received *)
Definition scan_received (pf : ParticleFilter) (msg : LaserScan) : ParticleFilter :=
  let pf := with_last_stamp pf (Some (header_stamp msg)) in
  match scan_to_process pf with
  | None => with_scan pf (Some msg)
  | Some _ => pf
  end.

(** *** run_loop *)

(** The branch of [run_loop] taken when the cloud exists and the robot
    has moved far enough. *)
Definition full_update (pf : ParticleFilter) (r : list reading) (thetas : list R)
  : Result ParticleFilter :=
  pf <- update_particles_with_odom pf ;;
  pf <- update_particles_with_laser pf r thetas ;;
  pf <- update_robot_pose pf ;;
  resample_particles pf.

(** Its steps up to the resampling. *)
Definition update_before_resample (pf : ParticleFilter) (r : list reading)
  (thetas : list R) : Result ParticleFilter :=
  pf <- update_particles_with_odom pf ;;
  pf <- update_particles_with_laser pf r thetas ;;
  update_robot_pose pf.

(** [matching] is what [get_matching_odom_pose] answers for the stamp of
    the pending scan at the time of the call: the pose, if any, and
    [delta_t] in nanoseconds, if any. *)
Definition run_loop (pf : ParticleFilter) (matching : option OdomPose * option Z)
  : Result ParticleFilter :=
  match scan_to_process pf with
  | None => Ok pf
  | Some msg =>
      match matching with
      | (None, delta_t) =>
          match delta_t with
          | Some d => if (d <? 0)%Z then Ok (with_scan pf None) else Ok pf
          | None => Ok pf
          end
      | (Some new_pose, _) =>
          let '(r, thetas) := convert_scan_to_polar_in_robot_frame msg in
          let pf := with_scan pf None in
          let pf := with_odom_pose pf (Some new_pose) in
          let new_odom_xy_theta := convert_pose_to_xy_and_theta new_pose in
          pf <- match current_odom_xy_theta pf with
                | None => Ok (with_current_odom pf (Some new_odom_xy_theta))
                | Some _ =>
                    match particle_cloud pf with
                    | [] => initialize_particle_cloud pf None
                    | _ :: _ =>
                        moved <- moved_far_enough_to_update pf new_odom_xy_theta ;;
                        if (moved : bool) then full_update pf r thetas else Ok pf
                    end
                end ;;
          Ok (publish_particles pf (header_stamp msg))
      end
  end.

(** A filter in the tracking state: the settings of [__init__], a pending
    scan, a cloud and an odometry baseline. *)
Definition tracking_filter (msg : LaserScan) (cloud : list Particle)
  (baseline : R * R * R) : ParticleFilter :=
  with_current_odom
    (with_cloud (with_scan ParticleFilter_init (Some msg)) cloud)
    (Some baseline).

(** The attributes that no step of an update writes. *)
Definition same_settings (pf pf' : ParticleFilter) : Prop :=
  map_frame pf' = map_frame pf /\
  n_particles pf' = n_particles pf /\
  d_thresh pf' = d_thresh pf /\
  a_thresh pf' = a_thresh pf /\
  published pf' = published pf /\
  odom_pose pf' = odom_pose pf.

(** Reading the call log: is some entry [later] found after an entry
    [earlier]? *)
Definition Step_eqb (a b : Step) : bool :=
  match a, b with
  | StepInitialize, StepInitialize | StepOdom, StepOdom | StepLaser, StepLaser
  | StepNormalize, StepNormalize | StepRobotPose, StepRobotPose
  | StepResample, StepResample | StepPublish, StepPublish => true
  | _, _ => false
  end.

Fixpoint runs_after (later earlier : Step) (log : list Step) : bool :=
  match log with
  | [] => false
  | s :: rest =>
      (Step_eqb s earlier && existsb (Step_eqb later) rest)
      || runs_after later earlier rest
  end.

(** The methods that the node's callbacks and its loop invoke, as calls
    made one after the other: a scan arriving ([scan_received]), a pose
    estimate arriving on [initialpose] ([update_initial_pose]), and one
    pass of [loop_wrapper] ([run_loop], with the answer the transform
    helper gives on that pass). *)
Inductive Call : Type :=
| ScanArrives (msg : LaserScan)
| InitialPose (pose : OdomPose)
| LoopPass (matching : option OdomPose * option Z).

Definition call (pf : ParticleFilter) (c : Call) : Result ParticleFilter :=
  match c with
  | ScanArrives msg => Ok (scan_received pf msg)
  | InitialPose pose => update_initial_pose pf pose
  | LoopPass matching => run_loop pf matching
  end.

Fixpoint calls (pf : ParticleFilter) (cs : list Call) : Result ParticleFilter :=
  match cs with
  | [] => Ok pf
  | c :: rest => pf' <- call pf c ;; calls pf' rest
  end.

(** What the filter keeps true of its cloud between calls: the cloud is
    empty or holds [n_particles] particles, every raw weight is positive,
    and for a cloud of [n_particles] particles the elitism slice is not
    empty. *)
Definition cloud_ready (pf : ParticleFilter) : Prop :=
  Forall (fun p => 0 < w p) (particle_cloud pf) /\
  (particle_cloud pf = [] \/ length (particle_cloud pf) = n_particles pf) /\
  (0 < elite_count (n_particles pf) (n_particles pf))%nat.

(** A call in which a uniform draw misses every survivor: a loop pass
    on a pending scan that takes the full update (the cloud is not empty
    and the robot has moved far enough) and reaches the resampling with
    a draw that is not below the last cumulative probability. *)
Definition draw_misses (pf : ParticleFilter) (c : Call) : Prop :=
  match c with
  | LoopPass (Some new_pose, _) =>
      exists msg pf_pose,
        scan_to_process pf = Some msg /\
        particle_cloud pf <> [] /\
        moved_far_enough_to_update (with_odom_pose (with_scan pf None) (Some new_pose))
          (convert_pose_to_xy_and_theta new_pose) = Ok true /\
        update_before_resample (with_odom_pose (with_scan pf None) (Some new_pose))
          (fst (convert_scan_to_polar_in_robot_frame msg))
          (snd (convert_scan_to_polar_in_robot_frame msg)) = Ok pf_pose /\
        ~ draws_find_survivor pf_pose
  | _ => False
  end.

(** A scan is too old for the transform helper when [delta_t] is
    negative. *)
Definition too_old (delta_t : option Z) : bool :=
  match delta_t with
  | Some d => (d <? 0)%Z
  | None => false
  end.

(* ------------------------------------------------------------------ *)
(** ** Float tests *)

Lemma Rgtb_true (a b : R) : Rgtb a b = true <-> a > b.
Proof. unfold Rgtb. destruct (Rgt_dec a b); split; intros; auto; discriminate. Qed.

Lemma Rgtb_false (a b : R) : Rgtb a b = false <-> a <= b.
Proof.
  unfold Rgtb. destruct (Rgt_dec a b); split; intros; auto; try discriminate; lra.
Qed.

Lemma Rltb_true (a b : R) : Rltb a b = true <-> a < b.
Proof. unfold Rltb. destruct (Rlt_dec a b); split; intros; auto; discriminate. Qed.

Lemma Rltb_false (a b : R) : Rltb a b = false <-> b <= a.
Proof.
  unfold Rltb. destruct (Rlt_dec a b); split; intros; auto; try discriminate; lra.
Qed.

Lemma Rleb_true (a b : R) : Rleb a b = true <-> a <= b.
Proof. unfold Rleb. destruct (Rle_dec a b); split; intros; auto; discriminate. Qed.

Lemma Rleb_false (a b : R) : Rleb a b = false <-> b < a.
Proof.
  unfold Rleb. destruct (Rle_dec a b); split; intros; auto; try discriminate; lra.
Qed.

Lemma Reqb_true (a b : R) : Reqb a b = true <-> a = b.
Proof. unfold Reqb. destruct (Req_dec_T a b); split; intros; auto; discriminate. Qed.

Lemma Reqb_false (a b : R) : Reqb a b = false <-> a <> b.
Proof.
  unfold Reqb. destruct (Req_dec_T a b); split; intros; auto; try discriminate; contradiction.
Qed.

(* ------------------------------------------------------------------ *)
(** ** Normalization *)

Lemma fold_left_weight_acc (cloud : list Particle) (acc : R) :
  fold_left (fun a p => a + w p) cloud acc = acc + Rsum (map w cloud).
Proof.
  revert acc. induction cloud as [|p cloud IH]; intros acc; simpl.
  - lra.
  - rewrite IH. lra.
Qed.

Lemma total_weight_sum (cloud : list Particle) :
  total_weight cloud = Rsum (map w cloud).
Proof. unfold total_weight. rewrite fold_left_weight_acc. lra. Qed.

Lemma Rsum_scaled (l : list R) (t : R) :
  Rsum (map (fun a => a / t) l) = Rsum l / t.
Proof.
  induction l as [|a l IH]; simpl.
  - unfold Rdiv. lra.
  - rewrite IH. unfold Rdiv. lra.
Qed.

Lemma normalize_cloud_ok (cloud : list Particle) :
  total_weight cloud <> 0 ->
  normalize_cloud cloud =
    Ok (map (fun p => set_norm_w p (w p / total_weight cloud)) cloud).
Proof.
  intros Ht. destruct cloud as [|p cloud]; [reflexivity|].
  unfold normalize_cloud. apply Reqb_false in Ht. rewrite Ht. reflexivity.
Qed.

Lemma normalize_cloud_zero (cloud : list Particle) :
  cloud <> [] -> total_weight cloud = 0 ->
  normalize_cloud cloud = Raise ZeroDivisionError.
Proof.
  intros Hne Ht. destruct cloud as [|p cloud]; [contradiction|].
  unfold normalize_cloud. apply Reqb_true in Ht. rewrite Ht. reflexivity.
Qed.

Lemma normalize_cloud_inv (cloud cloud' : list Particle) :
  normalize_cloud cloud = Ok cloud' ->
  cloud' = map (fun p => set_norm_w p (w p / total_weight cloud)) cloud.
Proof.
  destruct cloud as [|p cloud]; simpl.
  - intros H. injection H as <-. reflexivity.
  - destruct (Reqb _ 0); intros H; [discriminate|]. injection H as <-. reflexivity.
Qed.

Lemma map_w_set_norm_w (f : Particle -> R) (cloud : list Particle) :
  map w (map (fun p => set_norm_w p (f p)) cloud) = map w cloud.
Proof. rewrite map_map. apply map_ext. reflexivity. Qed.

Lemma normalized_sum (cloud : list Particle) :
  total_weight cloud <> 0 ->
  Rsum (map norm_w (map (fun p => set_norm_w p (w p / total_weight cloud)) cloud)) = 1.
Proof.
  intros Ht. rewrite map_map. simpl.
  rewrite <- (map_map w (fun a => a / total_weight cloud)).
  rewrite Rsum_scaled, <- total_weight_sum. now field.
Qed.

(** C6: on a non-empty cloud whose raw weights have a nonzero sum,
    [normalize_particles] returns; it leaves the raw weights (and the
    poses) as they were, sets each [norm_w] to [w] divided by the total
    raw weight, and the [norm_w] values sum to 1. *)
Theorem normalize_particles_distribution (pf : ParticleFilter) :
  particle_cloud pf <> [] ->
  total_weight (particle_cloud pf) <> 0 ->
  exists pf',
    normalize_particles pf = Ok pf' /\
    Forall2 (fun p p' =>
               norm_w p' = w p / total_weight (particle_cloud pf) /\
               w p' = w p /\ x p' = x p /\ y p' = y p /\ theta p' = theta p)
            (particle_cloud pf) (particle_cloud pf') /\
    Rsum (map norm_w (particle_cloud pf')) = 1.
Proof.
  intros _ Ht. unfold normalize_particles. simpl.
  rewrite (normalize_cloud_ok _ Ht). simpl.
  eexists; split; [reflexivity|]. simpl. split.
  - generalize (total_weight (particle_cloud pf)). intros t.
    clear Ht. induction (particle_cloud pf) as [|p c IH]; simpl.
    + constructor.
    + constructor; [simpl; repeat split; reflexivity | exact IH].
  - apply normalized_sum, Ht.
Qed.

(** C3 (as amended): when every raw weight of a cloud that is not empty
    is exactly 0, [normalize_particles] defines no fallback: it raises
    [ZeroDivisionError], and returns no cloud, neither one of uniform
    weights nor one of undefined weights. *)
Theorem normalize_particles_zero_weights_raise (pf : ParticleFilter) :
  particle_cloud pf <> [] ->
  Forall (fun p => w p = 0) (particle_cloud pf) ->
  normalize_particles pf = Raise ZeroDivisionError.
Proof.
  intros Hne Hzero. unfold normalize_particles. cbn [enter particle_cloud].
  rewrite normalize_cloud_zero; [reflexivity|exact Hne|].
  rewrite total_weight_sum.
  induction Hzero as [|p cloud Hp _ IH]; [contradiction|].
  cbn [map Rsum fold_right]. rewrite Hp.
  destruct cloud as [|q cloud]; [simpl; lra|].
  fold (Rsum (map w (q :: cloud))). rewrite IH by discriminate. lra.
Qed.

(* ------------------------------------------------------------------ *)
(** ** arctan2 *)

Lemma arctan2_pos_x_axis (ax : R) : 0 < ax -> arctan2 0 ax = 0.
Proof.
  intros Hx. unfold arctan2. apply Rltb_true in Hx. rewrite Hx.
  replace (0 / ax) with 0 by (unfold Rdiv; ring). apply atan_0.
Qed.

Lemma arctan2_neg_x_axis (ax : R) : ax < 0 -> arctan2 0 ax = PI.
Proof.
  intros Hx. unfold arctan2.
  assert (H1 : Rltb 0 ax = false) by (apply Rltb_false; lra).
  assert (H2 : Rltb ax 0 = true) by (apply Rltb_true; lra).
  assert (H3 : Rleb 0 0 = true) by (apply Rleb_true; lra).
  rewrite H1, H2, H3.
  replace (0 / ax) with 0 by (unfold Rdiv; ring). rewrite atan_0. ring.
Qed.

(* ------------------------------------------------------------------ *)
(** ** Motion model *)

Lemma move_particles_still (k : nat) (cloud : list Particle) :
  (forall i, randn i = 0) ->
  Forall2 (fun p p' =>
             x p' = x p + cos (theta p) /\
             y p' = y p + sin (theta p) /\
             theta p' = theta p /\ w p' = w p /\ norm_w p' = norm_w p)
          cloud (move_particles 0 1 0 k cloud).
Proof.
  intros Hn. revert k. induction cloud as [|p cloud IH]; intros k; simpl.
  - constructor.
  - constructor; [|apply IH].
    rewrite !Hn. simpl.
    replace (theta p + (0 + 0 * 0.01)) with (theta p) by lra.
    repeat split; lra.
Qed.

Lemma unit_step_decomposition :
  arctan2 (0 - 0) (1 - 0) - 0 = 0 /\
  sqrt ((1 - 0) ^ 2 + (0 - 0) ^ 2) = 1 /\
  0 - arctan2 (0 - 0) (1 - 0) = 0.
Proof.
  replace (0 - 0) with 0 by lra. replace (1 - 0) with 1 by lra.
  rewrite arctan2_pos_x_axis by lra.
  replace (1 ^ 2 + 0 ^ 2) with 1 by lra. rewrite sqrt_1.
  repeat split; lra.
Qed.

Lemma update_particles_with_odom_unit_step (pf : ParticleFilter) (o : OdomPose) :
  current_odom_xy_theta pf = Some (0, 0, 0) ->
  odom_pose pf = Some o ->
  convert_pose_to_xy_and_theta o = (1, 0, 0) ->
  (forall i, randn i = 0) ->
  exists pf',
    update_particles_with_odom pf = Ok pf' /\
    current_odom_xy_theta pf' = Some (1, 0, 0) /\
    Forall2 (fun p p' =>
               x p' = x p + cos (theta p) /\
               y p' = y p + sin (theta p) /\
               theta p' = theta p /\ w p' = w p /\ norm_w p' = norm_w p)
            (particle_cloud pf) (particle_cloud pf').
Proof.
  intros Hcur Ho Hconv Hn.
  destruct unit_step_decomposition as (H1 & H2 & H3).
  unfold update_particles_with_odom.
  cbn [enter odom_pose current_odom_xy_theta particle_cloud rng_calls with_current_odom].
  rewrite Ho, Hconv, Hcur.
  cbn [enter odom_pose current_odom_xy_theta particle_cloud rng_calls with_current_odom].
  rewrite H1, H2, H3.
  eexists; split; [reflexivity|].
  cbn [current_odom_xy_theta particle_cloud with_rng_calls with_cloud with_current_odom].
  split; [reflexivity|].
  apply move_particles_still, Hn.
Qed.

(** C4 (as amended): with previous odometry (0,0,0), new odometry
    (1,0,0) and all noise terms 0, the motion update moves every particle
    by one unit along its own heading, that is by
    [(cos theta, sin theta)], and leaves its heading and weights
    unchanged; the shift is (1,0) for a particle of heading 0. *)
Theorem motion_update_unit_step_along_heading (pf : ParticleFilter) (o : OdomPose) :
  current_odom_xy_theta pf = Some (0, 0, 0) ->
  odom_pose pf = Some o ->
  convert_pose_to_xy_and_theta o = (1, 0, 0) ->
  (forall i, randn i = 0) ->
  exists pf',
    update_particles_with_odom pf = Ok pf' /\
    Forall2 (fun p p' =>
               x p' = x p + cos (theta p) /\
               y p' = y p + sin (theta p) /\
               theta p' = theta p /\ w p' = w p /\
               (theta p = 0 -> x p' = x p + 1 /\ y p' = y p + 0))
            (particle_cloud pf) (particle_cloud pf').
Proof.
  intros Hcur Ho Hconv Hn.
  destruct (update_particles_with_odom_unit_step pf o Hcur Ho Hconv Hn)
    as (pf' & Hrun & _ & Hall).
  exists pf'. split; [exact Hrun|].
  eapply Forall2_impl; [|exact Hall].
  intros p p' (Hx & Hy & Ht & Hw & _). repeat split; auto.
  - rewrite Hx, H, cos_0. reflexivity.
  - rewrite Hy, H, sin_0. reflexivity.
Qed.

(* ------------------------------------------------------------------ *)
(** ** Update gate *)

Lemma moved_far_enough_spec (pf : ParticleFilter) (cx cy ct nx ny nt : R) :
  current_odom_xy_theta pf = Some (cx, cy, ct) ->
  exists b,
    moved_far_enough_to_update pf (nx, ny, nt) = Ok b /\
    (b = true <->
       Rabs (nx - cx) > d_thresh pf \/
       Rabs (ny - cy) > d_thresh pf \/
       Rabs (nt - ct) > a_thresh pf).
Proof.
  intros Hcur. unfold moved_far_enough_to_update. rewrite Hcur.
  eexists; split; [reflexivity|].
  rewrite !orb_true_iff, !Rgtb_true. apply or_assoc.
Qed.

(** The gate compares the plain difference of the two headings with
    [a_thresh], with no wrap-around: it reports a move exactly when
    [|new - old|] exceeds a threshold on x, y or theta.  So when the new
    heading is the old one advanced by [delta] and wrapped by a full
    turn, the gate fires as soon as [2 PI - delta] exceeds [a_thresh],
    however small [delta] is. *)
Lemma moved_far_enough_plain_difference
  (pf : ParticleFilter) (cx cy ct nx ny nt : R) :
  current_odom_xy_theta pf = Some (cx, cy, ct) ->
  exists b,
    moved_far_enough_to_update pf (nx, ny, nt) = Ok b /\
    (b = true <->
       Rabs (nx - cx) > d_thresh pf \/
       Rabs (ny - cy) > d_thresh pf \/
       Rabs (nt - ct) > a_thresh pf) /\
    (forall delta, nt = ct + delta - 2 * PI -> 0 <= delta ->
                   a_thresh pf < 2 * PI - delta -> b = true).
Proof.
  intros Hcur.
  destruct (moved_far_enough_spec pf cx cy ct nx ny nt Hcur) as (b & Hb & Hiff).
  exists b. split; [exact Hb|]. split; [exact Hiff|].
  intros delta Hnt Hd Ha. apply Hiff. right. right.
  replace (nt - ct) with (- (2 * PI - delta)) by lra.
  rewrite Rabs_Ropp. pose proof (Rle_abs (2 * PI - delta)). lra.
Qed.

(** C5: the gate fires on a turn that stays within [a_thresh] when the
    heading crosses the wrap-around.  With the position unchanged, the
    new heading being the old one advanced by [delta] and wrapped by a
    full turn ([new = old + delta - 2 PI], as for old = PI - 0.01, new =
    -PI + 0.01, [delta] = 0.02), and [delta] no more than [a_thresh], the
    gate still reports that the robot has moved far enough, as soon as
    [2 PI - delta] exceeds [a_thresh]: the angular movement that
    [a_thresh] is documented to bound has not been exceeded. *)
Theorem moved_far_enough_fires_across_wrap
  (pf : ParticleFilter) (cx cy ct nt delta : R) :
  current_odom_xy_theta pf = Some (cx, cy, ct) ->
  nt = ct + delta - 2 * PI ->
  0 <= delta <= a_thresh pf ->
  a_thresh pf < 2 * PI - delta ->
  moved_far_enough_to_update pf (cx, cy, nt) = Ok true.
Proof.
  intros Hcur Hnt Hd Ha.
  destruct (moved_far_enough_plain_difference pf cx cy ct cx cy nt Hcur)
    as (b & Hb & _ & Hwrap).
  rewrite Hb. f_equal. apply (Hwrap delta); [exact Hnt|apply Hd|exact Ha].
Qed.

(* ------------------------------------------------------------------ *)
(** ** Pose estimate *)

Lemma pose_sums_acc (cloud : list Particle) (a b c d : R) :
  fold_left (fun '(x_avg, y_avg, cos_avg, sin_avg) p =>
               (x_avg + x p * w p,
                y_avg + y p * w p,
                cos_avg + cos (theta p) * w p,
                sin_avg + sin (theta p) * w p))
            cloud (a, b, c, d)
  = (a + Rsum (map (fun p => x p * w p) cloud),
     b + Rsum (map (fun p => y p * w p) cloud),
     c + Rsum (map (fun p => cos (theta p) * w p) cloud),
     d + Rsum (map (fun p => sin (theta p) * w p) cloud)).
Proof.
  revert a b c d. induction cloud as [|p cloud IH]; intros a b c d; simpl.
  - f_equal; [f_equal; [f_equal|]|]; lra.
  - rewrite IH. f_equal; [f_equal; [f_equal|]|]; lra.
Qed.

Lemma pose_sums_eq (cloud : list Particle) :
  pose_sums cloud
  = (Rsum (map (fun p => x p * w p) cloud),
     Rsum (map (fun p => y p * w p) cloud),
     Rsum (map (fun p => cos (theta p) * w p) cloud),
     Rsum (map (fun p => sin (theta p) * w p) cloud)).
Proof.
  unfold pose_sums. rewrite pose_sums_acc. f_equal; [f_equal; [f_equal|]|]; lra.
Qed.

Lemma theta_mean_particle (cloud : list Particle) :
  theta (mean_particle cloud)
  = arctan2 (Rsum (map (fun p => sin (theta p) * w p) cloud))
            (Rsum (map (fun p => cos (theta p) * w p) cloud)).
Proof. unfold mean_particle. rewrite pose_sums_eq. reflexivity. Qed.

Lemma mean_particle_set_norm_w (f : Particle -> R) (cloud : list Particle) :
  mean_particle (map (fun p => set_norm_w p (f p)) cloud) = mean_particle cloud.
Proof.
  unfold mean_particle. rewrite !pose_sums_eq, !map_map. reflexivity.
Qed.

Lemma Rsum_app (l1 l2 : list R) : Rsum (l1 ++ l2) = Rsum l1 + Rsum l2.
Proof. induction l1 as [|a l1 IH]; simpl; [|rewrite IH]; lra. Qed.

Lemma Rsum_Permutation (l1 l2 : list R) : Permutation l1 l2 -> Rsum l1 = Rsum l2.
Proof. induction 1; simpl; lra. Qed.

Lemma Rsum_const (A : Type) (f : A -> R) (c : R) (l : list A) :
  Forall (fun a => f a = c) l -> Rsum (map f l) = INR (length l) * c.
Proof.
  induction 1 as [|a l Ha _ IH].
  - simpl. lra.
  - cbn [map Rsum fold_right length]. fold (Rsum (map f l)).
    rewrite IH, Ha, S_INR. lra.
Qed.

Lemma sin_near_minus_PI (e : R) : sin (- PI + e) = - sin (PI - e).
Proof. replace (- PI + e) with (- (PI - e)) by lra. apply sin_neg. Qed.

Lemma cos_near_minus_PI (e : R) : cos (- PI + e) = cos (PI - e).
Proof. replace (- PI + e) with (- (PI - e)) by lra. apply cos_neg. Qed.

Lemma cos_near_PI_neg : cos (PI - 0.01) < 0.
Proof.
  rewrite cos_minus, cos_PI, sin_PI.
  assert (0 < cos 0.01).
  { apply cos_gt_0; pose proof PI2_1; lra. }
  lra.
Qed.

Lemma update_robot_pose_ok (pf : ParticleFilter) :
  total_weight (particle_cloud pf) <> 0 ->
  exists pf',
    update_robot_pose pf = Ok pf' /\
    particle_cloud pf' =
      map (fun p => set_norm_w p (w p / total_weight (particle_cloud pf)))
          (particle_cloud pf) /\
    robot_pose pf' = Some (as_pose (mean_particle (particle_cloud pf))) /\
    call_log pf' = call_log pf ++ [StepRobotPose; StepNormalize] /\
    n_particles pf' = n_particles pf /\
    rng_calls pf' = rng_calls pf /\
    map_frame pf' = map_frame pf /\
    published pf' = published pf /\
    current_odom_xy_theta pf' = current_odom_xy_theta pf.
Proof.
  intros Ht. unfold update_robot_pose, normalize_particles.
  cbn [enter particle_cloud]. rewrite (normalize_cloud_ok _ Ht).
  cbn [bind with_cloud with_robot_pose odom_pose particle_cloud enter].
  rewrite mean_particle_set_norm_w.
  destruct (odom_pose pf); eexists; (split; [reflexivity|]); simpl;
    rewrite <- app_assoc; repeat split; reflexivity.
Qed.

(** C8: for a cloud made of as many particles of heading -PI+0.01 as of
    heading PI-0.01, all of one positive weight, the pose estimate
    completes and its heading, the arctan2 of the weighted sine and
    cosine sums, is PI: at the wrap-around boundary, not 0. *)
Theorem update_robot_pose_circular_mean
  (pf : ParticleFilter) (la lb : list Particle) (wt : R) :
  Permutation (particle_cloud pf) (la ++ lb) ->
  Forall (fun p => theta p = - PI + 0.01 /\ w p = wt) la ->
  Forall (fun p => theta p = PI - 0.01 /\ w p = wt) lb ->
  length la = length lb ->
  la <> [] ->
  0 < wt ->
  exists pf',
    update_robot_pose pf = Ok pf' /\
    robot_pose pf' = Some (as_pose (mean_particle (particle_cloud pf))) /\
    theta (mean_particle (particle_cloud pf)) = PI.
Proof.
  intros Hperm Ha Hb Hlen Hne Hwt.
  assert (Hn : 0 < INR (length la)).
  { apply lt_0_INR. destruct la; [contradiction|simpl; lia]. }
  assert (Hsum : forall f : Particle -> R,
             Rsum (map f (particle_cloud pf)) = Rsum (map f la) + Rsum (map f lb)).
  { intros f. rewrite (Rsum_Permutation _ _ (Permutation_map f Hperm)).
    rewrite map_app. apply Rsum_app. }
  assert (Htot : total_weight (particle_cloud pf) <> 0).
  { rewrite total_weight_sum, Hsum.
    rewrite (Rsum_const _ w wt la), (Rsum_const _ w wt lb), <- Hlen.
    - nra.
    - eapply Forall_impl; [|exact Hb]. intros p [_ H]. exact H.
    - eapply Forall_impl; [|exact Ha]. intros p [_ H]. exact H. }
  destruct (update_robot_pose_ok pf Htot) as (pf' & Hrun & _ & Hpose & _).
  exists pf'. split; [exact Hrun|]. split; [exact Hpose|].
  rewrite theta_mean_particle, !Hsum.
  rewrite (Rsum_const _ (fun p => sin (theta p) * w p) (- sin (PI - 0.01) * wt) la),
          (Rsum_const _ (fun p => sin (theta p) * w p) (sin (PI - 0.01) * wt) lb),
          (Rsum_const _ (fun p => cos (theta p) * w p) (cos (PI - 0.01) * wt) la),
          (Rsum_const _ (fun p => cos (theta p) * w p) (cos (PI - 0.01) * wt) lb),
          <- Hlen.
  - replace (INR (length la) * (- sin (PI - 0.01) * wt)
             + INR (length la) * (sin (PI - 0.01) * wt)) with 0 by ring.
    apply arctan2_neg_x_axis. pose proof cos_near_PI_neg as Hc.
    assert (Hcw : cos (PI - 0.01) * wt < 0) by nra. nra.
  - eapply Forall_impl; [|exact Hb]. intros p [-> ->]. reflexivity.
  - eapply Forall_impl; [|exact Ha]. intros p [-> ->].
    rewrite cos_near_minus_PI. reflexivity.
  - eapply Forall_impl; [|exact Hb]. intros p [-> ->]. reflexivity.
  - eapply Forall_impl; [|exact Ha]. intros p [-> ->].
    rewrite sin_near_minus_PI. reflexivity.
Qed.

(* ------------------------------------------------------------------ *)
(** ** The cycle that skips the update *)


(* ------------------------------------------------------------------ *)
(** ** argsort, slices and indexing *)

Lemma insert_index_Permutation (ws : list R) (i : nat) (sorted : list nat) :
  Permutation (insert_index ws i sorted) (i :: sorted).
Proof.
  induction sorted as [|j rest IH]; simpl.
  - apply Permutation_refl.
  - destruct (Rleb _ _).
    + eapply perm_trans; [apply perm_skip, IH|apply perm_swap].
    + apply Permutation_refl.
Qed.

Lemma fold_insert_Permutation (ws : list R) (l acc : list nat) :
  Permutation (fold_left (fun sorted i => insert_index ws i sorted) l acc) (l ++ acc).
Proof.
  revert acc. induction l as [|i l IH]; intros acc; simpl.
  - apply Permutation_refl.
  - eapply perm_trans; [apply IH|].
    eapply perm_trans; [apply Permutation_app_head, insert_index_Permutation|].
    apply Permutation_sym, Permutation_middle.
Qed.

Lemma argsort_Permutation (ws : list R) :
  Permutation (argsort ws) (seq 0 (length ws)).
Proof.
  unfold argsort. eapply perm_trans; [apply fold_insert_Permutation|].
  rewrite app_nil_r. apply Permutation_refl.
Qed.

Lemma argsort_length (ws : list R) : length (argsort ws) = length ws.
Proof.
  rewrite (Permutation_length (argsort_Permutation ws)). apply length_seq.
Qed.

Lemma argsort_in_range (ws : list R) (i : nat) :
  In i (argsort ws) -> (i < length ws)%nat.
Proof.
  intros Hi. apply (Permutation_in _ (argsort_Permutation ws)) in Hi.
  apply in_seq in Hi. lia.
Qed.

Lemma insert_index_HdRel (ws : list R) (i j : nat) (sorted : list nat) :
  nth j ws 0 <= nth i ws 0 ->
  HdRel (fun a b => nth a ws 0 <= nth b ws 0) j sorted ->
  HdRel (fun a b => nth a ws 0 <= nth b ws 0) j (insert_index ws i sorted).
Proof.
  intros Hji Hhd. destruct sorted as [|k rest]; simpl.
  - constructor. exact Hji.
  - destruct (Rleb _ _); constructor; [|exact Hji].
    inversion Hhd; assumption.
Qed.

Lemma insert_index_Sorted (ws : list R) (i : nat) (sorted : list nat) :
  Sorted (fun a b => nth a ws 0 <= nth b ws 0) sorted ->
  Sorted (fun a b => nth a ws 0 <= nth b ws 0) (insert_index ws i sorted).
Proof.
  induction 1 as [|j rest Hs IH Hhd]; simpl.
  - repeat constructor.
  - destruct (Rleb (nth j ws 0) (nth i ws 0)) eqn:Hle.
    + apply Rleb_true in Hle. constructor; [exact IH|].
      apply insert_index_HdRel; assumption.
    + apply Rleb_false in Hle. constructor.
      * constructor; assumption.
      * constructor. lra.
Qed.

(** The indexes come out in ascending order of weight. *)
Lemma argsort_Sorted (ws : list R) :
  Sorted (fun a b => nth a ws 0 <= nth b ws 0) (argsort ws).
Proof.
  unfold argsort.
  assert (H : forall l acc,
             Sorted (fun a b => nth a ws 0 <= nth b ws 0) acc ->
             Sorted (fun a b => nth a ws 0 <= nth b ws 0)
                    (fold_left (fun sorted i => insert_index ws i sorted) l acc)).
  { induction l as [|i l IH]; intros acc Hacc; simpl; [exact Hacc|].
    apply IH, insert_index_Sorted, Hacc. }
  apply H. constructor.
Qed.

Lemma insert_index_last (ws : list R) (i : nat) (sorted : list nat) :
  Forall (fun j => nth j ws 0 <= nth i ws 0) sorted ->
  insert_index ws i sorted = sorted ++ [i].
Proof.
  induction 1 as [|j rest Hj _ IH]; simpl; [reflexivity|].
  apply Rleb_true in Hj. rewrite Hj, IH. reflexivity.
Qed.

Lemma fold_insert_ascending (ws : list R) (m k : nat) :
  (forall j i, (j < i < k + m)%nat -> nth j ws 0 <= nth i ws 0) ->
  fold_left (fun sorted i => insert_index ws i sorted) (seq k m) (seq 0 k)
  = seq 0 (k + m).
Proof.
  revert k. induction m as [|m IH]; intros k Hasc; simpl.
  - rewrite Nat.add_0_r. reflexivity.
  - rewrite insert_index_last.
    + replace (seq 0 k ++ [k]) with (seq 0 (S k)) by (rewrite seq_S; reflexivity).
      rewrite IH; [f_equal; lia|].
      intros j i Hji. apply Hasc. lia.
    + apply Forall_forall. intros j Hj. apply in_seq in Hj. apply Hasc. lia.
Qed.

(** On weights already in ascending order, [argsort] is the identity. *)
Lemma argsort_ascending (ws : list R) :
  (forall j i, (j < i < length ws)%nat -> nth j ws 0 <= nth i ws 0) ->
  argsort ws = seq 0 (length ws).
Proof.
  intros Hasc. unfold argsort.
  apply (fold_insert_ascending ws (length ws) 0). exact Hasc.
Qed.

Lemma slice_bound_le (len i : Z) :
  (0 <= len)%Z -> (Z.of_nat (slice_bound len i) <= len)%Z.
Proof. intros Hl. unfold slice_bound. destruct (i <? 0)%Z; lia. Qed.

Lemma py_slice_length (A : Type) (l : list A) (start stop : Z) :
  length (py_slice l start stop)
  = (slice_bound (Z.of_nat (length l)) stop
     - slice_bound (Z.of_nat (length l)) start)%nat.
Proof.
  unfold py_slice. rewrite length_firstn, length_skipn.
  pose proof (slice_bound_le (Z.of_nat (length l)) stop).
  pose proof (slice_bound_le (Z.of_nat (length l)) start). lia.
Qed.

Lemma py_slice_In (A : Type) (l : list A) (start stop : Z) (a : A) :
  In a (py_slice l start stop) -> In a l.
Proof.
  unfold py_slice. intros Ha.
  set (a0 := slice_bound (Z.of_nat (length l)) start) in *.
  set (b0 := slice_bound (Z.of_nat (length l)) stop) in *.
  rewrite <- (firstn_skipn a0 l). apply in_or_app. right.
  rewrite <- (firstn_skipn (b0 - a0) (skipn a0 l)). apply in_or_app. left. exact Ha.
Qed.

Lemma map_result_py_index (A : Type) (l : list A) (idxs : list nat) :
  Forall (fun i => (i < length l)%nat) idxs ->
  exists picked,
    map_result (py_index l) idxs = Ok picked /\
    length picked = length idxs /\
    Forall (fun a => In a l) picked.
Proof.
  induction 1 as [|i idxs Hi _ (picked & Hrun & Hlen & Hin)]; simpl.
  - exists []. repeat split; constructor.
  - unfold py_index at 1. destruct (nth_error l i) as [a|] eqn:Hnth.
    + rewrite Hrun. simpl. exists (a :: picked).
      split; [reflexivity|]. split; [simpl; lia|].
      constructor; [eapply nth_error_In; eauto|exact Hin].
    + apply nth_error_None in Hnth. lia.
Qed.

(* ------------------------------------------------------------------ *)
(** ** cumsum and searchsorted *)

Lemma cumsum_from_length (rnd : R -> R) (acc : R) (l : list R) :
  length (cumsum_from rnd acc l) = length l.
Proof. revert acc. induction l as [|a l IH]; intros acc; simpl; [|rewrite IH]; reflexivity. Qed.

Lemma cumsum_length (rnd : R -> R) (l : list R) : length (cumsum rnd l) = length l.
Proof. destruct l; simpl; [|rewrite cumsum_from_length]; reflexivity. Qed.

Lemma cumsum_from_cons_last (acc a : R) (l : list R) :
  nth (length l) (cumsum_from no_rounding acc (a :: l)) 0 = acc + Rsum (a :: l).
Proof.
  revert acc a. induction l as [|b l IH]; intros acc a.
  - simpl. unfold no_rounding. lra.
  - change (nth (length (b :: l)) (cumsum_from no_rounding acc (a :: b :: l)) 0)
      with (nth (length l) (cumsum_from no_rounding (no_rounding (acc + a)) (b :: l)) 0).
    rewrite IH. simpl. unfold no_rounding. lra.
Qed.

(** Without rounding the running sum ends at the sum of the array. *)
Lemma cumsum_last (l : list R) :
  l <> [] -> nth (length l - 1) (cumsum no_rounding l) 0 = Rsum l.
Proof.
  destruct l as [|a l]; [contradiction|]. intros _.
  replace (length (a :: l) - 1)%nat with (length l) by (simpl; lia).
  destruct l as [|b l].
  - simpl. lra.
  - change (nth (length (b :: l)) (cumsum no_rounding (a :: b :: l)) 0)
      with (nth (length l) (cumsum_from no_rounding a (b :: l)) 0).
    rewrite cumsum_from_cons_last. simpl. lra.
Qed.

Lemma last_as_nth (A : Type) (l : list A) (d : A) :
  last l d = nth (length l - 1) l d.
Proof.
  induction l as [|a l IH]; [reflexivity|].
  destruct l as [|b l]; [reflexivity|].
  change (last (a :: b :: l) d) with (last (b :: l) d). rewrite IH.
  simpl. rewrite Nat.sub_0_r. reflexivity.
Qed.

Lemma map_no_rounding (l : list R) : map no_rounding l = l.
Proof. unfold no_rounding. apply map_id. Qed.

(** When the last entry of the array is [True], the binary search stops
    inside the array. *)
Lemma binsearch_left_bound (a : list bool) (lo hi : nat) :
  nth (length a - 1) a false = true ->
  (lo <= hi <= length a)%nat ->
  (hi = length a -> lo < length a)%nat ->
  (binsearch_left a lo hi < length a)%nat.
Proof.
  intros Hlast. funelim (binsearch_left a lo hi).
  - intros Hb Hhi.
    assert (Hdiv : ((hi - lo) / 2 < hi - lo)%nat) by (apply Nat.div_lt; lia).
    set (mid := (lo + (hi - lo) / 2)%nat) in *.
    destruct (nth mid a false) eqn:Hm.
    + apply (H a lo mid Hlast eq_refl eq_refl); lia.
    + apply (H0 a (S mid) hi Hlast eq_refl eq_refl); [lia|].
      intros ->. destruct (Nat.eq_dec (S mid) (length a)) as [E|]; [|lia].
      replace (length a - 1)%nat with mid in Hlast by lia. congruence.
  - intros Hb Hhi. lia.
Qed.

Lemma searchsorted_true_bound (a : list bool) :
  nth (length a - 1) a false = true ->
  (searchsorted_true a < length a)%nat.
Proof.
  intros Hlast. unfold searchsorted_true.
  assert (length a <> 0)%nat.
  { intros E. destruct a; [discriminate Hlast|discriminate E]. }
  apply binsearch_left_bound; [exact Hlast|lia|lia].
Qed.

(** On an array that is [False] up to some index and [True] from it on,
    the binary search finds that index: the first [True]. *)
Lemma binsearch_left_first_true (a : list bool) (lo hi : nat) :
  (forall i j, (i <= j < length a)%nat ->
               nth i a false = true -> nth j a false = true) ->
  (lo <= hi <= length a)%nat ->
  (forall i, (i < lo)%nat -> nth i a false = false) ->
  (forall i, (hi <= i < length a)%nat -> nth i a false = true) ->
  (forall i, (i < binsearch_left a lo hi)%nat -> nth i a false = false) /\
  (forall i, (binsearch_left a lo hi <= i < length a)%nat -> nth i a false = true).
Proof.
  intros Hmono. funelim (binsearch_left a lo hi).
  - intros Hb Hlo Hhi.
    assert (Hdiv : ((hi - lo) / 2 < hi - lo)%nat) by (apply Nat.div_lt; lia).
    set (mid := (lo + (hi - lo) / 2)%nat) in *.
    destruct (nth mid a false) eqn:Hm.
    + apply (H Hmono); [lia|exact Hlo|].
      intros i Hi. apply (Hmono mid i); [lia|exact Hm].
    + apply (H0 Hmono); [lia| |exact Hhi].
      intros i Hi. destruct (nth i a false) eqn:Hn; [|reflexivity].
      rewrite (Hmono i mid) in Hm; [discriminate|lia|exact Hn].
  - intros Hb Hlo Hhi. split; [exact Hlo|].
    intros i Hi. apply Hhi. lia.
Qed.

Lemma searchsorted_true_first_true (a : list bool) :
  (forall i j, (i <= j < length a)%nat ->
               nth i a false = true -> nth j a false = true) ->
  (forall i, (i < searchsorted_true a)%nat -> nth i a false = false) /\
  (forall i, (searchsorted_true a <= i < length a)%nat -> nth i a false = true).
Proof.
  intros Hmono. unfold searchsorted_true.
  apply binsearch_left_first_true; [exact Hmono|lia| |]; intros i Hi; lia.
Qed.

(* ------------------------------------------------------------------ *)
(** ** Resampling *)

(** The elitism stage never raises: [argsort] only yields valid indexes. *)
Lemma best_particles_ok (n : nat) (cloud : list Particle) :
  exists best,
    best_particles n cloud = Ok best /\
    length best = length (best_particle_indexes n cloud) /\
    Forall (fun p => In p cloud) best.
Proof.
  unfold best_particles. apply map_result_py_index.
  apply Forall_forall. intros i Hi. unfold best_particle_indexes in Hi.
  apply py_slice_In, argsort_in_range in Hi. rewrite length_map in Hi. exact Hi.
Qed.

Lemma best_particle_indexes_length (n : nat) (cloud : list Particle) :
  length (best_particle_indexes n cloud)
  = elite_count n (length cloud).
Proof.
  unfold best_particle_indexes, elite_count.
  rewrite py_slice_length, argsort_length, length_map. reflexivity.
Qed.

Lemma positive_weights_sum (cloud : list Particle) :
  cloud <> [] -> Forall (fun p => 0 < w p) cloud -> 0 < total_weight cloud.
Proof.
  intros Hne Hpos. rewrite total_weight_sum.
  induction Hpos as [|p cloud Hp Hpos IH]; [contradiction|].
  simpl. destruct cloud as [|q cloud].
  - simpl. lra.
  - assert (0 < Rsum (map w (q :: cloud))) by (apply IH; discriminate). lra.
Qed.

Lemma nth_map_in_range (A B : Type) (f : A -> B) (l : list A) (i : nat) (d : A) (d' : B) :
  (i < length l)%nat -> nth i (map f l) d' = f (nth i l d).
Proof.
  revert i. induction l as [|a l IH]; intros i Hi; simpl in Hi; [lia|].
  destruct i as [|i]; simpl; [reflexivity|]. apply IH. lia.
Qed.

(** A draw below the last cumulative probability finds a survivor. *)
Lemma draw_particle_ok (survivors : list Particle) (cum : list R) (k : nat) :
  survivors <> [] ->
  length cum = length survivors ->
  rand k < last cum 0 ->
  exists p, draw_particle survivors cum k = Ok p /\ w p = 1.
Proof.
  intros Hne Hcum Hu.
  unfold draw_particle.
  set (sel := map (fun c => Rgtb c (rand k)) cum).
  assert (Hlen : length sel = length survivors).
  { unfold sel. rewrite length_map. exact Hcum. }
  assert (Hpos : (0 < length survivors)%nat).
  { destruct survivors; [contradiction|simpl; lia]. }
  assert (Hlast : nth (length sel - 1) sel false = true).
  { rewrite Hlen. unfold sel.
    rewrite (nth_map_in_range _ _ _ _ _ 0) by lia.
    rewrite <- Hcum, <- last_as_nth. apply Rgtb_true. lra. }
  pose proof (searchsorted_true_bound sel Hlast) as Hidx. rewrite Hlen in Hidx.
  unfold py_index. destruct (nth_error survivors (searchsorted_true sel)) eqn:Hn.
  - simpl. eexists; split; reflexivity.
  - apply nth_error_None in Hn. lia.
Qed.

(** On an array without a [True] the binary search runs to the end. *)
Lemma binsearch_left_all_false (a : list bool) (lo hi : nat) :
  (forall i, nth i a false = false) ->
  (lo <= hi)%nat ->
  binsearch_left a lo hi = hi.
Proof.
  intros Hall. funelim (binsearch_left a lo hi); intros Hle.
  - assert (Hdiv : ((hi - lo) / 2 < hi - lo)%nat) by (apply Nat.div_lt; lia).
    rewrite Hall. apply H0; [exact Hall|lia].
  - lia.
Qed.

(** A draw at or above every cumulative probability finds none: the
    index is the length of the list of survivors. *)
Lemma draw_particle_past_cumsum (survivors : list Particle) (cum : list R) (k : nat) :
  length cum = length survivors ->
  Forall (fun c => c <= rand k) cum ->
  draw_particle survivors cum k = Raise IndexError.
Proof.
  intros Hcum Hall. unfold draw_particle.
  set (sel := map (fun c => Rgtb c (rand k)) cum).
  assert (Hfalse : forall i, nth i sel false = false).
  { intros i. destruct (lt_dec i (length cum)) as [Hi|Hi].
    - unfold sel. rewrite (nth_map_in_range _ _ _ _ _ 0) by exact Hi.
      apply Rgtb_false. rewrite Forall_forall in Hall. apply Hall, nth_In, Hi.
    - apply nth_overflow. unfold sel. rewrite length_map. lia. }
  unfold searchsorted_true.
  rewrite (binsearch_left_all_false sel 0 (length sel) Hfalse) by lia.
  unfold sel. rewrite length_map, Hcum. unfold py_index.
  assert (Hn : nth_error survivors (length survivors) = None)
    by (apply nth_error_None; lia).
  rewrite Hn. reflexivity.
Qed.

Lemma draw_particle_inv (survivors : list Particle) (cum : list R) (k : nat) (p : Particle) :
  draw_particle survivors cum k = Ok p -> w p = 1.
Proof.
  unfold draw_particle. destruct (py_index survivors _); simpl; [|discriminate].
  intros H. injection H as <-. reflexivity.
Qed.

Lemma draw_particles_inv (survivors : list Particle) (cum : list R)
  (k count : nat) (ps : list Particle) :
  draw_particles survivors cum k count = Ok ps ->
  length ps = count /\ Forall (fun p => w p = 1) ps.
Proof.
  revert k ps. induction count as [|count IH]; intros k ps; simpl.
  - intros H. injection H as <-. split; constructor.
  - destruct (draw_particle survivors cum k) as [p|] eqn:Hp; simpl; [|discriminate].
    destruct (draw_particles survivors cum (k + 4) count) as [qs|] eqn:Hq;
      simpl; [|discriminate].
    intros H. injection H as <-. destruct (IH _ _ Hq) as [Hl Hw].
    split; [simpl; lia|].
    constructor; [eapply draw_particle_inv; eauto|exact Hw].
Qed.

Lemma draw_particles_ok (survivors : list Particle) (cum : list R) (k count : nat) :
  survivors <> [] ->
  length cum = length survivors ->
  (forall i, (i < count)%nat -> rand (k + 4 * i) < last cum 0) ->
  exists ps, draw_particles survivors cum k count = Ok ps.
Proof.
  intros Hne Hcum. revert k. induction count as [|count IH]; intros k Hu; simpl.
  - eexists; reflexivity.
  - destruct (draw_particle_ok survivors cum k Hne Hcum) as (p & -> & _).
    { specialize (Hu 0%nat ltac:(lia)). rewrite Nat.mul_0_r, Nat.add_0_r in Hu.
      exact Hu. }
    destruct (IH (k + 4)%nat) as (ps & ->).
    { intros i Hi. specialize (Hu (S i) ltac:(lia)).
      replace (k + 4 + 4 * i)%nat with (k + 4 * S i)%nat by lia. exact Hu. }
    simpl. eexists; reflexivity.
Qed.

(** The only exception of the regeneration loop is [IndexError]. *)
Lemma draw_particles_raise (survivors : list Particle) (cum : list R)
  (k count : nat) (e : PyError) :
  draw_particles survivors cum k count = Raise e -> e = IndexError.
Proof.
  revert k. induction count as [|count IH]; intros k; simpl; [discriminate|].
  unfold draw_particle at 1. unfold py_index.
  destruct (nth_error survivors _); cbn [bind].
  - destruct (draw_particles survivors cum (k + 4) count) eqn:Hd; cbn [bind];
      [discriminate|].
    intros H. injection H as <-. eapply IH; eauto.
  - intros H. injection H as <-. reflexivity.
Qed.

(** One draw at or above every cumulative probability stops the loop. *)
Lemma draw_particles_past_cumsum (survivors : list Particle) (cum : list R)
  (k count i : nat) :
  length cum = length survivors ->
  (i < count)%nat ->
  Forall (fun c => c <= rand (k + 4 * i)) cum ->
  draw_particles survivors cum k count = Raise IndexError.
Proof.
  intros Hcum. revert k i. induction count as [|count IH]; intros k i Hi Hall; [lia|].
  destruct i as [|i].
  - rewrite Nat.mul_0_r, Nat.add_0_r in Hall. cbn [draw_particles].
    rewrite (draw_particle_past_cumsum survivors cum k Hcum Hall). reflexivity.
  - cbn [draw_particles].
    assert (Hrest : draw_particles survivors cum (k + 4) count = Raise IndexError).
    { apply (IH (k + 4)%nat i); [lia|].
      replace (k + 4 + 4 * i)%nat with (k + 4 * S i)%nat by lia. exact Hall. }
    destruct (draw_particle survivors cum k) as [p|e] eqn:Hp; cbn [bind].
    + rewrite Hrest. reflexivity.
    + f_equal. apply (draw_particles_raise survivors cum k 1 e).
      cbn [draw_particles]. rewrite Hp. reflexivity.
Qed.

Lemma same_settings_refl (pf : ParticleFilter) : same_settings pf pf.
Proof. repeat split. Qed.

Lemma same_settings_trans (pf1 pf2 pf3 : ParticleFilter) :
  same_settings pf1 pf2 -> same_settings pf2 pf3 -> same_settings pf1 pf3.
Proof.
  unfold same_settings. intros (A1 & A2 & A3 & A4 & A5 & A6) (B1 & B2 & B3 & B4 & B5 & B6).
  repeat split; congruence.
Qed.

Lemma normalize_particles_inv (pf pf' : ParticleFilter) :
  normalize_particles pf = Ok pf' ->
  particle_cloud pf' =
    map (fun p => set_norm_w p (w p / total_weight (particle_cloud pf)))
        (particle_cloud pf) /\
  call_log pf' = call_log pf ++ [StepNormalize] /\
  rng_calls pf' = rng_calls pf /\
  robot_pose pf' = robot_pose pf /\
  current_odom_xy_theta pf' = current_odom_xy_theta pf /\
  same_settings pf pf'.
Proof.
  unfold normalize_particles. cbn [enter particle_cloud].
  destruct (normalize_cloud (particle_cloud pf)) as [c|] eqn:Hc; simpl; [|discriminate].
  intros H. injection H as <-. apply normalize_cloud_inv in Hc. subst c.
  repeat split.
Qed.

Lemma normalize_particles_ok (pf : ParticleFilter) :
  total_weight (particle_cloud pf) <> 0 ->
  exists pf', normalize_particles pf = Ok pf'.
Proof.
  intros Ht. unfold normalize_particles. cbn [enter particle_cloud].
  rewrite (normalize_cloud_ok _ Ht). eexists; reflexivity.
Qed.

Lemma resample_particles_inv (pf pf' : ParticleFilter) :
  resample_particles pf = Ok pf' ->
  length (particle_cloud pf') = n_particles pf /\
  Forall (fun p => w p = 1) (particle_cloud pf') /\
  call_log pf' = call_log pf ++ [StepResample; StepNormalize] /\
  robot_pose pf' = robot_pose pf /\
  current_odom_xy_theta pf' = current_odom_xy_theta pf /\
  same_settings pf pf'.
Proof.
  unfold resample_particles. cbn [enter particle_cloud n_particles].
  destruct (best_particles (n_particles pf) (particle_cloud pf)) as [best|];
    [|discriminate].
  cbn [bind].
  destruct (normalize_particles _) as [pf1|] eqn:Hn; [|discriminate].
  cbn [bind].
  destruct (draw_particles _ _ _ _) as [ps|] eqn:Hd; [|discriminate].
  cbn [bind]. intros H. injection H as <-.
  apply normalize_particles_inv in Hn.
  destruct Hn as (_ & Hlog & _ & Hrp & Hcur & (S1 & S2 & S3 & S4 & S5 & S6)).
  apply draw_particles_inv in Hd. destruct Hd as [Hlen Hw].
  simpl in *. rewrite Hlog, <- app_assoc.
  repeat split; auto; congruence.
Qed.

(** The resampling once the elitism stage and the normalization of the
    survivors have succeeded. *)
Lemma resample_particles_unfold (pf : ParticleFilter) (best survivors : list Particle) :
  best_particles (n_particles pf) (particle_cloud pf) = Ok best ->
  normalize_cloud best = Ok survivors ->
  cumulative_probability_of pf = cumsum fl (np_array (map norm_w survivors)) /\
  resample_particles pf =
    (new_particles <- draw_particles survivors (cumulative_probability_of pf)
                        (rng_calls pf) (n_particles pf) ;;
     Ok (with_rng_calls
           (with_cloud (with_cloud (enter (enter pf StepResample) StepNormalize)
                          survivors) new_particles)
           (rng_calls pf + 4 * n_particles pf))).
Proof.
  intros Hbest Hnorm. unfold cumulative_probability_of. rewrite Hbest, Hnorm.
  split; [reflexivity|].
  unfold resample_particles. cbn [enter particle_cloud n_particles].
  rewrite Hbest. cbn [bind].
  unfold normalize_particles. cbn [enter particle_cloud with_cloud].
  rewrite Hnorm. reflexivity.
Qed.

Lemma cumulative_probability_of_length (pf : ParticleFilter) (best survivors : list Particle) :
  best_particles (n_particles pf) (particle_cloud pf) = Ok best ->
  normalize_cloud best = Ok survivors ->
  length (cumulative_probability_of pf) = length survivors.
Proof.
  intros Hbest Hnorm.
  destruct (resample_particles_unfold pf best survivors Hbest Hnorm) as [-> _].
  unfold np_array. rewrite cumsum_length, !length_map. reflexivity.
Qed.

(** The survivors of a cloud of positive weights. *)
Lemma survivors_ok (pf : ParticleFilter) :
  Forall (fun p => 0 < w p) (particle_cloud pf) ->
  exists best,
    best_particles (n_particles pf) (particle_cloud pf) = Ok best /\
    length best = elite_count (n_particles pf) (length (particle_cloud pf)) /\
    Forall (fun p => In p (particle_cloud pf)) best /\
    normalize_cloud best =
      Ok (map (fun p => set_norm_w p (w p / total_weight best)) best).
Proof.
  intros Hpos.
  destruct (best_particles_ok (n_particles pf) (particle_cloud pf))
    as (best & Hbest & Hlen & Hin).
  rewrite best_particle_indexes_length in Hlen.
  exists best. repeat split; try assumption.
  destruct best as [|b best]; [reflexivity|].
  assert (Hbpos : Forall (fun p => 0 < w p) (b :: best)).
  { rewrite Forall_forall in *. intros p Hp. apply Hpos, Hin, Hp. }
  pose proof (positive_weights_sum (b :: best) ltac:(discriminate) Hbpos) as Htot.
  apply normalize_cloud_ok. lra.
Qed.

Lemma resample_particles_ok (pf : ParticleFilter) :
  (0 < elite_count (n_particles pf) (length (particle_cloud pf)))%nat ->
  Forall (fun p => 0 < w p) (particle_cloud pf) ->
  draws_find_survivor pf ->
  exists pf', resample_particles pf = Ok pf'.
Proof.
  intros Helite Hpos Hu.
  destruct (survivors_ok pf Hpos) as (best & Hbest & Hlen & Hin & Hnorm).
  destruct (resample_particles_unfold pf best _ Hbest Hnorm) as [Hcum ->].
  destruct (draw_particles_ok
              (map (fun p => set_norm_w p (w p / total_weight best)) best)
              (cumulative_probability_of pf)
              (rng_calls pf) (n_particles pf)) as (ps & Hps).
  - intros E. apply (f_equal (@length Particle)) in E.
    rewrite length_map in E. simpl in E. lia.
  - apply (cumulative_probability_of_length pf best); assumption.
  - exact Hu.
  - rewrite Hps. eexists; reflexivity.
Qed.

(** The resampling raises [IndexError] as soon as one of its uniform
    draws is at or above every cumulative probability. *)
Lemma resample_particles_past_cumsum (pf : ParticleFilter) (i : nat) :
  Forall (fun p => 0 < w p) (particle_cloud pf) ->
  (i < n_particles pf)%nat ->
  Forall (fun c => c <= rand (rng_calls pf + 4 * i)) (cumulative_probability_of pf) ->
  resample_particles pf = Raise IndexError.
Proof.
  intros Hpos Hi Hall.
  destruct (survivors_ok pf Hpos) as (best & Hbest & Hlen & Hin & Hnorm).
  destruct (resample_particles_unfold pf best _ Hbest Hnorm) as [Hcum ->].
  rewrite (draw_particles_past_cumsum _ (cumulative_probability_of pf)
             (rng_calls pf) (n_particles pf) i).
  - reflexivity.
  - apply (cumulative_probability_of_length pf best); assumption.
  - exact Hi.
  - exact Hall.
Qed.

(** The resampling raises nothing but [IndexError] on positive weights. *)
Lemma resample_particles_raise (pf : ParticleFilter) (e : PyError) :
  Forall (fun p => 0 < w p) (particle_cloud pf) ->
  resample_particles pf = Raise e -> e = IndexError.
Proof.
  intros Hpos.
  destruct (survivors_ok pf Hpos) as (best & Hbest & Hlen & Hin & Hnorm).
  destruct (resample_particles_unfold pf best _ Hbest Hnorm) as [Hcum ->].
  destruct (draw_particles _ _ _ _) as [ps|e'] eqn:Hd; cbn [bind]; [discriminate|].
  intros H. injection H as <-. eapply draw_particles_raise; eauto.
Qed.

(* ------------------------------------------------------------------ *)
(** ** The steps of a full update *)

Lemma move_particles_weights (theta1 dist theta2 : R) (k : nat) (cloud : list Particle) :
  map w (move_particles theta1 dist theta2 k cloud) = map w cloud.
Proof.
  revert k. induction cloud as [|p cloud IH]; intros k; simpl; [reflexivity|].
  rewrite IH. reflexivity.
Qed.

Lemma update_particles_with_odom_inv (pf pf' : ParticleFilter) :
  update_particles_with_odom pf = Ok pf' ->
  map w (particle_cloud pf') = map w (particle_cloud pf) /\
  call_log pf' = call_log pf ++ [StepOdom] /\
  robot_pose pf' = robot_pose pf /\
  current_odom_xy_theta pf' = option_map convert_pose_to_xy_and_theta (odom_pose pf) /\
  same_settings pf pf'.
Proof.
  unfold update_particles_with_odom.
  cbn [enter odom_pose current_odom_xy_theta].
  destruct (odom_pose pf) as [o|] eqn:Ho; [|discriminate].
  destruct (current_odom_xy_theta pf) as [[[ox oy] otheta]|].
  - destruct (convert_pose_to_xy_and_theta o) as [[nx ny] ntheta] eqn:Hconv.
    intros H. injection H as <-.
    cbn [particle_cloud with_rng_calls with_cloud with_current_odom enter].
    rewrite move_particles_weights. repeat split; simpl; rewrite ?Hconv; auto.
  - intros H. injection H as <-. repeat split; simpl; auto.
Qed.

Lemma update_particles_with_odom_ok (pf : ParticleFilter) (o : OdomPose) :
  odom_pose pf = Some o ->
  exists pf', update_particles_with_odom pf = Ok pf'.
Proof.
  intros Ho. unfold update_particles_with_odom.
  cbn [enter odom_pose current_odom_xy_theta]. rewrite Ho.
  destruct (current_odom_xy_theta pf) as [[[ox oy] otheta]|].
  - destruct (convert_pose_to_xy_and_theta o) as [[nx ny] ntheta].
    eexists; reflexivity.
  - eexists; reflexivity.
Qed.

Lemma score_beam_weight (p : Particle) (beam : reading * R) :
  w p <= w (score_beam p beam).
Proof.
  unfold score_beam. destruct beam as [[r_i|] theta_i]; [|lra].
  destruct (get_closest_obstacle_distance _ _) as [d|]; [|lra].
  destruct (Rltb d 0.15); simpl; lra.
Qed.

Lemma fold_score_beam_weight (beams : list (reading * R)) (p : Particle) :
  w p <= w (fold_left score_beam beams p).
Proof.
  revert p. induction beams as [|b beams IH]; intros p; simpl; [lra|].
  pose proof (score_beam_weight p b). pose proof (IH (score_beam p b)). lra.
Qed.

Lemma positive_weights_scored (beams : list (reading * R)) (cloud : list Particle) :
  Forall (fun p => 0 < w p) cloud ->
  Forall (fun p => 0 < w p) (map (fun p => fold_left score_beam beams p) cloud).
Proof.
  intros Hpos. apply Forall_map. eapply Forall_impl; [|exact Hpos].
  intros p Hp. simpl. pose proof (fold_score_beam_weight beams p). lra.
Qed.

Lemma positive_weights_normalized (f : Particle -> R) (cloud : list Particle) :
  Forall (fun p => 0 < w p) cloud ->
  Forall (fun p => 0 < w p) (map (fun p => set_norm_w p (f p)) cloud).
Proof.
  intros Hpos. apply Forall_map. eapply Forall_impl; [|exact Hpos].
  intros p Hp. exact Hp.
Qed.

Lemma update_particles_with_laser_inv
  (pf pf' : ParticleFilter) (r : list reading) (thetas : list R) :
  update_particles_with_laser pf r thetas = Ok pf' ->
  length (particle_cloud pf') = length (particle_cloud pf) /\
  (Forall (fun p => 0 < w p) (particle_cloud pf) ->
   Forall (fun p => 0 < w p) (particle_cloud pf')) /\
  call_log pf' = call_log pf ++ [StepLaser; StepNormalize] /\
  robot_pose pf' = robot_pose pf /\
  current_odom_xy_theta pf' = current_odom_xy_theta pf /\
  same_settings pf pf'.
Proof.
  unfold update_particles_with_laser. intros H.
  apply normalize_particles_inv in H.
  destruct H as (Hc & Hlog & _ & Hrp & Hcur & Hs).
  cbn [particle_cloud with_cloud enter call_log robot_pose current_odom_xy_theta] in *.
  rewrite Hc, Hlog, <- app_assoc. repeat split; auto.
  - rewrite !length_map. reflexivity.
  - intros Hpos. apply positive_weights_normalized, positive_weights_scored, Hpos.
  - apply Hs.
  - apply Hs.
  - apply Hs.
  - apply Hs.
  - apply Hs.
  - apply Hs.
Qed.

Lemma update_particles_with_laser_ok
  (pf : ParticleFilter) (r : list reading) (thetas : list R) :
  particle_cloud pf <> [] ->
  Forall (fun p => 0 < w p) (particle_cloud pf) ->
  exists pf', update_particles_with_laser pf r thetas = Ok pf'.
Proof.
  intros Hne Hpos. unfold update_particles_with_laser.
  apply normalize_particles_ok. cbn [particle_cloud with_cloud enter].
  assert (0 < total_weight
                (map (fun p => fold_left score_beam (combine r thetas) p)
                     (particle_cloud pf))); [|lra].
  apply positive_weights_sum.
  - destruct (particle_cloud pf); [contradiction|discriminate].
  - apply positive_weights_scored, Hpos.
Qed.

Lemma update_robot_pose_inv (pf pf' : ParticleFilter) :
  update_robot_pose pf = Ok pf' ->
  particle_cloud pf' =
    map (fun p => set_norm_w p (w p / total_weight (particle_cloud pf)))
        (particle_cloud pf) /\
  robot_pose pf' = Some (as_pose (mean_particle (particle_cloud pf))) /\
  call_log pf' = call_log pf ++ [StepRobotPose; StepNormalize] /\
  current_odom_xy_theta pf' = current_odom_xy_theta pf /\
  same_settings pf pf'.
Proof.
  unfold update_robot_pose.
  destruct (normalize_particles (enter pf StepRobotPose)) as [pf1|] eqn:Hn;
    [|discriminate].
  cbn [bind]. apply normalize_particles_inv in Hn.
  destruct Hn as (Hc & Hlog & _ & _ & Hcur & (S1 & S2 & S3 & S4 & S5 & S6)).
  cbn [particle_cloud enter call_log current_odom_xy_theta map_frame n_particles
       d_thresh a_thresh published odom_pose] in *.
  cbn [with_robot_pose odom_pose particle_cloud].
  assert (Hm : mean_particle (particle_cloud pf1) = mean_particle (particle_cloud pf)).
  { rewrite Hc. apply mean_particle_set_norm_w. }
  rewrite Hm.
  destruct (odom_pose pf1) eqn:Ho; intros H; injection H as <-; simpl;
    rewrite Hlog, <- app_assoc; repeat split; auto; simpl; congruence.
Qed.

(* ------------------------------------------------------------------ *)
(** ** round and the size of the elite *)

Lemma up_IZR (z : Z) : up (IZR z) = (z + 1)%Z.
Proof.
  symmetry. apply tech_up; rewrite plus_IZR; lra.
Qed.

Lemma py_round_IZR (z : Z) : py_round (IZR z) = z.
Proof.
  unfold py_round. rewrite up_IZR.
  replace (z + 1 - 1)%Z with z by lia.
  assert (H : Rltb (IZR z - IZR z) (1 / 2) = true) by (apply Rltb_true; lra).
  rewrite H. reflexivity.
Qed.

Lemma worst_keeper_index_300 : worst_keeper_index 300 = 225%Z.
Proof.
  unfold worst_keeper_index, amount_to_keep.
  replace (INR 300 * (1 - 0.25)) with (IZR 225).
  - apply py_round_IZR.
  - rewrite INR_IZR_INZ. change (Z.of_nat 300) with 300%Z. lra.
Qed.

Lemma elite_count_300 : elite_count 300 300 = 74%nat.
Proof. unfold elite_count. rewrite worst_keeper_index_300. reflexivity. Qed.

Lemma elite_count_nonempty (n len : nat) :
  (0 < elite_count n len)%nat -> (0 < len)%nat.
Proof.
  unfold elite_count. intros H.
  pose proof (slice_bound_le (Z.of_nat len) (Z.of_nat n - 1)). lia.
Qed.

(* ------------------------------------------------------------------ *)
(** ** The full update and the cycle that runs it *)

Lemma full_update_inv (pf pf' : ParticleFilter) (r : list reading) (thetas : list R) :
  full_update pf r thetas = Ok pf' ->
  exists pf_odom pf_laser,
    update_particles_with_odom pf = Ok pf_odom /\
    update_particles_with_laser pf_odom r thetas = Ok pf_laser /\
    robot_pose pf' = Some (as_pose (mean_particle (particle_cloud pf_laser))) /\
    call_log pf' =
      call_log pf ++ [StepOdom; StepLaser; StepNormalize; StepRobotPose;
                      StepNormalize; StepResample; StepNormalize] /\
    length (particle_cloud pf') = n_particles pf /\
    Forall (fun p => w p = 1) (particle_cloud pf') /\
    current_odom_xy_theta pf' =
      option_map convert_pose_to_xy_and_theta (odom_pose pf) /\
    same_settings pf pf'.
Proof.
  unfold full_update.
  destruct (update_particles_with_odom pf) as [pf1|] eqn:H1; [|discriminate].
  cbn [bind].
  destruct (update_particles_with_laser pf1 r thetas) as [pf2|] eqn:H2; [|discriminate].
  cbn [bind].
  destruct (update_robot_pose pf2) as [pf3|] eqn:H3; [|discriminate].
  cbn [bind]. intros H4.
  exists pf1, pf2. split; [reflexivity|]. split; [exact H2|].
  apply update_particles_with_odom_inv in H1.
  destruct H1 as (_ & L1 & _ & C1 & S1).
  apply update_particles_with_laser_inv in H2.
  destruct H2 as (_ & _ & L2 & _ & C2 & S2).
  apply update_robot_pose_inv in H3.
  destruct H3 as (_ & P3 & L3 & C3 & S3).
  apply resample_particles_inv in H4.
  destruct H4 as (N4 & W4 & L4 & P4 & C4 & S4).
  pose proof (same_settings_trans _ _ _ S1 S2) as S12.
  pose proof (same_settings_trans _ _ _ S12 S3) as S13.
  pose proof (same_settings_trans _ _ _ S13 S4) as S14.
  split; [congruence|]. split.
  { rewrite L4, L3, L2, L1. rewrite <- !app_assoc. reflexivity. }
  split; [destruct S13 as (_ & Hn & _); congruence|].
  split; [exact W4|]. split; [congruence|exact S14].
Qed.

Lemma full_update_split (pf : ParticleFilter) (r : list reading) (thetas : list R) :
  full_update pf r thetas =
    (pf_pose <- update_before_resample pf r thetas ;; resample_particles pf_pose).
Proof.
  unfold full_update, update_before_resample.
  destruct (update_particles_with_odom pf) as [pf1|]; [|reflexivity]. cbn [bind].
  destruct (update_particles_with_laser pf1 r thetas) as [pf2|]; reflexivity.
Qed.

(** The steps before the resampling complete on positive weights, and
    leave positive weights and as many particles. *)
Lemma update_before_resample_ok (pf : ParticleFilter) (r : list reading)
  (thetas : list R) (o : OdomPose) :
  odom_pose pf = Some o ->
  Forall (fun p => 0 < w p) (particle_cloud pf) ->
  particle_cloud pf <> [] ->
  exists pf_pose,
    update_before_resample pf r thetas = Ok pf_pose /\
    Forall (fun p => 0 < w p) (particle_cloud pf_pose) /\
    length (particle_cloud pf_pose) = length (particle_cloud pf) /\
    n_particles pf_pose = n_particles pf.
Proof.
  intros Ho Hpos Hne. unfold update_before_resample.
  destruct (update_particles_with_odom_ok pf o Ho) as (pf1 & H1). rewrite H1.
  cbn [bind].
  pose proof (update_particles_with_odom_inv _ _ H1) as (W1 & _ & _ & _ & S1).
  assert (Len1 : length (particle_cloud pf1) = length (particle_cloud pf)).
  { rewrite <- (length_map w (particle_cloud pf1)), W1. apply length_map. }
  assert (Pos1 : Forall (fun p => 0 < w p) (particle_cloud pf1)).
  { apply Forall_map with (f := w) (P := fun a => 0 < a). rewrite W1.
    apply Forall_map. exact Hpos. }
  assert (Hlen : (0 < length (particle_cloud pf))%nat).
  { destruct (particle_cloud pf); [contradiction|simpl; lia]. }
  assert (Ne1 : particle_cloud pf1 <> []).
  { intros E. rewrite E in Len1. simpl in Len1. lia. }
  destruct (update_particles_with_laser_ok pf1 r thetas Ne1 Pos1) as (pf2 & H2).
  rewrite H2. cbn [bind].
  pose proof (update_particles_with_laser_inv _ _ _ _ H2)
    as (Len2 & Pos2 & _ & _ & _ & S2).
  specialize (Pos2 Pos1).
  assert (Ne2 : particle_cloud pf2 <> []).
  { intros E. rewrite E in Len2. simpl in Len2. lia. }
  pose proof (positive_weights_sum _ Ne2 Pos2) as Tot2.
  destruct (update_robot_pose_ok pf2) as (pf3 & H3 & C3 & _); [lra|].
  rewrite H3. exists pf3. split; [reflexivity|].
  pose proof (update_robot_pose_inv _ _ H3) as (_ & _ & _ & _ & S3).
  split; [rewrite C3; apply positive_weights_normalized, Pos2|].
  split; [rewrite C3, length_map, Len2, Len1; reflexivity|].
  destruct S1 as (_ & N1 & _), S2 as (_ & N2 & _), S3 as (_ & N3 & _).
  congruence.
Qed.

Lemma full_update_ok (pf : ParticleFilter) (r : list reading) (thetas : list R)
  (o : OdomPose) :
  odom_pose pf = Some o ->
  Forall (fun p => 0 < w p) (particle_cloud pf) ->
  (0 < elite_count (n_particles pf) (length (particle_cloud pf)))%nat ->
  (forall pf_pose,
      update_before_resample pf r thetas = Ok pf_pose ->
      draws_find_survivor pf_pose) ->
  exists pf', full_update pf r thetas = Ok pf'.
Proof.
  intros Ho Hpos Helite Hu.
  assert (Hne : particle_cloud pf <> []).
  { apply elite_count_nonempty in Helite. intros E. rewrite E in Helite.
    simpl in Helite. lia. }
  destruct (update_before_resample_ok pf r thetas o Ho Hpos Hne)
    as (pf3 & H3 & Pos3 & Len3 & N3).
  rewrite full_update_split, H3. cbn [bind].
  apply resample_particles_ok.
  - rewrite Len3, N3. exact Helite.
  - exact Pos3.
  - apply Hu, H3.
Qed.

(** The full update raises nothing but the [IndexError] of a draw. *)
Lemma full_update_raise (pf : ParticleFilter) (r : list reading) (thetas : list R)
  (o : OdomPose) (e : PyError) :
  odom_pose pf = Some o ->
  Forall (fun p => 0 < w p) (particle_cloud pf) ->
  particle_cloud pf <> [] ->
  full_update pf r thetas = Raise e -> e = IndexError.
Proof.
  intros Ho Hpos Hne.
  destruct (update_before_resample_ok pf r thetas o Ho Hpos Hne)
    as (pf3 & H3 & Pos3 & Len3 & N3).
  rewrite full_update_split, H3. cbn [bind].
  apply resample_particles_raise, Pos3.
Qed.

Lemma run_loop_update_unfold
  (pf : ParticleFilter) (msg : LaserScan) (new_pose : OdomPose)
  (delta_t : option Z) (cx cy ct nx ny nt : R) :
  scan_to_process pf = Some msg ->
  current_odom_xy_theta pf = Some (cx, cy, ct) ->
  particle_cloud pf <> [] ->
  convert_pose_to_xy_and_theta new_pose = (nx, ny, nt) ->
  Rabs (nx - cx) > d_thresh pf \/
  Rabs (ny - cy) > d_thresh pf \/
  Rabs (nt - ct) > a_thresh pf ->
  run_loop pf (Some new_pose, delta_t)
  = (pf' <- full_update (with_odom_pose (with_scan pf None) (Some new_pose))
              (fst (convert_scan_to_polar_in_robot_frame msg))
              (snd (convert_scan_to_polar_in_robot_frame msg)) ;;
     Ok (publish_particles pf' (header_stamp msg))).
Proof.
  intros Hscan Hcur Hcloud Hconv Hmoved.
  unfold run_loop. rewrite Hscan.
  destruct (convert_scan_to_polar_in_robot_frame msg) as [r thetas].
  cbn [with_scan with_odom_pose current_odom_xy_theta particle_cloud fst snd].
  rewrite Hcur. destruct (particle_cloud pf) as [|p cloud] eqn:Hc; [contradiction|].
  destruct (moved_far_enough_spec
              (with_odom_pose (with_scan pf None) (Some new_pose))
              cx cy ct nx ny nt Hcur) as (b & Hb & Hiff).
  rewrite Hconv, Hb. cbn [bind].
  assert (b = true) as -> by (apply Hiff; exact Hmoved).
  reflexivity.
Qed.

Lemma run_loop_update_ok
  (pf : ParticleFilter) (msg : LaserScan) (new_pose : OdomPose)
  (delta_t : option Z) (cx cy ct nx ny nt : R) :
  scan_to_process pf = Some msg ->
  current_odom_xy_theta pf = Some (cx, cy, ct) ->
  convert_pose_to_xy_and_theta new_pose = (nx, ny, nt) ->
  Rabs (nx - cx) > d_thresh pf \/
  Rabs (ny - cy) > d_thresh pf \/
  Rabs (nt - ct) > a_thresh pf ->
  Forall (fun p => 0 < w p) (particle_cloud pf) ->
  (0 < elite_count (n_particles pf) (length (particle_cloud pf)))%nat ->
  (forall pf_pose,
      update_before_resample (with_odom_pose (with_scan pf None) (Some new_pose))
        (fst (convert_scan_to_polar_in_robot_frame msg))
        (snd (convert_scan_to_polar_in_robot_frame msg)) = Ok pf_pose ->
      draws_find_survivor pf_pose) ->
  exists pf', run_loop pf (Some new_pose, delta_t) = Ok pf'.
Proof.
  intros Hscan Hcur Hconv Hmoved Hpos Helite Hu.
  assert (Hne : particle_cloud pf <> []).
  { apply elite_count_nonempty in Helite. intros E. rewrite E in Helite.
    simpl in Helite. lia. }
  rewrite (run_loop_update_unfold pf msg new_pose delta_t cx cy ct nx ny nt)
    by assumption.
  destruct (full_update_ok
              (with_odom_pose (with_scan pf None) (Some new_pose))
              (fst (convert_scan_to_polar_in_robot_frame msg))
              (snd (convert_scan_to_polar_in_robot_frame msg))
              new_pose eq_refl Hpos Helite Hu) as (pf1 & H1).
  rewrite H1. eexists; reflexivity.
Qed.

Lemma run_loop_update_inv
  (pf pf' : ParticleFilter) (msg : LaserScan) (new_pose : OdomPose)
  (delta_t : option Z) (cx cy ct nx ny nt : R) :
  scan_to_process pf = Some msg ->
  current_odom_xy_theta pf = Some (cx, cy, ct) ->
  particle_cloud pf <> [] ->
  convert_pose_to_xy_and_theta new_pose = (nx, ny, nt) ->
  Rabs (nx - cx) > d_thresh pf \/
  Rabs (ny - cy) > d_thresh pf \/
  Rabs (nt - ct) > a_thresh pf ->
  run_loop pf (Some new_pose, delta_t) = Ok pf' ->
  call_log pf' =
    call_log pf ++ [StepOdom; StepLaser; StepNormalize; StepRobotPose;
                    StepNormalize; StepResample; StepNormalize; StepPublish] /\
  (exists pf_odom pf_laser,
      update_particles_with_odom
        (with_odom_pose (with_scan pf None) (Some new_pose)) = Ok pf_odom /\
      update_particles_with_laser pf_odom
        (fst (convert_scan_to_polar_in_robot_frame msg))
        (snd (convert_scan_to_polar_in_robot_frame msg)) = Ok pf_laser /\
      robot_pose pf' = Some (as_pose (mean_particle (particle_cloud pf_laser)))) /\
  current_odom_xy_theta pf' = Some (nx, ny, nt) /\
  published pf' =
    published pf ++
    [mkParticleCloudMsg (map_frame pf) (header_stamp msg)
       (map (fun p => (as_pose p, w p)) (particle_cloud pf'))] /\
  length (particle_cloud pf') = n_particles pf /\
  Forall (fun p => w p = 1) (particle_cloud pf').
Proof.
  intros Hscan Hcur Hne Hconv Hmoved.
  rewrite (run_loop_update_unfold pf msg new_pose delta_t cx cy ct nx ny nt)
    by assumption.
  destruct (full_update _ _ _) as [pf1|] eqn:Hfull; [|discriminate].
  cbn [bind]. intros H. injection H as <-.
  apply full_update_inv in Hfull.
  destruct Hfull as (pf_odom & pf_laser & Ho & Hl & Hrp & Hlog & Hlen & Hw & Hcur'
                     & (Hframe & _ & _ & _ & Hpub & _)).
  cbn [call_log odom_pose with_odom_pose with_scan option_map n_particles
       published map_frame] in Hlog, Hcur', Hlen, Hpub, Hframe.
  split; [simpl; rewrite Hlog, <- app_assoc; reflexivity|].
  split; [exists pf_odom, pf_laser; repeat split; assumption|].
  split; [simpl; rewrite Hcur', Hconv; reflexivity|].
  split; [simpl; rewrite Hpub, Hframe; reflexivity|].
  split; [exact Hlen|exact Hw].
Qed.

(** C1 (as amended): in the tracking state, when the displacement since
    the baseline exceeds a threshold, a cycle that completes has entered,
    in this order: the motion model, the sensor model (which ends by
    normalizing), the pose estimate (which starts by normalizing), the
    resampling (which normalizes its survivors), and the publication.
    The pose estimate runs before the resampling: [robot_pose] is the
    mean of the cloud as the sensor model left it.  The baseline becomes
    the new odometry.  The cycle completes when every raw weight is
    positive, the elitism stage leaves a survivor and every uniform draw
    of the resampling is below the last cumulative probability. *)
Theorem run_loop_update_step_order
  (pf : ParticleFilter) (msg : LaserScan) (new_pose : OdomPose)
  (delta_t : option Z) (cx cy ct nx ny nt : R) :
  scan_to_process pf = Some msg ->
  current_odom_xy_theta pf = Some (cx, cy, ct) ->
  particle_cloud pf <> [] ->
  convert_pose_to_xy_and_theta new_pose = (nx, ny, nt) ->
  Rabs (nx - cx) > d_thresh pf \/
  Rabs (ny - cy) > d_thresh pf \/
  Rabs (nt - ct) > a_thresh pf ->
  (forall pf',
      run_loop pf (Some new_pose, delta_t) = Ok pf' ->
      call_log pf' =
        call_log pf ++ [StepOdom; StepLaser; StepNormalize; StepRobotPose;
                        StepNormalize; StepResample; StepNormalize; StepPublish] /\
      (exists pf_odom pf_laser,
          update_particles_with_odom
            (with_odom_pose (with_scan pf None) (Some new_pose)) = Ok pf_odom /\
          update_particles_with_laser pf_odom
            (fst (convert_scan_to_polar_in_robot_frame msg))
            (snd (convert_scan_to_polar_in_robot_frame msg)) = Ok pf_laser /\
          robot_pose pf' = Some (as_pose (mean_particle (particle_cloud pf_laser)))) /\
      current_odom_xy_theta pf' = Some (nx, ny, nt)) /\
  (Forall (fun p => 0 < w p) (particle_cloud pf) ->
   (0 < elite_count (n_particles pf) (length (particle_cloud pf)))%nat ->
   (forall pf_pose,
       update_before_resample (with_odom_pose (with_scan pf None) (Some new_pose))
         (fst (convert_scan_to_polar_in_robot_frame msg))
         (snd (convert_scan_to_polar_in_robot_frame msg)) = Ok pf_pose ->
       draws_find_survivor pf_pose) ->
   exists pf', run_loop pf (Some new_pose, delta_t) = Ok pf').
Proof.
  intros Hscan Hcur Hne Hconv Hmoved. split.
  - intros pf' Hrun.
    destruct (run_loop_update_inv pf pf' msg new_pose delta_t cx cy ct nx ny nt
                Hscan Hcur Hne Hconv Hmoved Hrun) as (Hlog & Hpose & Hbase & _).
    repeat split; assumption.
  - intros Hpos Helite Hu.
    apply (run_loop_update_ok pf msg new_pose delta_t cx cy ct nx ny nt);
      assumption.
Qed.

(* ------------------------------------------------------------------ *)
(** ** The elitism stage on strictly increasing weights *)

Lemma ramp_cloud_weight (n i : nat) :
  (i < n)%nat -> nth i (map w (ramp_cloud n)) 0 = INR (S i).
Proof.
  intros Hi. unfold ramp_cloud. rewrite map_map.
  rewrite (nth_map_in_range _ _ _ _ _ 0%nat) by (rewrite length_seq; exact Hi).
  rewrite seq_nth by exact Hi. reflexivity.
Qed.

Lemma argsort_ramp_cloud (n : nat) :
  argsort (map w (ramp_cloud n)) = seq 0 n.
Proof.
  assert (Hlen : length (map w (ramp_cloud n)) = n).
  { unfold ramp_cloud. rewrite !length_map. apply length_seq. }
  rewrite argsort_ascending; rewrite Hlen; [reflexivity|].
  intros j i Hji. rewrite !ramp_cloud_weight by lia.
  apply le_INR. lia.
Qed.

Lemma map_result_py_index_tabulate (A : Type) (f : nat -> A) (n : nat) (idxs : list nat) :
  Forall (fun i => (i < n)%nat) idxs ->
  map_result (py_index (map f (seq 0 n))) idxs = Ok (map f idxs).
Proof.
  induction 1 as [|i idxs Hi _ IH]; simpl; [reflexivity|].
  unfold py_index at 1. rewrite nth_error_map, nth_error_seq.
  apply Nat.ltb_lt in Hi. rewrite Hi. simpl. rewrite IH. reflexivity.
Qed.

Lemma best_particles_ramp_300 :
  best_particles 300 (ramp_cloud 300) = Ok (map ramp_particle (seq 225 74)).
Proof.
  unfold best_particles, best_particle_indexes.
  rewrite argsort_ramp_cloud, worst_keeper_index_300.
  replace (py_slice (seq 0 300) 225 (Z.of_nat 300 - 1)) with (seq 225 74)
    by (vm_compute; reflexivity).
  unfold ramp_cloud. apply map_result_py_index_tabulate.
  apply Forall_forall. intros i Hi. apply in_seq in Hi. lia.
Qed.

Lemma ramp_particle_inj (i j : nat) : ramp_particle i = ramp_particle j -> i = j.
Proof.
  intros H. apply (f_equal w) in H.
  unfold ramp_particle, Particle_init in H. cbn [w] in H.
  apply INR_eq in H. lia.
Qed.

(** C2: with [n_particles] = 300 and a cloud of 300 particles of raw
    weights 1.0, 2.0, ..., 300.0, the elitism stage keeps the 74
    particles of weights 226.0 to 299.0.  It does not keep
    round(300 * 0.25) = 75 particles, and the particle of weight 300.0,
    the single highest, is not among those kept. *)
Theorem elitism_misses_highest_weight :
  best_particles 300 (ramp_cloud 300) = Ok (map ramp_particle (seq 225 74)) /\
  length (map ramp_particle (seq 225 74)) = 74%nat /\
  py_round (INR 300 * amount_to_keep) = 75%Z /\
  In (ramp_particle 299) (ramp_cloud 300) /\
  (forall p, In p (ramp_cloud 300) -> w p <= w (ramp_particle 299)) /\
  ~ In (ramp_particle 299) (map ramp_particle (seq 225 74)).
Proof.
  split; [exact best_particles_ramp_300|].
  split; [rewrite length_map; apply length_seq|].
  split.
  { unfold amount_to_keep.
    replace (INR 300 * 0.25) with (IZR 75).
    - apply py_round_IZR.
    - rewrite INR_IZR_INZ. change (Z.of_nat 300) with 300%Z. lra. }
  split.
  { unfold ramp_cloud. apply in_map, in_seq. lia. }
  split.
  { intros p Hp. unfold ramp_cloud in Hp. apply in_map_iff in Hp.
    destruct Hp as (i & <- & Hi). apply in_seq in Hi.
    unfold ramp_particle, Particle_init. cbn [w]. apply le_INR. lia. }
  intros Hin. apply in_map_iff in Hin. destruct Hin as (i & Heq & Hi).
  apply ramp_particle_inj in Heq. apply in_seq in Hi. lia.
Qed.

(* ------------------------------------------------------------------ *)
(** ** Particle moves *)

(** X1: [drive] moves a particle by exactly the distance asked, along
    its heading, and changes neither heading nor weights; two drives in
    a row add up, and so do two turns. *)
Theorem drive_turn_geometry (p : Particle) (d d' a a' : R) :
  (x (drive p d) - x p) ^ 2 + (y (drive p d) - y p) ^ 2 = d ^ 2 /\
  theta (drive p d) = theta p /\
  w (drive p d) = w p /\
  norm_w (drive p d) = norm_w p /\
  drive (drive p d) d' = drive p (d + d') /\
  turn (turn p a) a' = turn p (a + a') /\
  x (turn p a) = x p /\ y (turn p a) = y p.
Proof.
  pose proof (sin2_cos2 (theta p)) as Hsc. unfold Rsqr in Hsc.
  split; [cbn [x y drive]; nra|].
  repeat split.
  - unfold drive. cbn [x y theta w norm_w]. f_equal; lra.
  - unfold turn. cbn [x y theta w norm_w]. f_equal; lra.
Qed.

(* ------------------------------------------------------------------ *)
(** ** Normalizing twice *)

Lemma total_weight_set_norm_w (f : Particle -> R) (cloud : list Particle) :
  total_weight (map (fun p => set_norm_w p (f p)) cloud) = total_weight cloud.
Proof. rewrite !total_weight_sum, map_w_set_norm_w. reflexivity. Qed.

Lemma normalize_cloud_idempotent (cloud cloud' : list Particle) :
  normalize_cloud cloud = Ok cloud' -> normalize_cloud cloud' = Ok cloud'.
Proof.
  intros H. pose proof (normalize_cloud_inv _ _ H) as Hc.
  destruct cloud as [|p cloud].
  - simpl in Hc. subst cloud'. reflexivity.
  - simpl in H. destruct (Reqb (total_weight (p :: cloud)) 0) eqn:Ht; [discriminate|].
    apply Reqb_false in Ht.
    assert (Htot : total_weight cloud' = total_weight (p :: cloud)).
    { rewrite Hc. apply total_weight_set_norm_w. }
    assert (Ht' : total_weight cloud' <> 0) by (rewrite Htot; exact Ht).
    rewrite (normalize_cloud_ok _ Ht'), Htot. f_equal.
    rewrite Hc, map_map. apply map_ext. intros q. reflexivity.
Qed.

(** X2: normalizing a cloud that has just been normalized succeeds and
    changes nothing in it: [norm_w] is recomputed from [w] alone. *)
Theorem normalize_particles_idempotent (pf pf1 : ParticleFilter) :
  normalize_particles pf = Ok pf1 ->
  exists pf2,
    normalize_particles pf1 = Ok pf2 /\
    particle_cloud pf2 = particle_cloud pf1.
Proof.
  unfold normalize_particles. cbn [enter particle_cloud].
  destruct (normalize_cloud (particle_cloud pf)) as [c|] eqn:Hc; [|discriminate].
  cbn [bind]. intros H. injection H as <-.
  cbn [particle_cloud with_cloud enter].
  rewrite (normalize_cloud_idempotent _ _ Hc). cbn [bind].
  eexists; split; reflexivity.
Qed.

(* ------------------------------------------------------------------ *)
(** ** Scans arriving and waiting *)

Lemma scan_received_frame (pf : ParticleFilter) (msg : LaserScan) :
  scan_to_process (scan_received pf msg)
  = Some (match scan_to_process pf with Some old => old | None => msg end) /\
  last_scan_timestamp (scan_received pf msg) = Some (header_stamp msg) /\
  particle_cloud (scan_received pf msg) = particle_cloud pf /\
  current_odom_xy_theta (scan_received pf msg) = current_odom_xy_theta pf /\
  published (scan_received pf msg) = published pf /\
  n_particles (scan_received pf msg) = n_particles pf.
Proof.
  unfold scan_received. cbn [scan_to_process with_last_stamp].
  destruct (scan_to_process pf) eqn:Hs; cbn; rewrite ?Hs; repeat split.
Qed.

Lemma last_cons_default (A : Type) (a d : A) (l : list A) :
  last (a :: l) d = last l a.
Proof.
  revert a d. induction l as [|b l IH]; intros a d; [reflexivity|].
  change (last (a :: b :: l) d) with (last (b :: l) d).
  rewrite (IH b d), (IH b a). reflexivity.
Qed.

(** X3: of a burst of scans arriving while none is pending, the first
    one stays pending and the later ones are dropped;
    [last_scan_timestamp] follows the latest arrival, and the cloud, the
    baseline and the published messages are untouched. *)
Theorem scan_burst_keeps_first
  (pf : ParticleFilter) (first : LaserScan) (later : list LaserScan) :
  scan_to_process pf = None ->
  scan_to_process (fold_left scan_received (first :: later) pf) = Some first /\
  last_scan_timestamp (fold_left scan_received (first :: later) pf)
  = Some (header_stamp (last later first)) /\
  particle_cloud (fold_left scan_received (first :: later) pf) = particle_cloud pf /\
  current_odom_xy_theta (fold_left scan_received (first :: later) pf)
  = current_odom_xy_theta pf /\
  published (fold_left scan_received (first :: later) pf) = published pf.
Proof.
  intros Hnone.
  assert (Hgen : forall ms pf0 m0,
             scan_to_process pf0 = Some m0 ->
             forall t0, last_scan_timestamp pf0 = Some (header_stamp t0) ->
             scan_to_process (fold_left scan_received ms pf0) = Some m0 /\
             last_scan_timestamp (fold_left scan_received ms pf0)
             = Some (header_stamp (last ms t0)) /\
             particle_cloud (fold_left scan_received ms pf0) = particle_cloud pf0 /\
             current_odom_xy_theta (fold_left scan_received ms pf0)
             = current_odom_xy_theta pf0 /\
             published (fold_left scan_received ms pf0) = published pf0).
  { induction ms as [|m ms IH]; intros pf0 m0 Hs t0 Ht.
    - simpl. repeat split; assumption.
    - destruct (scan_received_frame pf0 m) as (S1 & S2 & S3 & S4 & S5 & _).
      rewrite Hs in S1.
      destruct (IH (scan_received pf0 m) m0 S1 m S2) as (I1 & I2 & I3 & I4 & I5).
      cbn [fold_left]. split; [exact I1|]. split.
      + rewrite I2, last_cons_default. reflexivity.
      + rewrite I3, I4, I5, S3, S4, S5. repeat split. }
  destruct (scan_received_frame pf first) as (S1 & S2 & S3 & S4 & S5 & _).
  rewrite Hnone in S1.
  destruct (Hgen later (scan_received pf first) first S1 first S2)
    as (I1 & I2 & I3 & I4 & I5).
  cbn [fold_left]. rewrite I1, I2, I3, I4, I5, S3, S4, S5. repeat split.
Qed.

Lemma run_loop_unmatched (pf : ParticleFilter) (delta_t : option Z) :
  run_loop pf (None, delta_t)
  = Ok (if too_old delta_t
        then match scan_to_process pf with
             | Some _ => with_scan pf None
             | None => pf
             end
        else pf).
Proof.
  unfold run_loop, too_old. destruct (scan_to_process pf); [|destruct delta_t as [d|]].
  - destruct delta_t as [d|]; [destruct (d <? 0)%Z|]; reflexivity.
  - destruct (d <? 0)%Z; reflexivity.
  - reflexivity.
Qed.

Lemma run_loop_idle (pf : ParticleFilter) (matching : option OdomPose * option Z) :
  scan_to_process pf = None -> run_loop pf matching = Ok pf.
Proof. intros Hs. unfold run_loop. rewrite Hs. reflexivity. Qed.

(** X4: while the transform helper has no pose for the pending scan and
    does not report it too old, any number of passes of the loop leave
    the filter exactly as it was: the scan waits, nothing is published.
    Once a pass reports the scan too old, the scan is dropped, and no
    later pass, whatever the helper answers, does anything more. *)
Theorem loop_passes_wait_or_drop
  (pf : ParticleFilter) (waits : list (option Z)) (d : option Z)
  (answers : list (option OdomPose * option Z)) :
  Forall (fun dt => too_old dt = false) waits ->
  too_old d = true ->
  calls pf (map (fun dt => LoopPass (None, dt)) waits) = Ok pf /\
  calls pf (map (fun dt => LoopPass (None, dt)) waits
            ++ LoopPass (None, d) :: map LoopPass answers)
  = Ok (match scan_to_process pf with
        | Some _ => with_scan pf None
        | None => pf
        end).
Proof.
  intros Hwaits Hold.
  assert (Hidle : forall pf0, scan_to_process pf0 = None ->
                              calls pf0 (map LoopPass answers) = Ok pf0).
  { induction answers as [|a answers IH]; intros pf0 Hs; [reflexivity|].
    cbn [map calls call]. rewrite (run_loop_idle pf0 a Hs). cbn [bind].
    apply IH, Hs. }
  induction Hwaits as [|dt waits Hdt _ [IH1 IH2]].
  - split; [reflexivity|].
    cbn [map app calls call]. rewrite run_loop_unmatched, Hold. cbn [bind].
    destruct (scan_to_process pf) eqn:Hs; apply Hidle; [reflexivity|exact Hs].
  - cbn [map app calls call]. rewrite run_loop_unmatched, Hdt. cbn [bind].
    split; assumption.
Qed.

(* ------------------------------------------------------------------ *)
(** ** The pose estimate and the scale of the raw weights *)

Lemma Rltb_pos_scale (k a : R) : 0 < k -> Rltb 0 (k * a) = Rltb 0 a.
Proof.
  intros Hk. unfold Rltb.
  destruct (Rlt_dec 0 (k * a)), (Rlt_dec 0 a); try reflexivity; exfalso; nra.
Qed.

Lemma Rltb_neg_scale (k a : R) : 0 < k -> Rltb (k * a) 0 = Rltb a 0.
Proof.
  intros Hk. unfold Rltb.
  destruct (Rlt_dec (k * a) 0), (Rlt_dec a 0); try reflexivity; exfalso; nra.
Qed.

Lemma Rleb_pos_scale (k a : R) : 0 < k -> Rleb 0 (k * a) = Rleb 0 a.
Proof.
  intros Hk. unfold Rleb.
  destruct (Rle_dec 0 (k * a)), (Rle_dec 0 a); try reflexivity; exfalso; nra.
Qed.

Lemma arctan2_scale (k s c : R) : 0 < k -> arctan2 (k * s) (k * c) = arctan2 s c.
Proof.
  intros Hk. unfold arctan2.
  rewrite !Rltb_pos_scale, !Rltb_neg_scale, Rleb_pos_scale by exact Hk.
  destruct (Rltb 0 c) eqn:Hpos.
  - apply Rltb_true in Hpos. f_equal. field. lra.
  - destruct (Rltb c 0) eqn:Hneg; [|reflexivity].
    apply Rltb_true in Hneg.
    replace (k * s / (k * c)) with (s / c) by (field; lra). reflexivity.
Qed.

Lemma Rsum_scale (A : Type) (f : A -> R) (k : R) (l : list A) :
  Rsum (map (fun a => k * f a) l) = k * Rsum (map f l).
Proof. induction l as [|a l IH]; simpl; [|rewrite IH]; lra. Qed.

Lemma x_mean_particle (cloud : list Particle) :
  x (mean_particle cloud) = Rsum (map (fun p => x p * w p) cloud).
Proof. unfold mean_particle. rewrite pose_sums_eq. reflexivity. Qed.

Lemma y_mean_particle (cloud : list Particle) :
  y (mean_particle cloud) = Rsum (map (fun p => y p * w p) cloud).
Proof. unfold mean_particle. rewrite pose_sums_eq. reflexivity. Qed.

(** X5: the position of the pose estimate is a sum weighted by the raw
    weights, not divided by their total: multiplying every raw weight by
    [k > 0] multiplies the estimated x and y by [k].  The estimated
    heading does not change. *)
Theorem pose_estimate_under_weight_scale (cloud : list Particle) (k : R) :
  0 < k ->
  x (mean_particle (map (fun p => set_w p (k * w p)) cloud))
  = k * x (mean_particle cloud) /\
  y (mean_particle (map (fun p => set_w p (k * w p)) cloud))
  = k * y (mean_particle cloud) /\
  theta (mean_particle (map (fun p => set_w p (k * w p)) cloud))
  = theta (mean_particle cloud).
Proof.
  intros Hk.
  rewrite !x_mean_particle, !y_mean_particle, !theta_mean_particle, !map_map.
  cbn [x y theta w set_w].
  rewrite <- (Rsum_scale _ (fun p => x p * w p)),
          <- (Rsum_scale _ (fun p => y p * w p)).
  split; [|split].
  - f_equal. apply map_ext. intros p. ring.
  - f_equal. apply map_ext. intros p. ring.
  - rewrite <- (arctan2_scale k (Rsum (map (fun p => sin (theta p) * w p) cloud))
                  (Rsum (map (fun p => cos (theta p) * w p) cloud)) Hk).
    rewrite <- (Rsum_scale _ (fun p => sin (theta p) * w p)),
            <- (Rsum_scale _ (fun p => cos (theta p) * w p)).
    f_equal; f_equal; apply map_ext; intros p; ring.
Qed.

(** X6: for a cloud whose particles all sit at [(x0, y0)], the estimated
    position is [(x0, y0)] multiplied by the total raw weight; it is
    [(x0, y0)] itself only when the raw weights sum to 1. *)
Theorem pose_estimate_of_coincident_cloud (cloud : list Particle) (x0 y0 : R) :
  Forall (fun p => x p = x0 /\ y p = y0) cloud ->
  x (mean_particle cloud) = x0 * total_weight cloud /\
  y (mean_particle cloud) = y0 * total_weight cloud.
Proof.
  intros Hall. rewrite x_mean_particle, y_mean_particle, total_weight_sum.
  induction Hall as [|p cloud [Hx Hy] _ [IHx IHy]]; simpl.
  - split; ring.
  - rewrite IHx, IHy, Hx, Hy. split; ring.
Qed.

(* ------------------------------------------------------------------ *)
(** ** The sensor model as a vote count *)

Lemma score_beam_effect (p : Particle) (beam : reading * R) :
  x (score_beam p beam) = x p /\
  y (score_beam p beam) = y p /\
  theta (score_beam p beam) = theta p /\
  (w (score_beam p beam) = w p \/ w (score_beam p beam) = w p + 1).
Proof.
  unfold score_beam. destruct beam as [[r_i|] theta_i]; [|repeat split; left; reflexivity].
  destruct (get_closest_obstacle_distance _ _) as [d|];
    [|repeat split; left; reflexivity].
  destruct (Rltb d 0.15); repeat split; [right|left]; reflexivity.
Qed.

Lemma fold_score_beam_effect (beams : list (reading * R)) (p : Particle) :
  x (fold_left score_beam beams p) = x p /\
  y (fold_left score_beam beams p) = y p /\
  theta (fold_left score_beam beams p) = theta p /\
  exists k, (k <= length beams)%nat /\
            w (fold_left score_beam beams p) = w p + INR k.
Proof.
  revert p. induction beams as [|b beams IH]; intros p.
  - simpl. repeat split. exists 0%nat. split; [lia|simpl; lra].
  - cbn [fold_left].
    destruct (score_beam_effect p b) as (Hx & Hy & Ht & Hw).
    destruct (IH (score_beam p b)) as (Ix & Iy & It & k & Hk & Iw).
    rewrite Ix, Iy, It, Hx, Hy, Ht. repeat split.
    destruct Hw as [Hw|Hw]; rewrite Hw in Iw.
    + exists k. split; [simpl; lia|exact Iw].
    + exists (S k). split; [simpl; lia|]. rewrite Iw, S_INR. lra.
Qed.

(** X7: a sensor update that completes leaves every particle where it
    was and adds to its raw weight a whole number of votes, at least 0
    and at most the number of [(range, bearing)] pairs of the scan. *)
Theorem update_particles_with_laser_votes
  (pf pf' : ParticleFilter) (r : list reading) (thetas : list R) :
  update_particles_with_laser pf r thetas = Ok pf' ->
  Forall2 (fun p p' =>
             x p' = x p /\ y p' = y p /\ theta p' = theta p /\
             exists k, (k <= Nat.min (length r) (length thetas))%nat /\
                       w p' = w p + INR k)
          (particle_cloud pf) (particle_cloud pf').
Proof.
  unfold update_particles_with_laser. intros H.
  apply normalize_particles_inv in H. destruct H as (Hc & _).
  cbn [particle_cloud with_cloud enter] in Hc. rewrite Hc. clear Hc.
  generalize (total_weight
                (map (fun p => fold_left score_beam (combine r thetas) p)
                     (particle_cloud pf))).
  intros t. induction (particle_cloud pf) as [|p cloud IH]; simpl; constructor.
  - destruct (fold_score_beam_effect (combine r thetas) p) as (Hx & Hy & Ht & k & Hk & Hw).
    rewrite length_combine in Hk. cbn [x y theta w set_norm_w].
    repeat split; try assumption. exists k. split; assumption.
  - exact IH.
Qed.

Lemma score_beam_same_heading (p q : Particle) (beam : reading * R) :
  theta p = theta q ->
  w (score_beam p beam) - w p = w (score_beam q beam) - w q.
Proof.
  intros Ht. unfold score_beam. destruct beam as [[r_i|] theta_i]; [|lra].
  rewrite Ht. destruct (get_closest_obstacle_distance _ _) as [d|]; [|lra].
  destruct (Rltb d 0.15); simpl; lra.
Qed.

(** X8: the votes a particle receives for a scan depend on its heading
    only: two particles of the same heading gain the same weight,
    wherever they are. *)
Theorem laser_votes_ignore_position
  (beams : list (reading * R)) (p q : Particle) :
  theta p = theta q ->
  w (fold_left score_beam beams p) - w p = w (fold_left score_beam beams q) - w q.
Proof.
  revert p q. induction beams as [|b beams IH]; intros p q Ht; simpl; [lra|].
  pose proof (score_beam_same_heading p q b Ht) as Hstep.
  assert (Ht' : theta (score_beam p b) = theta (score_beam q b)).
  { destruct (score_beam_effect p b) as (_ & _ & -> & _).
    destruct (score_beam_effect q b) as (_ & _ & -> & _). exact Ht. }
  pose proof (IH _ _ Ht'). lra.
Qed.

Lemma score_beam_no_hit (p : Particle) (beam : reading * R) :
  (forall px py d, get_closest_obstacle_distance px py = Some d -> 0.15 <= d) ->
  score_beam p beam = p.
Proof.
  intros Hfar. unfold score_beam. destruct beam as [[r_i|] theta_i]; [|reflexivity].
  destruct (get_closest_obstacle_distance _ _) as [d|] eqn:Hd; [|reflexivity].
  apply Hfar in Hd. apply Rltb_false in Hd. rewrite Hd. reflexivity.
Qed.

Lemma score_beam_infinite (p : Particle) (theta_i : R) :
  score_beam p (Infinite, theta_i) = p.
Proof. reflexivity. Qed.

Lemma fold_score_beam_no_hit (beams : list (reading * R)) (p : Particle) :
  (forall px py d, get_closest_obstacle_distance px py = Some d -> 0.15 <= d) ->
  fold_left score_beam beams p = p.
Proof.
  intros Hfar. induction beams as [|b beams IH]; simpl; [reflexivity|].
  rewrite score_beam_no_hit by exact Hfar. exact IH.
Qed.

Lemma fold_score_beam_all_infinite (r : list reading) (thetas : list R) (p : Particle) :
  Forall (fun reading_i => reading_i = Infinite) r ->
  fold_left score_beam (combine r thetas) p = p.
Proof.
  intros Hinf. revert thetas. induction Hinf as [|rd r Hrd _ IH]; intros thetas.
  - reflexivity.
  - destruct thetas as [|t thetas]; [reflexivity|].
    subst rd. cbn [combine fold_left]. rewrite score_beam_infinite. apply IH.
Qed.

(** X9: when no obstacle of the map is closer than 0.15 m to any point
    (or the map knows none), or when every reading of the scan is
    infinite, a sensor update that completes changes no pose and no raw
    weight: it only renormalizes. *)
Theorem update_particles_with_laser_no_hit
  (pf pf' : ParticleFilter) (r : list reading) (thetas : list R) :
  (forall px py d, get_closest_obstacle_distance px py = Some d -> 0.15 <= d) \/
  Forall (fun reading_i => reading_i = Infinite) r ->
  update_particles_with_laser pf r thetas = Ok pf' ->
  particle_cloud pf' =
    map (fun p => set_norm_w p (w p / total_weight (particle_cloud pf)))
        (particle_cloud pf).
Proof.
  intros Hquiet H. unfold update_particles_with_laser in H.
  apply normalize_particles_inv in H. destruct H as (Hc & _).
  cbn [particle_cloud with_cloud enter] in Hc. rewrite Hc.
  assert (Hid : forall p, fold_left score_beam (combine r thetas) p = p).
  { intros p. destruct Hquiet as [Hfar|Hinf].
    - apply fold_score_beam_no_hit, Hfar.
    - apply fold_score_beam_all_infinite, Hinf. }
  rewrite (map_ext _ (fun p => p) Hid), map_id. reflexivity.
Qed.

(* ------------------------------------------------------------------ *)
(** ** The motion model without noise *)

Lemma move_particles_no_noise (theta1 dist theta2 : R) (k : nat) (cloud : list Particle) :
  (forall i, randn i = 0) ->
  Forall2 (fun p p' =>
             theta p' = theta p + theta1 + theta2 /\
             x p' = x p + dist * cos (theta p + theta1) /\
             y p' = y p + dist * sin (theta p + theta1) /\
             w p' = w p /\ norm_w p' = norm_w p)
          cloud (move_particles theta1 dist theta2 k cloud).
Proof.
  intros Hn. revert k. induction cloud as [|p cloud IH]; intros k; simpl.
  - constructor.
  - constructor; [|apply IH].
    rewrite !Hn. cbn [x y theta w norm_w turn drive].
    replace (theta p + (theta1 + 0 * 0.01)) with (theta p + theta1) by lra.
    repeat split; lra.
Qed.

(** X10: without noise, the motion update turns every particle by
    exactly the change of the odometry heading, [new - old] taken as a
    plain difference, and moves it by exactly the distance the odometry
    travelled, whatever the particle's own pose; weights are untouched,
    the baseline becomes the new odometry and three draws are consumed
    per particle. *)
Theorem motion_update_without_noise
  (pf : ParticleFilter) (o : OdomPose) (ox oy otheta nx ny ntheta : R) :
  current_odom_xy_theta pf = Some (ox, oy, otheta) ->
  odom_pose pf = Some o ->
  convert_pose_to_xy_and_theta o = (nx, ny, ntheta) ->
  (forall i, randn i = 0) ->
  exists pf',
    update_particles_with_odom pf = Ok pf' /\
    current_odom_xy_theta pf' = Some (nx, ny, ntheta) /\
    rng_calls pf' = (rng_calls pf + 3 * length (particle_cloud pf))%nat /\
    Forall2 (fun p p' =>
               theta p' = theta p + (ntheta - otheta) /\
               (x p' - x p) ^ 2 + (y p' - y p) ^ 2
               = (nx - ox) ^ 2 + (ny - oy) ^ 2 /\
               w p' = w p /\ norm_w p' = norm_w p)
            (particle_cloud pf) (particle_cloud pf').
Proof.
  intros Hcur Ho Hconv Hn. unfold update_particles_with_odom.
  cbn [enter odom_pose current_odom_xy_theta particle_cloud rng_calls with_current_odom].
  rewrite Ho, Hconv, Hcur.
  cbn [enter odom_pose current_odom_xy_theta particle_cloud rng_calls with_current_odom].
  eexists; split; [reflexivity|].
  cbn [current_odom_xy_theta particle_cloud rng_calls with_rng_calls with_cloud
       with_current_odom].
  split; [reflexivity|]. split; [reflexivity|].
  set (heading := arctan2 (ny - oy) (nx - ox)).
  set (dist := sqrt ((nx - ox) ^ 2 + (ny - oy) ^ 2)).
  assert (Hdist : dist * dist = (nx - ox) ^ 2 + (ny - oy) ^ 2).
  { unfold dist. apply sqrt_sqrt.
    pose proof (pow2_ge_0 (nx - ox)). pose proof (pow2_ge_0 (ny - oy)). lra. }
  eapply Forall2_impl;
    [|apply (move_particles_no_noise (heading - otheta) dist (ntheta - heading)), Hn].
  intros p p' (Ht & Hx & Hy & Hw & Hnw).
  split; [rewrite Ht; lra|]. split; [|split; assumption].
  rewrite Hx, Hy.
  pose proof (sin2_cos2 (theta p + (heading - otheta))) as Hsc. unfold Rsqr in Hsc.
  nra.
Qed.

(* ------------------------------------------------------------------ *)
(** ** What the elitism stage keeps *)

Lemma map_result_py_index_nth (A : Type) (l : list A) (idxs : list nat) (d : A) :
  Forall (fun i => (i < length l)%nat) idxs ->
  map_result (py_index l) idxs = Ok (map (fun i => nth i l d) idxs).
Proof.
  induction 1 as [|i idxs Hi _ IH]; simpl; [reflexivity|].
  unfold py_index at 1. rewrite (nth_error_nth' l d Hi). cbn [bind].
  rewrite IH. reflexivity.
Qed.

Lemma best_particle_indexes_in_range (n : nat) (cloud : list Particle) :
  Forall (fun i => (i < length cloud)%nat) (best_particle_indexes n cloud).
Proof.
  apply Forall_forall. intros i Hi. unfold best_particle_indexes in Hi.
  apply py_slice_In, argsort_in_range in Hi. rewrite length_map in Hi. exact Hi.
Qed.

Lemma best_particles_eq (n : nat) (cloud : list Particle) (d : Particle) :
  best_particles n cloud
  = Ok (map (fun i => nth i cloud d) (best_particle_indexes n cloud)).
Proof.
  unfold best_particles. apply map_result_py_index_nth, best_particle_indexes_in_range.
Qed.

Lemma argsort_NoDup (ws : list R) : NoDup (argsort ws).
Proof.
  eapply Permutation_NoDup; [apply Permutation_sym, argsort_Permutation|].
  apply seq_NoDup.
Qed.

Lemma argsort_last_is_max (ws : list R) (i : nat) :
  (i < length ws)%nat ->
  nth i ws 0 <= nth (last (argsort ws) 0%nat) ws 0.
Proof.
  intros Hi.
  assert (Hin : In i (argsort ws)).
  { apply (Permutation_in _ (Permutation_sym (argsort_Permutation ws))).
    apply in_seq. lia. }
  pose proof (argsort_Sorted ws) as Hs.
  apply Sorted_StronglySorted in Hs; [|intros a b c Hab Hbc; lra].
  revert Hin. induction Hs as [|j rest Hrest IH Hall]; intros Hin; [contradiction|].
  destruct rest as [|j' rest'].
  - destruct Hin as [<-|[]]. simpl. lra.
  - change (last (j :: j' :: rest') 0%nat) with (last (j' :: rest') 0%nat).
    destruct Hin as [<-|Hin]; [|apply IH, Hin].
    rewrite Forall_forall in Hall. apply Hall.
    destruct (@exists_last _ (j' :: rest') ltac:(discriminate)) as (l0 & a0 & E).
    rewrite E, last_last. apply in_or_app. right. left. reflexivity.
Qed.

Lemma py_slice_excludes_last (A : Type) (l : list A) (start : Z) (d a : A) :
  NoDup l ->
  In a (py_slice l start (Z.of_nat (length l) - 1)) ->
  a <> last l d.
Proof.
  intros Hnd Hin Heq. destruct l as [|b l]; [exact Hin|].
  destruct (@exists_last _ (b :: l) ltac:(discriminate)) as (front & z & E).
  rewrite E in *. rewrite last_last in Heq. subst a.
  unfold py_slice in Hin. rewrite length_app in Hin. cbn [length] in Hin.
  set (a0 := slice_bound (Z.of_nat (length front + 1)) start) in *.
  assert (Hb : slice_bound (Z.of_nat (length front + 1))
                 (Z.of_nat (length front + 1) - 1) = length front).
  { unfold slice_bound.
    replace (Z.of_nat (length front + 1) - 1 <? 0)%Z with false
      by (symmetry; apply Z.ltb_ge; lia).
    lia. }
  rewrite Hb in Hin.
  rewrite firstn_skipn_comm in Hin.
  destruct (le_lt_dec a0 (length front)) as [Hle|Hgt].
  - replace (a0 + (length front - a0))%nat with (length front) in Hin by lia.
    rewrite firstn_app, firstn_all, Nat.sub_diag, firstn_0, app_nil_r in Hin.
    apply NoDup_remove_2 in Hnd. rewrite app_nil_r in Hnd. apply Hnd.
    rewrite <- (firstn_skipn a0 front). apply in_or_app. right. exact Hin.
  - rewrite skipn_all2 in Hin; [exact Hin|]. rewrite length_firstn. lia.
Qed.

(** X11: in a cloud of [n_particles] particles, a particle whose raw
    weight is strictly above every other one is never kept by the
    elitism stage: the slice stops one short of the end of the sorted
    indexes, so every particle kept weighs strictly less. *)
Theorem elitism_drops_unique_best
  (n : nat) (cloud : list Particle) (top : nat) (d : Particle) :
  length cloud = n ->
  (top < n)%nat ->
  (forall i, (i < n)%nat -> i <> top -> w (nth i cloud d) < w (nth top cloud d)) ->
  exists best,
    best_particles n cloud = Ok best /\
    Forall (fun p => w p < w (nth top cloud d)) best /\
    ~ In (nth top cloud d) best.
Proof.
  intros Hlen Htop Hmax.
  exists (map (fun i => nth i cloud d) (best_particle_indexes n cloud)).
  split; [apply best_particles_eq|].
  assert (Hw : forall i, (i < n)%nat -> nth i (map w cloud) 0 = w (nth i cloud d)).
  { intros i Hi. apply nth_map_in_range. lia. }
  assert (Hlenws : length (map w cloud) = n) by (rewrite length_map; exact Hlen).
  set (ranked_last := last (argsort (map w cloud)) 0%nat).
  assert (Hin : In ranked_last (argsort (map w cloud))).
  { destruct (argsort (map w cloud)) as [|a l] eqn:E.
    - apply (f_equal (@length nat)) in E. rewrite argsort_length, Hlenws in E.
      simpl in E. lia.
    - unfold ranked_last.
      destruct (@exists_last _ (a :: l) ltac:(discriminate)) as (l0 & z & ->).
      rewrite last_last. apply in_or_app. right. left. reflexivity. }
  assert (Hrange : (ranked_last < n)%nat).
  { apply argsort_in_range in Hin. lia. }
  assert (Hlast : ranked_last = top).
  { destruct (Nat.eq_dec ranked_last top) as [E|E]; [exact E|exfalso].
    pose proof (argsort_last_is_max (map w cloud) top ltac:(lia)) as Hle.
    fold ranked_last in Hle. rewrite !Hw in Hle by assumption.
    pose proof (Hmax ranked_last Hrange E). lra. }
  assert (Hall : Forall (fun p => w p < w (nth top cloud d))
                   (map (fun i => nth i cloud d) (best_particle_indexes n cloud))).
  { apply Forall_map, Forall_forall. intros i Hi.
    pose proof (proj1 (Forall_forall _ _) (best_particle_indexes_in_range n cloud) i Hi)
      as Hi_range.
    cbv beta in Hi_range. apply Hmax; [lia|].
    unfold best_particle_indexes in Hi.
    rewrite <- Hlenws, <- (argsort_length (map w cloud)) in Hi.
    rewrite <- Hlast. unfold ranked_last.
    apply (py_slice_excludes_last _ _ _ 0%nat i (argsort_NoDup _) Hi). }
  split; [exact Hall|].
  intros Hmem. rewrite Forall_forall in Hall. apply Hall in Hmem. lra.
Qed.

Lemma worst_keeper_index_4k (k : nat) :
  worst_keeper_index (4 * k) = Z.of_nat (3 * k).
Proof.
  unfold worst_keeper_index, amount_to_keep.
  replace (INR (4 * k) * (1 - 0.25)) with (IZR (Z.of_nat (3 * k))).
  - apply py_round_IZR.
  - rewrite <- INR_IZR_INZ, !mult_INR.
    replace (INR 4) with 4 by (simpl; lra). replace (INR 3) with 3 by (simpl; lra).
    lra.
Qed.

(** X12: for [n_particles] = 4 k with k at least 1, and a cloud of that
    many particles, the elitism stage keeps one particle fewer than
    round(n_particles * 0.25) = k: the number kept, plus 1, is k. *)
Theorem elitism_keeps_one_fewer (k : nat) (cloud : list Particle) :
  (0 < k)%nat ->
  length cloud = (4 * k)%nat ->
  exists best,
    best_particles (4 * k) cloud = Ok best /\
    S (length best) = k /\
    py_round (INR (4 * k) * amount_to_keep) = Z.of_nat k.
Proof.
  intros Hk Hlen.
  destruct (best_particles_ok (4 * k) cloud) as (best & Hbest & Hl & _).
  exists best. split; [exact Hbest|]. split.
  - rewrite Hl, best_particle_indexes_length, Hlen.
    unfold elite_count. rewrite worst_keeper_index_4k. unfold slice_bound.
    destruct (Z.of_nat (4 * k) - 1 <? 0)%Z eqn:E1;
      destruct (Z.of_nat (3 * k) <? 0)%Z eqn:E2;
      try apply Z.ltb_lt in E1; try apply Z.ltb_ge in E1;
      try apply Z.ltb_lt in E2; try apply Z.ltb_ge in E2; lia.
  - unfold amount_to_keep.
    replace (INR (4 * k) * 0.25) with (IZR (Z.of_nat k)).
    + apply py_round_IZR.
    + rewrite <- INR_IZR_INZ, mult_INR.
      replace (INR 4) with 4 by (simpl; lra). lra.
Qed.

(* ------------------------------------------------------------------ *)
(** ** Where the new generation comes from *)

Lemma draw_particle_source (survivors : list Particle) (cum : list R)
  (k : nat) (p : Particle) :
  draw_particle survivors cum k = Ok p ->
  exists s,
    In s survivors /\
    x p = x s + position_noise * randn (k + 1) /\
    y p = y s + position_noise * randn (k + 2) /\
    theta p = theta s + angle_noise * randn (k + 3) /\
    w p = 1 /\ norm_w p = 1.
Proof.
  unfold draw_particle, py_index.
  destruct (nth_error survivors _) as [s|] eqn:Hs; cbn [bind]; [|discriminate].
  intros H. injection H as <-. exists s.
  split; [eapply nth_error_In; eauto|]. repeat split.
Qed.

Lemma draw_particles_source (survivors : list Particle) (cum : list R)
  (k count : nat) (ps : list Particle) :
  draw_particles survivors cum k count = Ok ps ->
  Forall (fun p =>
            exists s j,
              In s survivors /\
              x p = x s + position_noise * randn (j + 1) /\
              y p = y s + position_noise * randn (j + 2) /\
              theta p = theta s + angle_noise * randn (j + 3) /\
              w p = 1 /\ norm_w p = 1) ps.
Proof.
  revert k ps. induction count as [|count IH]; intros k ps; simpl.
  - intros H. injection H as <-. constructor.
  - destruct (draw_particle survivors cum k) as [p|] eqn:Hp; simpl; [|discriminate].
    destruct (draw_particles survivors cum (k + 4) count) as [qs|] eqn:Hq;
      simpl; [|discriminate].
    intros H. injection H as <-. constructor; [|eapply IH; eauto].
    destruct (draw_particle_source _ _ _ _ Hp) as (s & Hs).
    exists s, k. exact Hs.
Qed.

(** X13: every particle of a new generation is a copy of some particle
    of the old cloud, moved by [position_noise] times a normal draw on
    x and on y and turned by [angle_noise] times a normal draw, with
    both weights set to 1.0: resampling never creates a particle away
    from the old ones other than by this jitter. *)
Theorem resample_particles_copies_old_cloud (pf pf' : ParticleFilter) :
  resample_particles pf = Ok pf' ->
  Forall (fun p =>
            exists s j,
              In s (particle_cloud pf) /\
              x p = x s + position_noise * randn (j + 1) /\
              y p = y s + position_noise * randn (j + 2) /\
              theta p = theta s + angle_noise * randn (j + 3) /\
              w p = 1 /\ norm_w p = 1)
         (particle_cloud pf').
Proof.
  unfold resample_particles. cbn [enter particle_cloud n_particles].
  destruct (best_particles_ok (n_particles pf) (particle_cloud pf))
    as (best & Hbest & _ & Hin).
  rewrite Hbest. cbn [bind].
  destruct (normalize_particles _) as [pf1|] eqn:Hn; [|discriminate].
  cbn [bind].
  destruct (draw_particles _ _ _ _) as [ps|] eqn:Hd; [|discriminate].
  cbn [bind]. intros H. injection H as <-. cbn [particle_cloud with_rng_calls with_cloud].
  apply normalize_particles_inv in Hn. destruct Hn as (Hc & _).
  cbn [particle_cloud with_cloud enter] in Hc.
  apply draw_particles_source in Hd.
  eapply Forall_impl; [|exact Hd].
  intros p (s & j & Hs & Hx & Hy & Ht & Hw). rewrite Hc in Hs.
  apply in_map_iff in Hs. destruct Hs as (s0 & <- & Hs0).
  exists s0, j. split; [|exact (conj Hx (conj Hy (conj Ht Hw)))].
  rewrite Forall_forall in Hin. apply Hin, Hs0.
Qed.

Lemma draw_particles_empty (k count : nat) :
  draw_particles [] [] k (S count) = Raise IndexError.
Proof.
  cbn [draw_particles]. unfold draw_particle. cbn [map].
  unfold searchsorted_true. rewrite binsearch_left_equation_1. reflexivity.
Qed.

(** X14: when the elitism slice is empty for the size of the cloud (with
    [n_particles] = 300: any cloud of at most 225 particles) and at least
    one particle is to be drawn, [resample_particles] raises
    [IndexError]. *)
Theorem resample_particles_without_survivor (pf : ParticleFilter) :
  elite_count (n_particles pf) (length (particle_cloud pf)) = 0%nat ->
  (0 < n_particles pf)%nat ->
  resample_particles pf = Raise IndexError.
Proof.
  intros Helite Hn. unfold resample_particles. cbn [enter particle_cloud n_particles].
  destruct (best_particles_ok (n_particles pf) (particle_cloud pf))
    as (best & Hbest & Hlen & _).
  rewrite best_particle_indexes_length, Helite in Hlen.
  destruct best; [|discriminate Hlen].
  rewrite Hbest. cbn [bind]. unfold normalize_particles.
  cbn [enter particle_cloud with_cloud normalize_cloud bind map cumsum rng_calls
       n_particles].
  destruct (n_particles pf) as [|n]; [lia|].
  rewrite draw_particles_empty. reflexivity.
Qed.

Lemma elite_count_300_small (len : nat) :
  (len <= 225)%nat -> elite_count 300 len = 0%nat.
Proof.
  intros Hlen. unfold elite_count. rewrite worst_keeper_index_300.
  unfold slice_bound.
  replace (Z.of_nat 300 - 1 <? 0)%Z with false by reflexivity.
  replace (225 <? 0)%Z with false by reflexivity. lia.
Qed.

(* ------------------------------------------------------------------ *)
(** ** Which survivor a draw selects *)

(** A rounding that keeps the order and leaves floats as they are, as
    the rounding of float addition does, gives a running sum that never
    decreases over entries that are not negative. *)
Lemma cumsum_from_lower (rnd : R -> R) (acc : R) (l : list R) (j : nat) :
  (forall a b, a <= b -> rnd a <= rnd b) ->
  (forall a, rnd (rnd a) = rnd a) ->
  rnd acc = acc ->
  Forall (fun a => 0 <= a) l ->
  (j < length l)%nat ->
  acc <= nth j (cumsum_from rnd acc l) 0.
Proof.
  intros Hmono Hidem Hacc Hpos. revert acc Hacc j.
  induction Hpos as [|a l Ha _ IH]; intros acc Hacc j Hj.
  - simpl in Hj. lia.
  - assert (Hstep : acc <= rnd (acc + a)).
    { rewrite <- Hacc at 1. apply Hmono. lra. }
    destruct j as [|j]; simpl; [exact Hstep|].
    simpl in Hj. pose proof (IH (rnd (acc + a)) (Hidem _) j ltac:(lia)). lra.
Qed.

Lemma cumsum_from_monotone (rnd : R -> R) (acc : R) (l : list R) (i j : nat) :
  (forall a b, a <= b -> rnd a <= rnd b) ->
  (forall a, rnd (rnd a) = rnd a) ->
  Forall (fun a => 0 <= a) l ->
  (i <= j < length l)%nat ->
  nth i (cumsum_from rnd acc l) 0 <= nth j (cumsum_from rnd acc l) 0.
Proof.
  intros Hmono Hidem Hpos. revert acc i j.
  induction Hpos as [|a l Ha Hl IH]; intros acc i j Hij.
  - simpl in Hij. lia.
  - simpl in Hij. destruct i as [|i], j as [|j]; simpl; try lia; try lra.
    + apply cumsum_from_lower; [exact Hmono|exact Hidem|apply Hidem|exact Hl|lia].
    + apply IH. lia.
Qed.

Lemma cumsum_monotone (rnd : R -> R) (l : list R) (i j : nat) :
  (forall a b, a <= b -> rnd a <= rnd b) ->
  (forall a, rnd (rnd a) = rnd a) ->
  Forall (fun a => 0 <= a) l ->
  Forall (fun a => rnd a = a) l ->
  (i <= j < length l)%nat ->
  nth i (cumsum rnd l) 0 <= nth j (cumsum rnd l) 0.
Proof.
  intros Hmono Hidem Hpos Hfl Hij.
  destruct l as [|a l]; [simpl in Hij; lia|].
  inversion Hpos as [|? ? Ha Hl]; subst. inversion Hfl as [|? ? Hfa _]; subst.
  simpl in Hij. destruct i as [|i], j as [|j]; simpl; try lia; try lra.
  - apply cumsum_from_lower; [exact Hmono|exact Hidem|exact Hfa|exact Hl|lia].
  - apply cumsum_from_monotone; [exact Hmono|exact Hidem|exact Hl|lia].
Qed.

Lemma binsearch_left_le (a : list bool) (lo hi : nat) :
  (lo <= hi)%nat -> (binsearch_left a lo hi <= hi)%nat.
Proof.
  funelim (binsearch_left a lo hi); intros Hle.
  - assert (Hdiv : ((hi - lo) / 2 < hi - lo)%nat) by (apply Nat.div_lt; lia).
    destruct (nth (lo + (hi - lo) / 2) a false).
    + specialize (H ltac:(lia)). lia.
    + apply H0. lia.
  - lia.
Qed.

(** X15: over an array of floats that are not negative, summed with a
    rounding that keeps the order and leaves floats as they are, the
    index the resampler selects for a uniform draw [u] is the first one
    whose cumulative probability exceeds [u]: every earlier cumulative
    probability is at most [u], and every one from the selected index on
    exceeds it. *)
Theorem selection_is_first_exceeding (probability : list R) (u : R) :
  (forall a b, a <= b -> fl a <= fl b) ->
  (forall a, fl (fl a) = fl a) ->
  Forall (fun a => 0 <= a) probability ->
  Forall (fun a => fl a = a) probability ->
  (forall i,
      (i < searchsorted_true (map (fun c => Rgtb c u) (cumsum fl probability)))%nat ->
      nth i (cumsum fl probability) 0 <= u) /\
  (forall i,
      (searchsorted_true (map (fun c => Rgtb c u) (cumsum fl probability)) <= i
       < length probability)%nat ->
      nth i (cumsum fl probability) 0 > u).
Proof.
  intros Hfmono Hidem Hpos Hfl.
  set (cum := cumsum fl probability).
  assert (Hlen : length cum = length probability) by apply cumsum_length.
  set (sel := map (fun c => Rgtb c u) cum).
  assert (Hsel : forall i, (i < length cum)%nat -> nth i sel false = Rgtb (nth i cum 0) u).
  { intros i Hi. unfold sel.
    exact (nth_map_in_range R bool (fun c => Rgtb c u) cum i 0 false Hi). }
  assert (Hsellen : length sel = length cum) by (unfold sel; apply length_map).
  assert (Hmono : forall i j, (i <= j < length sel)%nat ->
                              nth i sel false = true -> nth j sel false = true).
  { intros i j Hij. rewrite !Hsel by lia. rewrite !Rgtb_true. intros Hi.
    pose proof (cumsum_monotone fl probability i j Hfmono Hidem Hpos Hfl ltac:(lia)).
    fold cum in H. lra. }
  destruct (searchsorted_true_first_true sel Hmono) as [Hbefore Hafter].
  assert (Hbound : (searchsorted_true sel <= length sel)%nat).
  { unfold searchsorted_true. apply binsearch_left_le. lia. }
  split.
  - intros i Hi. specialize (Hbefore i Hi).
    rewrite Hsel in Hbefore by lia. apply Rgtb_false in Hbefore. exact Hbefore.
  - intros i Hi. specialize (Hafter i ltac:(lia)).
    rewrite Hsel in Hafter by lia. apply Rgtb_true in Hafter. exact Hafter.
Qed.

(* ------------------------------------------------------------------ *)
(** ** Initializing the cloud *)

Lemma normalize_cloud_total (cloud : list Particle) :
  cloud = [] \/ total_weight cloud <> 0 ->
  normalize_cloud cloud =
    Ok (map (fun p => set_norm_w p (w p / total_weight cloud)) cloud).
Proof.
  intros [->|Ht]; [reflexivity|]. apply normalize_cloud_ok, Ht.
Qed.

Lemma sample_particles_length (seed : R * R * R) (k count : nat) :
  length (sample_particles seed k count) = count.
Proof.
  revert k. induction count as [|count IH]; intros k; [reflexivity|].
  destruct seed as [[sx sy] st]. simpl. rewrite IH. reflexivity.
Qed.

Lemma sample_particles_weights (seed : R * R * R) (k count : nat) :
  Forall (fun p => w p = 1) (sample_particles seed k count).
Proof.
  revert k. induction count as [|count IH]; intros k; [constructor|].
  destruct seed as [[sx sy] st]. simpl. constructor; [reflexivity|apply IH].
Qed.

Lemma sample_particles_poses (sx sy st : R) (k count : nat) :
  map (fun p => (x p, y p, theta p)) (sample_particles (sx, sy, st) k count)
  = map (fun i => (sx + position_sigma * randn (k + 3 * i),
                   sy + position_sigma * randn (k + 3 * i + 1),
                   st + angle_sigma * randn (k + 3 * i + 2)))
        (seq 0 count).
Proof.
  revert k. induction count as [|count IH]; intros k; [reflexivity|].
  cbn [sample_particles map seq]. rewrite IH, <- seq_shift, map_map.
  f_equal.
  - unfold random_normal. cbn [x y theta Particle_new Particle_init].
    replace (k + 3 * 0)%nat with k by lia. reflexivity.
  - apply map_ext. intros i.
    replace (k + 3 + 3 * i)%nat with (k + 3 * S i)%nat by lia. reflexivity.
Qed.

Lemma sample_particles_total (seed : R * R * R) (k count : nat) :
  total_weight (sample_particles seed k count) = INR count.
Proof.
  rewrite total_weight_sum, (Rsum_const _ w 1) by apply sample_particles_weights.
  rewrite sample_particles_length. lra.
Qed.

Lemma normalize_twice_map (f : Particle -> R) (cloud : list Particle) :
  map (fun p => set_norm_w p
                  (w p / total_weight (map (fun q => set_norm_w q (f q)) cloud)))
      (map (fun q => set_norm_w q (f q)) cloud)
  = map (fun p => set_norm_w p (w p / total_weight cloud)) cloud.
Proof.
  rewrite total_weight_set_norm_w, map_map. apply map_ext. intros p. reflexivity.
Qed.

Lemma normalize_particles_scan (pf pf' : ParticleFilter) :
  normalize_particles pf = Ok pf' ->
  scan_to_process pf' = scan_to_process pf.
Proof.
  unfold normalize_particles.
  destruct (normalize_cloud _) as [c|]; cbn [bind]; [|discriminate].
  intros H. injection H as <-. reflexivity.
Qed.

Lemma update_robot_pose_scan_rng (pf pf' : ParticleFilter) :
  update_robot_pose pf = Ok pf' ->
  scan_to_process pf' = scan_to_process pf /\ rng_calls pf' = rng_calls pf.
Proof.
  unfold update_robot_pose, normalize_particles.
  destruct (normalize_cloud _) as [c|]; cbn [bind]; [|discriminate].
  cbn [odom_pose with_robot_pose with_cloud enter].
  destruct (odom_pose pf); intros H; injection H as <-; split; reflexivity.
Qed.

Lemma update_robot_pose_total (pf : ParticleFilter) :
  particle_cloud pf = [] \/ total_weight (particle_cloud pf) <> 0 ->
  exists pf', update_robot_pose pf = Ok pf'.
Proof.
  intros Hok. unfold update_robot_pose, normalize_particles.
  cbn [particle_cloud enter]. rewrite (normalize_cloud_total _ Hok).
  cbn [bind odom_pose with_robot_pose with_cloud enter].
  destruct (odom_pose pf); eexists; reflexivity.
Qed.

Lemma initialize_particle_cloud_ok
  (pf : ParticleFilter) (xy_theta : option (R * R * R)) (seed : R * R * R) :
  match xy_theta with
  | Some v => Some v
  | None => option_map convert_pose_to_xy_and_theta (odom_pose pf)
  end = Some seed ->
  exists pf',
    initialize_particle_cloud pf xy_theta = Ok pf' /\
    particle_cloud pf' =
      map (fun p => set_norm_w p (w p / INR (n_particles pf)))
          (sample_particles seed (rng_calls pf) (n_particles pf)) /\
    robot_pose pf' = Some (as_pose (mean_particle (particle_cloud pf'))) /\
    rng_calls pf' = (rng_calls pf + 3 * n_particles pf)%nat /\
    call_log pf' =
      call_log pf ++ [StepInitialize; StepNormalize; StepRobotPose; StepNormalize] /\
    n_particles pf' = n_particles pf /\
    current_odom_xy_theta pf' = current_odom_xy_theta pf /\
    scan_to_process pf' = scan_to_process pf /\
    odom_pose pf' = odom_pose pf /\
    map_frame pf' = map_frame pf /\
    published pf' = published pf.
Proof.
  intros Hseed. unfold initialize_particle_cloud.
  assert (Hs : match xy_theta with
               | Some v => Ok v
               | None => match odom_pose (enter pf StepInitialize) with
                         | Some o => Ok (convert_pose_to_xy_and_theta o)
                         | None => Raise AttributeError
                         end
               end = Ok seed).
  { cbn [odom_pose enter]. destruct xy_theta as [v|].
    - injection Hseed as ->. reflexivity.
    - destruct (odom_pose pf); [|discriminate]. injection Hseed as ->. reflexivity. }
  rewrite Hs. cbn [bind rng_calls n_particles enter]. clear Hs Hseed.
  pose proof (sample_particles_total seed (rng_calls pf) (n_particles pf)) as Htot.
  assert (Hok : sample_particles seed (rng_calls pf) (n_particles pf) = [] \/
                total_weight (sample_particles seed (rng_calls pf) (n_particles pf)) <> 0).
  { rewrite Htot. destruct (n_particles pf) as [|n].
    - left. reflexivity.
    - right. apply not_0_INR. discriminate. }
  destruct (normalize_particles
              (with_rng_calls
                 (with_cloud (enter pf StepInitialize)
                    (sample_particles seed (rng_calls pf) (n_particles pf)))
                 (rng_calls pf + 3 * n_particles pf))) as [pf1|] eqn:H1.
  2:{ exfalso. unfold normalize_particles in H1.
      cbn [particle_cloud with_rng_calls with_cloud enter] in H1.
      rewrite (normalize_cloud_total _ Hok) in H1. discriminate H1. }
  cbn [bind].
  pose proof (normalize_particles_scan _ _ H1) as Hscan1.
  apply normalize_particles_inv in H1.
  destruct H1 as (C1 & L1 & R1 & _ & B1 & (F1 & N1 & _ & _ & P1 & O1)).
  cbn [particle_cloud call_log rng_calls current_odom_xy_theta map_frame n_particles
       published odom_pose scan_to_process with_rng_calls with_cloud enter]
    in C1, L1, R1, B1, F1, N1, P1, O1, Hscan1.
  assert (Hok1 : particle_cloud pf1 = [] \/ total_weight (particle_cloud pf1) <> 0).
  { rewrite C1. destruct Hok as [E|Hne].
    - left. rewrite E. reflexivity.
    - right. rewrite total_weight_set_norm_w. exact Hne. }
  destruct (update_robot_pose_total pf1 Hok1) as (pf2 & H2).
  exists pf2. split; [exact H2|].
  pose proof (update_robot_pose_scan_rng _ _ H2) as [Hscan2 R2].
  apply update_robot_pose_inv in H2.
  destruct H2 as (C2 & RP2 & L2 & B2 & (F2 & N2 & _ & _ & P2 & O2)).
  assert (Hcloud : particle_cloud pf2 =
                   map (fun p => set_norm_w p (w p / INR (n_particles pf)))
                       (sample_particles seed (rng_calls pf) (n_particles pf))).
  { rewrite C2, C1, normalize_twice_map, Htot. reflexivity. }
  split; [exact Hcloud|].
  split.
  { rewrite RP2, C2, mean_particle_set_norm_w. reflexivity. }
  split; [congruence|].
  split; [rewrite L2, L1, <- !app_assoc; reflexivity|].
  repeat split; congruence.
Qed.

(** X16: seeded with a pose, or with the odometry pose when none is
    given, [initialize_particle_cloud] always completes.  It replaces the
    cloud by [n_particles] particles, the i-th one at the seed plus
    [position_sigma] (on x and y) or [angle_sigma] (on the heading) times
    its own three normal draws, each of raw weight 1.0 and normalized
    weight 1 / n_particles; it consumes 3 [n_particles] draws, sets
    [robot_pose] from the new cloud and leaves the baseline alone. *)
Theorem initialize_particle_cloud_samples
  (pf : ParticleFilter) (xy_theta : option (R * R * R)) (sx sy st : R) :
  match xy_theta with
  | Some v => Some v
  | None => option_map convert_pose_to_xy_and_theta (odom_pose pf)
  end = Some (sx, sy, st) ->
  exists pf',
    initialize_particle_cloud pf xy_theta = Ok pf' /\
    length (particle_cloud pf') = n_particles pf /\
    map (fun p => (x p, y p, theta p)) (particle_cloud pf')
    = map (fun i => (sx + position_sigma * randn (rng_calls pf + 3 * i),
                     sy + position_sigma * randn (rng_calls pf + 3 * i + 1),
                     st + angle_sigma * randn (rng_calls pf + 3 * i + 2)))
          (seq 0 (n_particles pf)) /\
    Forall (fun p => w p = 1 /\ norm_w p = 1 / INR (n_particles pf))
           (particle_cloud pf') /\
    rng_calls pf' = (rng_calls pf + 3 * n_particles pf)%nat /\
    robot_pose pf' = Some (as_pose (mean_particle (particle_cloud pf'))) /\
    current_odom_xy_theta pf' = current_odom_xy_theta pf.
Proof.
  intros Hseed.
  destruct (initialize_particle_cloud_ok pf xy_theta (sx, sy, st) Hseed)
    as (pf' & Hrun & Hc & Hrp & Hrng & _ & _ & Hcur & _).
  exists pf'. split; [exact Hrun|]. rewrite Hc.
  split; [rewrite length_map; apply sample_particles_length|].
  split; [rewrite map_map; cbn [x y theta set_norm_w]; apply sample_particles_poses|].
  split.
  { apply Forall_map. eapply Forall_impl; [|apply sample_particles_weights].
    intros p Hp. cbn [w norm_w set_norm_w]. rewrite Hp. split; reflexivity. }
  split; [exact Hrng|]. split; [rewrite <- Hc; exact Hrp|exact Hcur].
Qed.

(** Without a seed and before any odometry pose has been stored,
    [initialize_particle_cloud] raises [AttributeError]. *)
Lemma initialize_particle_cloud_without_odom (pf : ParticleFilter) :
  odom_pose pf = None ->
  initialize_particle_cloud pf None = Raise AttributeError.
Proof.
  intros Ho. unfold initialize_particle_cloud. cbn [odom_pose enter].
  rewrite Ho. reflexivity.
Qed.

(* ------------------------------------------------------------------ *)
(** ** What every call keeps true *)

Lemma run_loop_aligned
  (pf : ParticleFilter) (msg : LaserScan) (new_pose : OdomPose) (delta_t : option Z) :
  scan_to_process pf = Some msg ->
  run_loop pf (Some new_pose, delta_t)
  = (pf1 <- match current_odom_xy_theta pf with
            | None =>
                Ok (with_current_odom
                      (with_odom_pose (with_scan pf None) (Some new_pose))
                      (Some (convert_pose_to_xy_and_theta new_pose)))
            | Some _ =>
                match particle_cloud pf with
                | [] => initialize_particle_cloud
                          (with_odom_pose (with_scan pf None) (Some new_pose)) None
                | _ :: _ =>
                    moved <- moved_far_enough_to_update
                               (with_odom_pose (with_scan pf None) (Some new_pose))
                               (convert_pose_to_xy_and_theta new_pose) ;;
                    if (moved : bool)
                    then full_update
                           (with_odom_pose (with_scan pf None) (Some new_pose))
                           (fst (convert_scan_to_polar_in_robot_frame msg))
                           (snd (convert_scan_to_polar_in_robot_frame msg))
                    else Ok (with_odom_pose (with_scan pf None) (Some new_pose))
                end
            end ;;
     Ok (publish_particles pf1 (header_stamp msg))).
Proof.
  intros Hscan. unfold run_loop. rewrite Hscan.
  destruct (convert_scan_to_polar_in_robot_frame msg) as [r thetas].
  reflexivity.
Qed.

Lemma cloud_ready_of_fresh (pf : ParticleFilter) (cloud : list Particle) (n : nat) :
  (0 < elite_count n n)%nat ->
  length cloud = n ->
  Forall (fun p => w p = 1) cloud ->
  n_particles pf = n ->
  particle_cloud pf = cloud ->
  cloud_ready pf.
Proof.
  intros Helite Hlen Hw Hn Hc. unfold cloud_ready. rewrite Hc, Hn.
  split; [|split; [right; exact Hlen|exact Helite]].
  eapply Forall_impl; [|exact Hw]. intros p Hp. rewrite Hp. lra.
Qed.

Lemma moved_far_enough_answers (pf : ParticleFilter) (c new_odom : R * R * R) :
  current_odom_xy_theta pf = Some c ->
  exists b, moved_far_enough_to_update pf new_odom = Ok b.
Proof.
  intros Hcur. unfold moved_far_enough_to_update. rewrite Hcur.
  destruct c as [[cx cy] ct], new_odom as [[nx ny] nt]. eexists; reflexivity.
Qed.

(** A pass on a ready cloud completes and leaves a ready cloud, unless
    a draw of its resampling misses every survivor: then it raises
    [IndexError]. *)
Lemma run_loop_ready_or_miss (pf : ParticleFilter) (matching : option OdomPose * option Z) :
  cloud_ready pf ->
  (exists pf', run_loop pf matching = Ok pf' /\ cloud_ready pf') \/
  (run_loop pf matching = Raise IndexError /\ draw_misses pf (LoopPass matching)).
Proof.
  intros Hready. destruct matching as [[new_pose|] delta_t].
  - destruct (scan_to_process pf) as [msg|] eqn:Hscan;
      [|left; exists pf; split; [apply run_loop_idle, Hscan|exact Hready]].
    rewrite (run_loop_aligned pf msg new_pose delta_t Hscan).
    set (pf0 := with_odom_pose (with_scan pf None) (Some new_pose)).
    assert (Hready0 : cloud_ready pf0) by exact Hready.
    destruct Hready as (Hpos & Hsize & Helite).
    destruct (current_odom_xy_theta pf) as [c|] eqn:Hcur.
    + destruct (particle_cloud pf) as [|p cloud] eqn:Hc.
      * left.
        destruct (initialize_particle_cloud_ok pf0 None
                    (convert_pose_to_xy_and_theta new_pose) eq_refl)
          as (pf1 & Hrun & Hc1 & _ & _ & _ & Hn1 & _).
        rewrite Hrun. cbn [bind]. eexists; split; [reflexivity|].
        apply (cloud_ready_of_fresh _ (particle_cloud pf1) (n_particles pf)).
        -- exact Helite.
        -- rewrite Hc1, length_map. apply sample_particles_length.
        -- rewrite Hc1. apply Forall_map.
           eapply Forall_impl; [|apply sample_particles_weights].
           intros q Hq. exact Hq.
        -- exact Hn1.
        -- reflexivity.
      * destruct (moved_far_enough_answers pf0 c
                    (convert_pose_to_xy_and_theta new_pose) Hcur) as (b & Hb).
        rewrite Hb. cbn [bind]. destruct b.
        -- assert (Hlen : length (p :: cloud) = n_particles pf).
           { destruct Hsize as [E|E]; [discriminate E|exact E]. }
           assert (Hpos0 : Forall (fun q => 0 < w q) (particle_cloud pf0)).
           { cbn [particle_cloud pf0 with_odom_pose with_scan]. rewrite Hc. exact Hpos. }
           assert (Hne0 : particle_cloud pf0 <> []).
           { cbn [particle_cloud pf0 with_odom_pose with_scan]. rewrite Hc. discriminate. }
           destruct (update_before_resample_ok pf0
                       (fst (convert_scan_to_polar_in_robot_frame msg))
                       (snd (convert_scan_to_polar_in_robot_frame msg))
                       new_pose eq_refl Hpos0 Hne0)
             as (pf_pose & Hpose & Pos3 & Len3 & N3).
           destruct (full_update pf0 _ _) as [pf1|e] eqn:Hrun; cbn [bind].
           ++ left. eexists; split; [reflexivity|].
              apply full_update_inv in Hrun.
              destruct Hrun as (_ & _ & _ & _ & _ & _ & Hl1 & Hw1 & _ & (_ & Hn1 & _)).
              apply (cloud_ready_of_fresh _ (particle_cloud pf1) (n_particles pf));
                [exact Helite|exact Hl1|exact Hw1|exact Hn1|reflexivity].
           ++ right.
              pose proof (full_update_raise pf0 _ _ new_pose e eq_refl Hpos0 Hne0 Hrun)
                as ->.
              split; [reflexivity|]. cbn [draw_misses].
              exists msg, pf_pose. split; [exact Hscan|].
              split; [rewrite Hc; discriminate|]. split; [exact Hb|].
              split; [exact Hpose|].
              intros Hdraws. rewrite full_update_split, Hpose in Hrun.
              cbn [bind] in Hrun.
              destruct (resample_particles_ok pf_pose) as (pf' & Hok).
              ** rewrite Len3, N3.
                 cbn [particle_cloud n_particles pf0 with_odom_pose with_scan].
                 rewrite Hc, Hlen. exact Helite.
              ** exact Pos3.
              ** exact Hdraws.
              ** rewrite Hok in Hrun. discriminate Hrun.
        -- left. eexists; split; [reflexivity|]. exact Hready0.
    + left. cbn [bind]. eexists; split; [reflexivity|]. exact Hready0.
  - left. rewrite run_loop_unmatched. eexists; split; [reflexivity|].
    destruct (too_old delta_t); [|exact Hready].
    destruct (scan_to_process pf); exact Hready.
Qed.

Lemma call_ready_or_miss (pf : ParticleFilter) (c : Call) :
  cloud_ready pf ->
  (exists pf', call pf c = Ok pf' /\ cloud_ready pf') \/
  (call pf c = Raise IndexError /\ draw_misses pf c).
Proof.
  intros Hready. destruct c as [msg|pose|matching].
  - left. eexists; split; [reflexivity|].
    destruct (scan_received_frame pf msg) as (_ & _ & Hc & _ & _ & Hn).
    unfold cloud_ready. rewrite Hc, Hn. exact Hready.
  - left. cbn [call]. unfold update_initial_pose.
    destruct (initialize_particle_cloud_ok pf
                (Some (convert_pose_to_xy_and_theta pose))
                (convert_pose_to_xy_and_theta pose) eq_refl)
      as (pf1 & Hrun & Hc1 & _ & _ & _ & Hn1 & _).
    exists pf1. split; [exact Hrun|].
    destruct Hready as (_ & _ & Helite).
    apply (cloud_ready_of_fresh _ (particle_cloud pf1) (n_particles pf)).
    + exact Helite.
    + rewrite Hc1, length_map. apply sample_particles_length.
    + rewrite Hc1. apply Forall_map.
      eapply Forall_impl; [|apply sample_particles_weights].
      intros q Hq. exact Hq.
    + exact Hn1.
    + reflexivity.
  - apply run_loop_ready_or_miss; assumption.
Qed.

(** X17: started with an empty cloud, or with a cloud of [n_particles]
    particles of positive raw weight, and with settings for which the
    elitism slice of a full cloud is not empty, the filter takes any
    sequence of scan arrivals, initial poses and loop passes (each call
    running to its end before the next) to one of two ends.  Either
    every call completes, and the filter ends with such a cloud again; or
    the sequence stops with [IndexError] at a loop pass, reached with
    such a cloud, whose resampling makes a uniform draw that is not below
    its last cumulative probability.  No call raises anything else, and
    in particular the sequence completes when no draw misses. *)
Theorem calls_stop_only_at_missed_draw (pf : ParticleFilter) (cs : list Call) :
  cloud_ready pf ->
  ((exists pf', calls pf cs = Ok pf' /\ cloud_ready pf') \/
   (calls pf cs = Raise IndexError /\
    exists cs1 c cs2 pf1,
      cs = cs1 ++ c :: cs2 /\
      calls pf cs1 = Ok pf1 /\ cloud_ready pf1 /\ draw_misses pf1 c)) /\
  ((forall pf1 c, cloud_ready pf1 -> ~ draw_misses pf1 c) ->
   exists pf', calls pf cs = Ok pf' /\ cloud_ready pf').
Proof.
  intros Hready.
  assert (Hmain :
    (exists pf', calls pf cs = Ok pf' /\ cloud_ready pf') \/
    (calls pf cs = Raise IndexError /\
     exists cs1 c cs2 pf1,
       cs = cs1 ++ c :: cs2 /\
       calls pf cs1 = Ok pf1 /\ cloud_ready pf1 /\ draw_misses pf1 c)).
  { revert pf Hready.
    induction cs as [|c cs IH]; intros pf Hready.
    - left. exists pf. split; [reflexivity|exact Hready].
    - destruct (call_ready_or_miss pf c Hready)
        as [(pf1 & Hcall & Hready1)|[Hcall Hmiss]].
      + destruct (IH pf1 Hready1)
          as [(pf' & Hrest & Hready')|(Hrest & cs1 & c' & cs2 & pf2 & E & H1 & H2 & H3)].
        * left. exists pf'. split; [|exact Hready'].
          cbn [calls]. rewrite Hcall. exact Hrest.
        * right. split; [cbn [calls]; rewrite Hcall; exact Hrest|].
          exists (c :: cs1), c', cs2, pf2. split; [rewrite E; reflexivity|].
          split; [cbn [calls]; rewrite Hcall; exact H1|]. split; assumption.
      + right. split; [cbn [calls]; rewrite Hcall; reflexivity|].
        exists [], c, cs, pf. split; [reflexivity|]. split; [reflexivity|].
        split; assumption. }
  split; [exact Hmain|].
  intros Hnone.
  destruct Hmain as [Hok|(_ & cs1 & c & cs2 & pf1 & _ & _ & Hready1 & Hmiss)];
    [exact Hok|].
  exfalso. exact (Hnone pf1 c Hready1 Hmiss).
Qed.

Lemma ParticleFilter_init_ready : cloud_ready ParticleFilter_init.
Proof.
  unfold cloud_ready. cbn [particle_cloud n_particles ParticleFilter_init].
  split; [constructor|]. split; [left; reflexivity|].
  rewrite elite_count_300. lia.
Qed.

(* ------------------------------------------------------------------ *)
(** ** One message per aligned cycle, and the first two cycles *)

(** A cycle on a pending scan ends by publishing the filter that its
    branch has produced; no branch touches the frame or what was
    published before. *)
Lemma run_loop_aligned_inv
  (pf pf' : ParticleFilter) (msg : LaserScan) (new_pose : OdomPose)
  (delta_t : option Z) :
  scan_to_process pf = Some msg ->
  run_loop pf (Some new_pose, delta_t) = Ok pf' ->
  exists pf1,
    pf' = publish_particles pf1 (header_stamp msg) /\
    published pf1 = published pf /\
    map_frame pf1 = map_frame pf.
Proof.
  intros Hscan. rewrite (run_loop_aligned pf msg new_pose delta_t Hscan).
  set (pf0 := with_odom_pose (with_scan pf None) (Some new_pose)).
  destruct (current_odom_xy_theta pf) as [c|] eqn:Hcur.
  - destruct (particle_cloud pf) as [|p cloud] eqn:Hc.
    + destruct (initialize_particle_cloud_ok pf0 None
                  (convert_pose_to_xy_and_theta new_pose) eq_refl)
        as (pf1 & Hrun & _ & _ & _ & _ & _ & _ & _ & _ & Hf & Hp).
      rewrite Hrun. cbn [bind]. intros H. injection H as <-.
      exists pf1. split; [reflexivity|]. split; assumption.
    + destruct (moved_far_enough_answers pf0 c
                  (convert_pose_to_xy_and_theta new_pose) Hcur) as (b & Hb).
      rewrite Hb. cbn [bind]. destruct b.
      * destruct (full_update _ _ _) as [pf1|] eqn:Hfull; [|discriminate].
        cbn [bind]. intros H. injection H as <-.
        apply full_update_inv in Hfull.
        destruct Hfull as (_ & _ & _ & _ & _ & _ & _ & _ & _ & (Hf & _ & _ & _ & Hp & _)).
        exists pf1. split; [reflexivity|]. split; assumption.
      * cbn [bind]. intros H. injection H as <-.
        exists pf0. repeat split.
  - cbn [bind]. intros H. injection H as <-.
    eexists. repeat split.
Qed.

(** X18: whatever its state, a cycle on a pending scan for which the
    transform helper has a pose, if it completes, publishes exactly one
    message: in [map_frame], stamped with the stamp of the scan, and
    carrying pose and raw weight of every particle of the cloud as the
    cycle leaves it. *)
Theorem run_loop_aligned_publishes_once
  (pf pf' : ParticleFilter) (msg : LaserScan) (new_pose : OdomPose)
  (delta_t : option Z) :
  scan_to_process pf = Some msg ->
  run_loop pf (Some new_pose, delta_t) = Ok pf' ->
  published pf' =
    published pf ++
    [mkParticleCloudMsg (map_frame pf) (header_stamp msg)
       (map (fun p => (as_pose p, w p)) (particle_cloud pf'))].
Proof.
  intros Hscan Hrun.
  destruct (run_loop_aligned_inv pf pf' msg new_pose delta_t Hscan Hrun)
    as (pf1 & -> & Hp & Hf).
  cbn [published particle_cloud publish_particles with_published enter map_frame].
  rewrite Hp, Hf. reflexivity.
Qed.

(** C10: the published message carries, for each particle, its pose and
    its raw weight [w], not its normalized weight [norm_w]: every cycle
    on a pending scan that completes publishes one message, of the poses
    and raw weights of the cloud as the cycle leaves it.  On the cycle
    that builds the first cloud the published weights are the raw
    weights, all 1.0, while the normalized weights of that cloud are all
    1 / n_particles.  In the tracking state, when the displacement since
    the baseline exceeds a threshold, a cycle that completes publishes
    the [n_particles] particles that the resampling has just built,
    every weight in the message being 1.0; the cycle completes when every
    raw weight is positive, the elitism stage leaves a survivor and every
    uniform draw of the resampling is below the last cumulative
    probability. *)
Theorem run_loop_update_publishes_default_weights
  (pf : ParticleFilter) (msg : LaserScan) (new_pose : OdomPose)
  (delta_t : option Z) :
  scan_to_process pf = Some msg ->
  (forall pf',
      run_loop pf (Some new_pose, delta_t) = Ok pf' ->
      exists m,
        published pf' = published pf ++ [m] /\
        particles m = map (fun p => (as_pose p, w p)) (particle_cloud pf')) /\
  (forall c,
      current_odom_xy_theta pf = Some c ->
      particle_cloud pf = [] ->
      exists pf' m,
        run_loop pf (Some new_pose, delta_t) = Ok pf' /\
        published pf' = published pf ++ [m] /\
        particles m = map (fun p => (as_pose p, w p)) (particle_cloud pf') /\
        length (particle_cloud pf') = n_particles pf /\
        Forall (fun p => w p = 1 /\ norm_w p = 1 / INR (n_particles pf))
               (particle_cloud pf')) /\
  (forall cx cy ct nx ny nt,
      current_odom_xy_theta pf = Some (cx, cy, ct) ->
      particle_cloud pf <> [] ->
      convert_pose_to_xy_and_theta new_pose = (nx, ny, nt) ->
      Rabs (nx - cx) > d_thresh pf \/
      Rabs (ny - cy) > d_thresh pf \/
      Rabs (nt - ct) > a_thresh pf ->
      (forall pf',
          run_loop pf (Some new_pose, delta_t) = Ok pf' ->
          exists m,
            published pf' = published pf ++ [m] /\
            particles m = map (fun p => (as_pose p, w p)) (particle_cloud pf') /\
            length (particles m) = n_particles pf /\
            Forall (fun pw => snd pw = 1) (particles m)) /\
      (Forall (fun p => 0 < w p) (particle_cloud pf) ->
       (0 < elite_count (n_particles pf) (length (particle_cloud pf)))%nat ->
       (forall pf_pose,
           update_before_resample (with_odom_pose (with_scan pf None) (Some new_pose))
             (fst (convert_scan_to_polar_in_robot_frame msg))
             (snd (convert_scan_to_polar_in_robot_frame msg)) = Ok pf_pose ->
           draws_find_survivor pf_pose) ->
       exists pf', run_loop pf (Some new_pose, delta_t) = Ok pf')).
Proof.
  intros Hscan. split; [|split].
  - intros pf' Hrun.
    destruct (run_loop_aligned_inv pf pf' msg new_pose delta_t Hscan Hrun)
      as (pf1 & -> & Hp & Hf).
    eexists. split.
    + cbn [published publish_particles with_published enter]. rewrite Hp.
      reflexivity.
    + reflexivity.
  - intros c Hcur Hc.
    pose proof (run_loop_aligned pf msg new_pose delta_t Hscan) as Hun.
    rewrite Hcur, Hc in Hun.
    destruct (initialize_particle_cloud_ok
                (with_odom_pose (with_scan pf None) (Some new_pose)) None
                (convert_pose_to_xy_and_theta new_pose) eq_refl)
      as (pf1 & Hinit & Hc1 & _ & _ & _ & Hn1 & _ & _ & _ & _ & Hp1).
    rewrite Hinit in Hun. cbn [bind] in Hun.
    cbn [n_particles rng_calls with_odom_pose with_scan] in Hc1, Hn1.
    exists (publish_particles pf1 (header_stamp msg)). eexists.
    split; [exact Hun|]. split.
    + cbn [published publish_particles with_published enter].
      rewrite Hp1. reflexivity.
    + split; [reflexivity|].
      cbn [particle_cloud publish_particles with_published enter].
      rewrite Hc1. split.
      * rewrite length_map. apply sample_particles_length.
      * apply Forall_map.
        eapply Forall_impl; [|apply sample_particles_weights].
        intros q Hq. cbn [w norm_w set_norm_w]. rewrite Hq. split; reflexivity.
  - intros cx cy ct nx ny nt Hcur Hne Hconv Hmoved. split.
    + intros pf' Hrun.
      destruct (run_loop_update_inv pf pf' msg new_pose delta_t cx cy ct nx ny nt
                  Hscan Hcur Hne Hconv Hmoved Hrun)
        as (_ & _ & _ & Hpub & Hlen & Hw).
      eexists. split; [exact Hpub|]. cbn [particles].
      split; [reflexivity|]. split; [rewrite length_map; exact Hlen|].
      apply Forall_map. eapply Forall_impl; [|exact Hw].
      intros p Hp. exact Hp.
    + intros Hpos Helite Hu.
      apply (run_loop_update_ok pf msg new_pose delta_t cx cy ct nx ny nt);
        assumption.
Qed.

Lemma scan_received_accepts (pf : ParticleFilter) (msg : LaserScan) :
  scan_to_process pf = None ->
  scan_received pf msg
  = with_scan (with_last_stamp pf (Some (header_stamp msg))) (Some msg).
Proof.
  intros Hscan. unfold scan_received. cbn [scan_to_process with_last_stamp].
  rewrite Hscan. reflexivity.
Qed.

Lemma bootstrap_pass
  (pf : ParticleFilter) (msg : LaserScan) (pose : OdomPose) (delta_t : option Z) :
  scan_to_process pf = None ->
  current_odom_xy_theta pf = None ->
  exists pf',
    run_loop (scan_received pf msg) (Some pose, delta_t) = Ok pf' /\
    scan_to_process pf' = None /\
    current_odom_xy_theta pf' = Some (convert_pose_to_xy_and_theta pose) /\
    particle_cloud pf' = particle_cloud pf /\
    published pf' =
      published pf ++
      [mkParticleCloudMsg (map_frame pf) (header_stamp msg)
         (map (fun p => (as_pose p, w p)) (particle_cloud pf))] /\
    map_frame pf' = map_frame pf /\
    n_particles pf' = n_particles pf /\
    rng_calls pf' = rng_calls pf.
Proof.
  intros Hscan Hcur. rewrite (scan_received_accepts pf msg Hscan).
  rewrite (run_loop_aligned
             (with_scan (with_last_stamp pf (Some (header_stamp msg))) (Some msg))
             msg pose delta_t eq_refl).
  cbn [current_odom_xy_theta with_scan with_last_stamp]. rewrite Hcur. cbn [bind].
  eexists; split; [reflexivity|]. repeat split.
Qed.

Lemma first_cloud_pass
  (pf : ParticleFilter) (msg : LaserScan) (pose : OdomPose) (delta_t : option Z)
  (c : R * R * R) :
  scan_to_process pf = None ->
  current_odom_xy_theta pf = Some c ->
  particle_cloud pf = [] ->
  exists pf',
    run_loop (scan_received pf msg) (Some pose, delta_t) = Ok pf' /\
    scan_to_process pf' = None /\
    current_odom_xy_theta pf' = Some c /\
    particle_cloud pf' =
      map (fun p => set_norm_w p (w p / INR (n_particles pf)))
          (sample_particles (convert_pose_to_xy_and_theta pose)
             (rng_calls pf) (n_particles pf)) /\
    published pf' =
      published pf ++
      [mkParticleCloudMsg (map_frame pf) (header_stamp msg)
         (map (fun p => (as_pose p, w p)) (particle_cloud pf'))].
Proof.
  intros Hscan Hcur Hcloud. rewrite (scan_received_accepts pf msg Hscan).
  rewrite (run_loop_aligned
             (with_scan (with_last_stamp pf (Some (header_stamp msg))) (Some msg))
             msg pose delta_t eq_refl).
  cbn [current_odom_xy_theta particle_cloud with_scan with_last_stamp].
  rewrite Hcur, Hcloud.
  destruct (initialize_particle_cloud_ok
              (with_odom_pose
                 (with_scan
                    (with_scan (with_last_stamp pf (Some (header_stamp msg))) (Some msg))
                    None)
                 (Some pose))
              None (convert_pose_to_xy_and_theta pose) eq_refl)
    as (pf1 & Hrun & Hc1 & _ & _ & _ & _ & Hcur1 & Hscan1 & _ & Hf1 & Hp1).
  cbn [rng_calls n_particles current_odom_xy_theta scan_to_process map_frame published
       with_odom_pose with_scan with_last_stamp] in Hc1, Hcur1, Hscan1, Hf1, Hp1.
  rewrite Hrun. cbn [bind]. eexists; split; [reflexivity|].
  cbn [scan_to_process current_odom_xy_theta particle_cloud published map_frame
       publish_particles with_published enter].
  rewrite Hscan1, Hcur1, Hcur, Hp1, Hf1. repeat split. exact Hc1.
Qed.

(** X19: from a filter with no pending scan, no baseline and no cloud
    (as [__init__] leaves it), two scans, each followed by a loop pass
    for which the transform helper has a pose, bring the filter to the
    tracking state.  The first pass only records the first pose as
    baseline and publishes an empty particle set; the second builds the
    cloud of [n_particles] particles of raw weight 1.0 around the second
    pose and publishes it; the baseline is still the first pose. *)
Theorem two_aligned_scans_start_tracking
  (pf : ParticleFilter) (m1 m2 : LaserScan) (p1 p2 : OdomPose)
  (dt1 dt2 : option Z) (sx sy st : R) :
  scan_to_process pf = None ->
  current_odom_xy_theta pf = None ->
  particle_cloud pf = [] ->
  convert_pose_to_xy_and_theta p2 = (sx, sy, st) ->
  exists pf',
    calls pf [ScanArrives m1; LoopPass (Some p1, dt1);
              ScanArrives m2; LoopPass (Some p2, dt2)] = Ok pf' /\
    current_odom_xy_theta pf' = Some (convert_pose_to_xy_and_theta p1) /\
    scan_to_process pf' = None /\
    length (particle_cloud pf') = n_particles pf /\
    Forall (fun p => w p = 1) (particle_cloud pf') /\
    map (fun p => (x p, y p, theta p)) (particle_cloud pf')
    = map (fun i => (sx + position_sigma * randn (rng_calls pf + 3 * i),
                     sy + position_sigma * randn (rng_calls pf + 3 * i + 1),
                     st + angle_sigma * randn (rng_calls pf + 3 * i + 2)))
          (seq 0 (n_particles pf)) /\
    published pf' =
      published pf ++
      [mkParticleCloudMsg (map_frame pf) (header_stamp m1) [];
       mkParticleCloudMsg (map_frame pf) (header_stamp m2)
         (map (fun p => (as_pose p, w p)) (particle_cloud pf'))].
Proof.
  intros Hscan Hcur Hcloud Hseed.
  destruct (bootstrap_pass pf m1 p1 dt1 Hscan Hcur)
    as (pfa & Hrun_a & Sa & Ba & Ca & Pa & Fa & Na & Ra).
  rewrite Hcloud in Ca, Pa.
  destruct (first_cloud_pass pfa m2 p2 dt2 _ Sa Ba Ca)
    as (pfb & Hrun_b & Sb & Bb & Cb & Pb).
  rewrite Na, Ra, Hseed in Cb. rewrite Fa, Pa in Pb.
  exists pfb. split.
  { cbn [calls call bind]. rewrite Hrun_a. cbn [bind]. rewrite Hrun_b. reflexivity. }
  split; [exact Bb|]. split; [exact Sb|].
  split; [rewrite Cb, length_map; apply sample_particles_length|].
  split.
  { rewrite Cb. apply Forall_map. eapply Forall_impl; [|apply sample_particles_weights].
    intros q Hq. exact Hq. }
  split.
  { rewrite Cb, map_map. cbn [x y theta set_norm_w]. apply sample_particles_poses. }
  rewrite Pb, <- app_assoc. reflexivity.
Qed.

(* ------------------------------------------------------------------ *)
(** ** The pending scan, the draws and the ranges of the results *)

Lemma update_particles_with_odom_scan_rng (pf pf' : ParticleFilter) :
  update_particles_with_odom pf = Ok pf' ->
  scan_to_process pf' = scan_to_process pf /\
  (current_odom_xy_theta pf <> None ->
   rng_calls pf' = (rng_calls pf + 3 * length (particle_cloud pf))%nat).
Proof.
  unfold update_particles_with_odom. cbn [enter odom_pose current_odom_xy_theta].
  destruct (odom_pose pf) as [o|]; [|discriminate].
  destruct (current_odom_xy_theta pf) as [[[ox oy] otheta]|].
  - destruct (convert_pose_to_xy_and_theta o) as [[nx ny] ntheta].
    intros H. injection H as <-. split; [reflexivity|]. intros _. reflexivity.
  - intros H. injection H as <-. split; [reflexivity|]. intros Hne. contradiction.
Qed.

Lemma resample_particles_scan_rng (pf pf' : ParticleFilter) :
  resample_particles pf = Ok pf' ->
  scan_to_process pf' = scan_to_process pf /\
  rng_calls pf' = (rng_calls pf + 4 * n_particles pf)%nat.
Proof.
  unfold resample_particles. cbn [enter particle_cloud n_particles].
  destruct (best_particles _ _) as [best|]; [|discriminate]. cbn [bind].
  destruct (normalize_particles _) as [pf1|] eqn:Hn; [|discriminate]. cbn [bind].
  destruct (draw_particles _ _ _ _) as [ps|]; [|discriminate]. cbn [bind].
  intros H. injection H as <-.
  pose proof (normalize_particles_scan _ _ Hn) as Hs.
  apply normalize_particles_inv in Hn.
  destruct Hn as (_ & _ & Hr & _ & _ & (_ & Hnp & _)).
  cbn [scan_to_process rng_calls n_particles with_rng_calls with_cloud enter] in *.
  split; [congruence|]. rewrite Hr, Hnp. lia.
Qed.

Lemma full_update_scan_rng
  (pf pf' : ParticleFilter) (r : list reading) (thetas : list R) :
  full_update pf r thetas = Ok pf' ->
  scan_to_process pf' = scan_to_process pf /\
  (current_odom_xy_theta pf <> None ->
   rng_calls pf' =
     (rng_calls pf + 3 * length (particle_cloud pf) + 4 * n_particles pf)%nat).
Proof.
  unfold full_update.
  destruct (update_particles_with_odom pf) as [pf1|] eqn:H1; [|discriminate].
  cbn [bind].
  destruct (update_particles_with_laser pf1 r thetas) as [pf2|] eqn:H2; [|discriminate].
  cbn [bind].
  destruct (update_robot_pose pf2) as [pf3|] eqn:H3; [|discriminate].
  cbn [bind]. intros H4.
  pose proof (update_particles_with_odom_scan_rng _ _ H1) as [S1 R1].
  pose proof (update_particles_with_odom_inv _ _ H1) as (_ & _ & _ & _ & (_ & N1 & _)).
  unfold update_particles_with_laser in H2.
  pose proof (normalize_particles_scan _ _ H2) as S2.
  apply normalize_particles_inv in H2.
  destruct H2 as (_ & _ & R2 & _ & _ & (_ & N2 & _)).
  cbn [scan_to_process rng_calls n_particles with_cloud enter] in S2, R2, N2.
  pose proof (update_robot_pose_scan_rng _ _ H3) as [S3 R3].
  pose proof (update_robot_pose_inv _ _ H3) as (_ & _ & _ & _ & (_ & N3 & _)).
  pose proof (resample_particles_scan_rng _ _ H4) as [S4 R4].
  split; [congruence|].
  intros Hne. specialize (R1 Hne). rewrite R4, R3, R2, R1, N3, N2, N1. reflexivity.
Qed.

(** X20: a cycle on a pending scan for which the transform helper has a
    pose, if it completes, leaves no scan pending, whichever branch it
    took; so the next scan to arrive is the one processed next. *)
Theorem run_loop_aligned_clears_scan
  (pf pf' : ParticleFilter) (msg next : LaserScan) (new_pose : OdomPose)
  (delta_t : option Z) :
  scan_to_process pf = Some msg ->
  run_loop pf (Some new_pose, delta_t) = Ok pf' ->
  scan_to_process pf' = None /\
  scan_to_process (scan_received pf' next) = Some next.
Proof.
  intros Hscan Hrun.
  assert (Hnone : scan_to_process pf' = None).
  { revert Hrun. rewrite (run_loop_aligned pf msg new_pose delta_t Hscan).
    destruct (current_odom_xy_theta pf) as [c|] eqn:Hcur.
    - destruct (particle_cloud pf) as [|p cloud] eqn:Hc.
      + destruct (initialize_particle_cloud_ok
                    (with_odom_pose (with_scan pf None) (Some new_pose)) None
                    (convert_pose_to_xy_and_theta new_pose) eq_refl)
          as (pf1 & Hinit & _ & _ & _ & _ & _ & _ & Hs & _).
        rewrite Hinit. cbn [bind]. intros H. injection H as <-. exact Hs.
      + destruct (moved_far_enough_answers
                    (with_odom_pose (with_scan pf None) (Some new_pose)) c
                    (convert_pose_to_xy_and_theta new_pose) Hcur) as (b & Hb).
        rewrite Hb. cbn [bind]. destruct b.
        * destruct (full_update _ _ _) as [pf1|] eqn:Hfull; [|discriminate].
          cbn [bind]. intros H. injection H as <-.
          apply full_update_scan_rng in Hfull. destruct Hfull as [Hs _]. exact Hs.
        * cbn [bind]. intros H. injection H as <-. reflexivity.
    - cbn [bind]. intros H. injection H as <-. reflexivity. }
  split; [exact Hnone|].
  destruct (scan_received_frame pf' next) as (S1 & _). rewrite S1, Hnone. reflexivity.
Qed.

Lemma atan_nonpos (a : R) : a <= 0 -> atan a <= 0.
Proof.
  intros [Hlt | ->]; [|rewrite atan_0; lra].
  pose proof (atan_increasing a 0 Hlt) as H. rewrite atan_0 in H. lra.
Qed.

Lemma arctan2_range (s c : R) : - PI < arctan2 s c <= PI.
Proof.
  pose proof PI_RGT_0 as Hpi. pose proof (atan_bound (s / c)) as [Hlo Hhi].
  unfold arctan2.
  destruct (Rltb 0 c) eqn:Hpos; [lra|].
  destruct (Rltb c 0) eqn:Hneg.
  - apply Rltb_true in Hneg.
    destruct (Rleb 0 s) eqn:Hs.
    + apply Rleb_true in Hs.
      assert (s / c <= 0).
      { unfold Rdiv. assert (/ c < 0) by (apply Rinv_lt_0_compat; exact Hneg). nra. }
      pose proof (atan_nonpos _ H). lra.
    + apply Rleb_false in Hs.
      assert (0 < s / c).
      { unfold Rdiv. assert (/ c < 0) by (apply Rinv_lt_0_compat; exact Hneg). nra. }
      pose proof (atan_increasing 0 (s / c) H) as Hinc. rewrite atan_0 in Hinc. lra.
  - destruct (Rltb 0 s); [lra|]. destruct (Rltb s 0); lra.
Qed.

(** X22: the heading of the pose estimate always lies in (-PI, PI],
    whatever the headings of the particles, which [turn] lets grow
    without bound. *)
Theorem pose_estimate_heading_range (cloud : list Particle) :
  - PI < theta (mean_particle cloud) <= PI.
Proof. rewrite theta_mean_particle. apply arctan2_range. Qed.

Lemma weight_below_total (cloud : list Particle) (p : Particle) :
  Forall (fun q => 0 <= w q) cloud -> In p cloud -> w p <= total_weight cloud.
Proof.
  intros Hpos Hin. rewrite total_weight_sum.
  induction Hpos as [|q cloud Hq Hpos IH]; [contradiction|].
  assert (0 <= Rsum (map w cloud)).
  { clear -Hpos. induction Hpos as [|q cloud Hq _ IH]; simpl; lra. }
  simpl. destruct Hin as [->|Hin]; [lra|]. specialize (IH Hin). lra.
Qed.

(** X23: when no raw weight is negative, a normalization that completes
    on a non-empty cloud gives every particle a normalized weight
    between 0 and 1, and these sum to 1. *)
Theorem normalize_particles_unit_interval (pf pf' : ParticleFilter) :
  particle_cloud pf <> [] ->
  Forall (fun p => 0 <= w p) (particle_cloud pf) ->
  normalize_particles pf = Ok pf' ->
  Forall (fun p => 0 <= norm_w p <= 1) (particle_cloud pf') /\
  Rsum (map norm_w (particle_cloud pf')) = 1.
Proof.
  intros Hne Hpos Hrun.
  assert (Htot : total_weight (particle_cloud pf) <> 0).
  { intros Hz. unfold normalize_particles in Hrun. cbn [enter particle_cloud] in Hrun.
    rewrite (normalize_cloud_zero _ Hne Hz) in Hrun. discriminate Hrun. }
  apply normalize_particles_inv in Hrun. destruct Hrun as (Hc & _). rewrite Hc.
  split; [|apply normalized_sum, Htot].
  assert (Htpos : 0 < total_weight (particle_cloud pf)).
  { destruct (particle_cloud pf) as [|q cloud] eqn:E; [contradiction|].
    pose proof (weight_below_total _ q Hpos (or_introl eq_refl)).
    inversion Hpos; subst. lra. }
  apply Forall_map, Forall_forall. intros p Hp. cbn [norm_w set_norm_w].
  pose proof (weight_below_total _ p Hpos Hp) as Hle.
  rewrite Forall_forall in Hpos. specialize (Hpos p Hp).
  split.
  - apply Rmult_le_pos; [exact Hpos|]. left. apply Rinv_0_lt_compat, Htpos.
  - apply (Rmult_le_reg_r (total_weight (particle_cloud pf))); [exact Htpos|].
    unfold Rdiv. rewrite Rmult_assoc, Rinv_l by lra. lra.
Qed.

(* ------------------------------------------------------------------ *)
(** ** When the resampling completes *)

Lemma cumsum_below_last (rnd : R -> R) (l : list R) :
  (forall a b, a <= b -> rnd a <= rnd b) ->
  (forall a, rnd (rnd a) = rnd a) ->
  Forall (fun a => 0 <= a) l ->
  Forall (fun a => rnd a = a) l ->
  Forall (fun c => c <= last (cumsum rnd l) 0) (cumsum rnd l).
Proof.
  intros Hmono Hidem Hpos Hfl. apply Forall_forall. intros c Hc.
  destruct (In_nth _ _ 0 Hc) as (i & Hi & <-).
  rewrite cumsum_length in Hi.
  rewrite last_as_nth, cumsum_length.
  apply cumsum_monotone; try assumption. lia.
Qed.

(** X24: on a cloud of positive raw weights that leaves a survivor, and
    with a rounding that keeps the order, leaves floats and 0 as they
    are, [resample_particles] completes exactly when each of its
    [n_particles] uniform draws is below the last cumulative probability
    of the survivors; it then returns [n_particles] particles of raw
    weight 1.0.  Otherwise it raises [IndexError]. *)
Theorem resample_particles_completes_iff (pf : ParticleFilter) :
  (forall a b, a <= b -> fl a <= fl b) ->
  (forall a, fl (fl a) = fl a) ->
  fl 0 = 0 ->
  Forall (fun p => 0 < w p) (particle_cloud pf) ->
  (0 < elite_count (n_particles pf) (length (particle_cloud pf)))%nat ->
  (draws_find_survivor pf <->
   exists pf',
     resample_particles pf = Ok pf' /\
     length (particle_cloud pf') = n_particles pf /\
     Forall (fun p => w p = 1) (particle_cloud pf')) /\
  (~ draws_find_survivor pf -> resample_particles pf = Raise IndexError).
Proof.
  intros Hmono Hidem Hzero Hpos Helite.
  assert (Hmiss : forall i, (i < n_particles pf)%nat ->
                    selection_ceiling pf <= rand (rng_calls pf + 4 * i) ->
                    resample_particles pf = Raise IndexError).
  { intros i Hi Hge.
    apply (resample_particles_past_cumsum pf i Hpos Hi).
    destruct (survivors_ok pf Hpos) as (best & Hbest & Hlen & Hin & Hnorm).
    assert (Hne : best <> []) by (intros ->; simpl in Hlen; lia).
    assert (Hbpos : Forall (fun p => 0 < w p) best).
    { rewrite Forall_forall in *. intros p Hp. apply Hpos, Hin, Hp. }
    pose proof (positive_weights_sum best Hne Hbpos) as Htot.
    unfold selection_ceiling in Hge.
    destruct (resample_particles_unfold pf best _ Hbest Hnorm) as [Hcum _].
    rewrite Hcum in *.
    eapply Forall_impl;
      [|apply (cumsum_below_last fl _ Hmono Hidem)].
    - intros c Hc. cbv beta in Hc. lra.
    - unfold np_array. rewrite map_map. apply Forall_map, Forall_map.
      eapply Forall_impl; [|exact Hbpos].
      intros p Hp. cbn [norm_w set_norm_w].
      rewrite <- Hzero. apply Hmono.
      apply Rmult_le_pos; [lra|]. left. apply Rinv_0_lt_compat, Htot.
    - unfold np_array. apply Forall_map, Forall_forall. intros a _. apply Hidem. }
  split; [split|].
  - intros Hdraws.
    destruct (resample_particles_ok pf Helite Hpos Hdraws) as (pf' & Hrun).
    exists pf'. split; [exact Hrun|].
    destruct (resample_particles_inv pf pf' Hrun) as (Hlen & Hw & _).
    split; assumption.
  - intros (pf' & Hrun & _) i Hi.
    destruct (Rlt_dec (rand (rng_calls pf + 4 * i)) (selection_ceiling pf))
      as [Hlt|Hge]; [exact Hlt|].
    rewrite (Hmiss i Hi) in Hrun by lra. discriminate Hrun.
  - intros Hnot.
    destruct (resample_particles pf) as [pf'|e] eqn:Hrun.
    + exfalso. apply Hnot. intros i Hi.
      destruct (Rlt_dec (rand (rng_calls pf + 4 * i)) (selection_ceiling pf))
        as [Hlt|Hge]; [exact Hlt|].
      assert (Hbad : Ok pf' = Raise IndexError) by (apply (Hmiss i Hi); lra).
      discriminate Hbad.
    + f_equal. apply (resample_particles_raise pf e Hpos Hrun).
Qed.

(* ------------------------------------------------------------------ *)
(** ** Sums without rounding *)

Lemma cumsum_from_ext (rnd rnd' : R -> R) (acc : R) (l : list R) :
  (forall r, rnd r = rnd' r) -> cumsum_from rnd acc l = cumsum_from rnd' acc l.
Proof.
  intros Hext. revert acc. induction l as [|a l IH]; intros acc; [reflexivity|].
  cbn [cumsum_from]. rewrite Hext, IH. reflexivity.
Qed.

Lemma cumsum_ext (rnd rnd' : R -> R) (l : list R) :
  (forall r, rnd r = rnd' r) -> cumsum rnd l = cumsum rnd' l.
Proof.
  intros Hext. destruct l as [|a l]; [reflexivity|].
  cbn [cumsum]. rewrite (cumsum_from_ext rnd rnd' a l Hext). reflexivity.
Qed.

(** When no sum is rounded the last cumulative probability is 1, and
    every uniform draw, being below 1, finds a survivor. *)
Lemma selection_ceiling_exact (pf : ParticleFilter) :
  (forall r, fl r = r) ->
  Forall (fun p => 0 < w p) (particle_cloud pf) ->
  (0 < elite_count (n_particles pf) (length (particle_cloud pf)))%nat ->
  selection_ceiling pf = 1.
Proof.
  intros Hfl Hpos Helite.
  destruct (survivors_ok pf Hpos) as (best & Hbest & Hlen & Hin & Hnorm).
  assert (Hne : best <> []) by (intros ->; simpl in Hlen; lia).
  assert (Hbpos : Forall (fun p => 0 < w p) best).
  { rewrite Forall_forall in *. intros p Hp. apply Hpos, Hin, Hp. }
  pose proof (positive_weights_sum best Hne Hbpos) as Htot.
  unfold selection_ceiling.
  destruct (resample_particles_unfold pf best _ Hbest Hnorm) as [-> _].
  unfold np_array. rewrite (map_ext fl (fun r => r) Hfl), map_id.
  rewrite (cumsum_ext fl no_rounding) by exact Hfl.
  rewrite last_as_nth, cumsum_length, cumsum_last.
  - apply normalized_sum. lra.
  - destruct best; [contradiction|discriminate].
Qed.

Lemma draws_find_survivor_exact (pf : ParticleFilter) :
  (forall r, fl r = r) ->
  (forall i, rand i < 1) ->
  Forall (fun p => 0 < w p) (particle_cloud pf) ->
  (0 < elite_count (n_particles pf) (length (particle_cloud pf)))%nat ->
  draws_find_survivor pf.
Proof.
  intros Hfl Hu Hpos Helite i _.
  rewrite (selection_ceiling_exact pf Hfl Hpos Helite). apply Hu.
Qed.

Lemma update_before_resample_draws_exact (pf : ParticleFilter) (r : list reading)
  (thetas : list R) (o : OdomPose) :
  (forall a, fl a = a) ->
  (forall i, rand i < 1) ->
  odom_pose pf = Some o ->
  Forall (fun p => 0 < w p) (particle_cloud pf) ->
  (0 < elite_count (n_particles pf) (length (particle_cloud pf)))%nat ->
  forall pf_pose,
    update_before_resample pf r thetas = Ok pf_pose -> draws_find_survivor pf_pose.
Proof.
  intros Hfl Hu Ho Hpos Helite pf_pose Hrun.
  assert (Hne : particle_cloud pf <> []).
  { apply elite_count_nonempty in Helite. intros E. rewrite E in Helite.
    simpl in Helite. lia. }
  destruct (update_before_resample_ok pf r thetas o Ho Hpos Hne)
    as (pf3 & H3 & Pos3 & Len3 & N3).
  rewrite Hrun in H3. injection H3 as <-.
  apply draws_find_survivor_exact; [exact Hfl|exact Hu|exact Pos3|].
  rewrite Len3, N3. exact Helite.
Qed.

Lemma no_draw_misses_exact (pf : ParticleFilter) (c : Call) :
  (forall a, fl a = a) ->
  (forall i, rand i < 1) ->
  cloud_ready pf -> ~ draw_misses pf c.
Proof.
  intros Hfl Hu (Hpos & Hsize & Helite) Hmiss.
  destruct c as [msg|pose|[[new_pose|] delta_t]]; try exact Hmiss.
  cbn [draw_misses] in Hmiss.
  destruct Hmiss as (msg & pf_pose & _ & Hne & _ & Hrun & Hnot).
  apply Hnot.
  apply (update_before_resample_draws_exact
           (with_odom_pose (with_scan pf None) (Some new_pose))
           (fst (convert_scan_to_polar_in_robot_frame msg))
           (snd (convert_scan_to_polar_in_robot_frame msg)) new_pose
           Hfl Hu eq_refl Hpos); [|exact Hrun].
  cbn [particle_cloud n_particles with_odom_pose with_scan].
  destruct Hsize as [E|E]; [contradiction|]. rewrite E. exact Helite.
Qed.

End Filter.

Arguments map_frame {OdomPose LaserScan} _.
Arguments n_particles {OdomPose LaserScan} _.
Arguments d_thresh {OdomPose LaserScan} _.
Arguments a_thresh {OdomPose LaserScan} _.
Arguments scan_to_process {OdomPose LaserScan} _.
Arguments particle_cloud {OdomPose LaserScan} _.
Arguments current_odom_xy_theta {OdomPose LaserScan} _.
Arguments odom_pose {OdomPose LaserScan} _.
Arguments robot_pose {OdomPose LaserScan} _.
Arguments published {OdomPose LaserScan} _.
Arguments call_log {OdomPose LaserScan} _.
Arguments ParticleFilter_init {OdomPose LaserScan}.
Arguments tracking_filter {OdomPose LaserScan} _ _ _.
Arguments with_cloud {OdomPose LaserScan} _ _.
Arguments with_current_odom {OdomPose LaserScan} _ _.
Arguments with_odom_pose {OdomPose LaserScan} _ _.
Arguments normalize_particles {OdomPose LaserScan} _.
Arguments moved_far_enough_to_update {OdomPose LaserScan} _ _.
Arguments update_robot_pose {OdomPose} _ {LaserScan} _.
Arguments update_particles_with_odom {OdomPose} _ {LaserScan} _ _.
Arguments resample_particles {OdomPose LaserScan} _ _ _ _.
Arguments rng_calls {OdomPose LaserScan} _.
Arguments run_loop {OdomPose} _ _ _ {LaserScan} _ _ _ _ _ _ _.

(* ------------------------------------------------------------------ *)
(** ** The rounding of binary64 *)

Lemma pow2_pos (e : Z) : 0 < powerRZ 2 e.
Proof. apply powerRZ_lt. lra. Qed.

Lemma pow2_add (a b : Z) : powerRZ 2 (a + b) = powerRZ 2 a * powerRZ 2 b.
Proof. apply powerRZ_add. lra. Qed.

Lemma pow2_IZR (k : Z) : (0 <= k)%Z -> powerRZ 2 k = IZR (2 ^ k).
Proof.
  intros Hk. destruct k as [|p|p]; [reflexivity| |lia].
  unfold powerRZ. rewrite pow_IZR, positive_nat_Z. reflexivity.
Qed.

Lemma pow2_cancel (a : Z) : powerRZ 2 a * powerRZ 2 (- a) = 1.
Proof. rewrite <- pow2_add. replace (a + - a)%Z with 0%Z by lia. reflexivity. Qed.

Lemma ln_pow2 (k : Z) : ln (powerRZ 2 k) = IZR k * ln 2.
Proof. rewrite powerRZ_Rpower by lra. apply ln_Rpower. Qed.

(** [binade r] is the exponent of the power of two just above [|r|]. *)
Lemma binade_unique (r : R) (e : Z) :
  powerRZ 2 (e - 1) <= Rabs r < powerRZ 2 e -> binade r = e.
Proof.
  intros [Hlo Hhi]. unfold binade.
  assert (H2 : 0 < ln 2) by (pose proof ln_lt_2; lra).
  assert (Hpos : 0 < Rabs r) by (pose proof (pow2_pos (e - 1)); lra).
  assert (L1 : IZR (e - 1) * ln 2 <= ln (Rabs r)).
  { rewrite <- ln_pow2. destruct Hlo as [Hlt|Heq].
    - left. apply ln_increasing; [apply pow2_pos|exact Hlt].
    - rewrite Heq. right. reflexivity. }
  assert (L2 : ln (Rabs r) < IZR e * ln 2).
  { rewrite <- ln_pow2. apply ln_increasing; assumption. }
  rewrite minus_IZR in L1.
  assert (Hq : ln (Rabs r) / ln 2 * ln 2 = ln (Rabs r)) by (field; lra).
  symmetry. apply tech_up; nra.
Qed.

(** [round] on a quotient of integers, by integer division. *)
Lemma py_round_div (m D : Z) :
  (0 < D)%Z ->
  py_round (IZR m / IZR D) =
    (if 2 * (m mod D) <? D then m / D
     else if D <? 2 * (m mod D) then m / D + 1
     else if Z.even (m / D) then m / D else m / D + 1)%Z.
Proof.
  intros HD.
  pose proof (Z.div_mod m D ltac:(lia)) as Hdm.
  pose proof (Z.mod_pos_bound m D HD) as Hr.
  set (q := (m / D)%Z) in *. set (r := (m mod D)%Z) in *.
  assert (HDr : 0 < IZR D) by (apply IZR_lt; lia).
  assert (Hr0 : 0 <= IZR r) by (apply IZR_le; lia).
  assert (Hr1 : IZR r < IZR D) by (apply IZR_lt; lia).
  set (f := IZR r / IZR D).
  assert (Hf : f * IZR D = IZR r) by (unfold f; field; lra).
  assert (Hval : IZR m / IZR D = IZR q + f).
  { unfold f. rewrite Hdm, plus_IZR, mult_IZR. field. lra. }
  assert (Hfrac : 0 <= f < 1) by (split; nra).
  unfold py_round.
  assert (Hup : up (IZR m / IZR D) = (q + 1)%Z).
  { symmetry. apply tech_up; rewrite plus_IZR; lra. }
  rewrite Hup. replace (q + 1 - 1)%Z with q by lia. cbv zeta.
  replace (IZR m / IZR D - IZR q) with f by lra.
  destruct (Z.ltb_spec (2 * r) D) as [H1|H1].
  - apply IZR_lt in H1. rewrite mult_IZR in H1.
    assert (E : Rltb f (1 / 2) = true) by (apply Rltb_true; nra).
    rewrite E. reflexivity.
  - apply IZR_le in H1. rewrite mult_IZR in H1.
    assert (E : Rltb f (1 / 2) = false) by (apply Rltb_false; nra).
    rewrite E. destruct (Z.ltb_spec D (2 * r)) as [H2|H2].
    + apply IZR_lt in H2. rewrite mult_IZR in H2.
      assert (E' : Rltb (1 / 2) f = true) by (apply Rltb_true; nra).
      rewrite E'. reflexivity.
    + apply IZR_le in H2. rewrite mult_IZR in H2.
      assert (E' : Rltb (1 / 2) f = false) by (apply Rltb_false; nra).
      rewrite E'. reflexivity.
Qed.

(** [round] of a real that is within a half of an integer. *)
Lemma py_round_near (r : R) (m : Z) :
  Rabs (r - IZR m) < 1 / 2 -> py_round r = m.
Proof.
  intros Habs. apply Rabs_def2 in Habs. destruct Habs as [Hhi Hlo].
  unfold py_round. destruct (Rlt_dec r (IZR m)) as [Hlt|Hge].
  - assert (Hup : up r = m) by (symmetry; apply tech_up; lra).
    rewrite Hup. cbv zeta. rewrite minus_IZR.
    assert (E : Rltb (r - (IZR m - 1)) (1 / 2) = false) by (apply Rltb_false; lra).
    assert (E' : Rltb (1 / 2) (r - (IZR m - 1)) = true) by (apply Rltb_true; lra).
    rewrite E, E'. lia.
  - assert (Hup : up r = (m + 1)%Z).
    { symmetry. apply tech_up; rewrite plus_IZR; lra. }
    rewrite Hup. cbv zeta. replace (m + 1 - 1)%Z with m by lia.
    assert (E : Rltb (r - IZR m) (1 / 2) = true) by (apply Rltb_true; lra).
    rewrite E. reflexivity.
Qed.

(** [b64] on a positive real, from its binade and the nearest 53-bit
    integer. *)
Lemma b64_eval (r : R) (e m : Z) :
  powerRZ 2 (e - 1) <= r < powerRZ 2 e ->
  Rabs (r * powerRZ 2 (53 - e) - IZR m) < 1 / 2 ->
  b64 r = IZR m * powerRZ 2 (e - 53).
Proof.
  intros Hbin Hnear. unfold b64.
  assert (Hr : 0 < r) by (pose proof (pow2_pos (e - 1)); lra).
  assert (E : Reqb r 0 = false).
  { unfold Reqb. destruct (Req_dec_T r 0); [lra|reflexivity]. }
  rewrite E. cbv zeta.
  rewrite (binade_unique r e) by (rewrite Rabs_pos_eq; lra).
  rewrite (py_round_near _ m Hnear). reflexivity.
Qed.

Lemma dy_align (a : Z * Z) (e : Z) :
  (e <= snd a)%Z -> dy2R a = IZR (fst a * 2 ^ (snd a - e)) * powerRZ 2 e.
Proof.
  intros He. unfold dy2R. rewrite mult_IZR, <- pow2_IZR by lia.
  rewrite Rmult_assoc, <- pow2_add. f_equal. f_equal. lia.
Qed.

Lemma dy_add_correct (a b : Z * Z) : dy2R (dy_add a b) = dy2R a + dy2R b.
Proof.
  unfold dy_add. set (e := Z.min (snd a) (snd b)).
  rewrite (dy_align a e), (dy_align b e) by (unfold e; lia).
  unfold dy2R. cbn [fst snd]. rewrite plus_IZR. ring.
Qed.

Lemma dy_leb_correct (a b : Z * Z) : dy_leb a b = true -> dy2R a <= dy2R b.
Proof.
  unfold dy_leb. set (e := Z.min (snd a) (snd b)). intros H.
  apply Z.leb_le, IZR_le in H.
  rewrite (dy_align a e), (dy_align b e) by (unfold e; lia).
  apply Rmult_le_compat_r; [left; apply pow2_pos|exact H].
Qed.

(** [dy_round] is [b64] on the values that the pairs stand for. *)
Lemma dy_round_correct (d : Z * Z) :
  (0 < fst d)%Z -> b64 (dy2R d) = dy2R (dy_round d).
Proof.
  destruct d as [m e]. cbn [fst]. intros Hm.
  pose proof (Z.log2_spec m Hm) as [Hlo Hhi].
  pose proof (Z.log2_nonneg m) as HL.
  set (L := Z.log2 m) in *.
  assert (Hbin : powerRZ 2 (L + 1 + e - 1) <= dy2R (m, e) < powerRZ 2 (L + 1 + e)).
  { unfold dy2R. cbn [fst snd].
    replace (L + 1 + e - 1)%Z with (L + e)%Z by lia.
    rewrite (pow2_add L e), (pow2_add (L + 1) e).
    rewrite (pow2_IZR L), (pow2_IZR (L + 1)) by lia.
    split.
    - apply Rmult_le_compat_r; [left; apply pow2_pos|apply IZR_le; exact Hlo].
    - apply Rmult_lt_compat_r; [apply pow2_pos|].
      apply IZR_lt. replace (L + 1)%Z with (Z.succ L) by lia. exact Hhi. }
  unfold dy_round. cbn [fst snd]. fold L. set (s := (L - 52)%Z).
  destruct (Z.leb_spec s 0) as [Hs|Hs].
  - apply eq_trans with (IZR (m * 2 ^ (- s)) * powerRZ 2 (L + 1 + e - 53)).
    + apply b64_eval; [exact Hbin|].
      replace (dy2R (m, e) * powerRZ 2 (53 - (L + 1 + e)))
        with (IZR (m * 2 ^ (- s))).
      * rewrite Rminus_diag, Rabs_R0. lra.
      * unfold dy2R. cbn [fst snd]. rewrite mult_IZR, <- pow2_IZR by lia.
        rewrite Rmult_assoc, <- pow2_add. f_equal. f_equal. unfold s. lia.
    + unfold dy2R. cbn [fst snd]. rewrite mult_IZR, <- pow2_IZR by lia.
      rewrite Rmult_assoc, <- pow2_add. f_equal. f_equal. unfold s. lia.
  - assert (Hpow : (0 < 2 ^ s)%Z) by (apply Z.pow_pos_nonneg; lia).
    assert (H2s : (2 ^ s = 2 * 2 ^ (s - 1))%Z).
    { rewrite <- Z.pow_succ_r by lia. f_equal. lia. }
    assert (Hx : dy2R (m, e) * powerRZ 2 (53 - (L + 1 + e)) = IZR m / IZR (2 ^ s)).
    { unfold dy2R. cbn [fst snd]. rewrite <- pow2_IZR by lia.
      pose proof (pow2_pos s) as Hps. pose proof (pow2_cancel s) as Hc.
      replace (53 - (L + 1 + e))%Z with (- e + - s)%Z by (unfold s; lia).
      rewrite pow2_add.
      pose proof (pow2_cancel e) as Hce.
      apply (Rmult_eq_reg_r (powerRZ 2 s)); [|lra].
      unfold Rdiv. rewrite (Rmult_assoc (IZR m) (/ _)), Rinv_l by lra.
      set (A := powerRZ 2 e) in *. set (B := powerRZ 2 (- e)) in *.
      set (C := powerRZ 2 (- s)) in *. set (S := powerRZ 2 s) in *.
      replace (IZR m * A * (B * C) * S) with (IZR m * (A * B) * (S * C)) by ring.
      rewrite Hc, Hce. ring. }
    unfold b64.
    assert (Hr : 0 < dy2R (m, e)) by (pose proof (pow2_pos (L + 1 + e - 1)); lra).
    assert (E : Reqb (dy2R (m, e)) 0 = false).
    { unfold Reqb. destruct (Req_dec_T (dy2R (m, e)) 0); [lra|reflexivity]. }
    rewrite E. cbv zeta.
    rewrite (binade_unique _ (L + 1 + e)) by (rewrite Rabs_pos_eq; lra).
    rewrite Hx, (py_round_div m (2 ^ s) Hpow).
    unfold dy2R at 1. cbn [fst snd].
    replace (L + 1 + e - 53)%Z with (e + s)%Z by (unfold s; lia).
    f_equal. f_equal.
    destruct (Z.ltb_spec (2 * (m mod 2 ^ s)) (2 ^ s)) as [H1|H1];
      destruct (Z.ltb_spec (m mod 2 ^ s) (2 ^ (s - 1))) as [H1'|H1'];
      try lia; try reflexivity.
    destruct (Z.ltb_spec (2 ^ s) (2 * (m mod 2 ^ s))) as [H3|H3];
      destruct (Z.ltb_spec (2 ^ (s - 1)) (m mod 2 ^ s)) as [H3'|H3'];
      try lia; reflexivity.
Qed.

Lemma dy_add_positive (a b : Z * Z) :
  (0 < fst a)%Z -> (0 < fst b)%Z -> (0 < fst (dy_add a b))%Z.
Proof.
  intros Ha Hb. unfold dy_add. cbn [fst].
  assert (0 < 2 ^ (snd a - Z.min (snd a) (snd b)))%Z by (apply Z.pow_pos_nonneg; lia).
  assert (0 < 2 ^ (snd b - Z.min (snd a) (snd b)))%Z by (apply Z.pow_pos_nonneg; lia).
  nia.
Qed.

Lemma dy_round_positive (d : Z * Z) : (0 < fst d)%Z -> (0 < fst (dy_round d))%Z.
Proof.
  intros Hm. unfold dy_round.
  pose proof (Z.log2_spec (fst d) Hm) as [Hlo _].
  set (L := Z.log2 (fst d)) in *. set (s := (L - 52)%Z).
  destruct (Z.leb_spec s 0) as [Hs|Hs]; [exact Hm|]. cbn [fst].
  assert (Hq : (0 < fst d / 2 ^ s)%Z).
  { apply Z.div_str_pos. split; [apply Z.pow_pos_nonneg; lia|].
    apply Z.le_trans with (2 ^ L)%Z; [|exact Hlo].
    apply Z.pow_le_mono_r; unfold s; lia. }
  destruct (_ <? _)%Z; [exact Hq|].
  destruct (_ <? _)%Z; [lia|]. destruct (Z.even _); lia.
Qed.

(** The running sum in binary64, computed on the pairs. *)
Lemma dy_cumsum_from_correct (acc : Z * Z) (l : list (Z * Z)) :
  (0 < fst acc)%Z ->
  Forall (fun a => (0 < fst a)%Z) l ->
  cumsum_from b64 (dy2R acc) (map dy2R l) = map dy2R (dy_cumsum_from acc l).
Proof.
  intros Hacc Hl. revert acc Hacc.
  induction Hl as [|a l Ha _ IH]; intros acc Hacc; [reflexivity|].
  cbn [map cumsum_from dy_cumsum_from].
  assert (Hsum : (0 < fst (dy_add acc a))%Z) by (apply dy_add_positive; assumption).
  rewrite <- dy_add_correct, (dy_round_correct _ Hsum).
  f_equal. apply IH. apply dy_round_positive, Hsum.
Qed.

(** The probability 1/74, as binary64 stores it. *)
Lemma b64_one_in_74 : b64 (1 / 74) = dy2R (7790010166262480, -59)%Z.
Proof.
  unfold dy2R. cbn [fst snd].
  change (-59)%Z with (-6 - 53)%Z.
  apply b64_eval.
  - change (-6 - 1)%Z with (- (7))%Z. change (-6)%Z with (- (6))%Z.
    rewrite !powerRZ_neg', !pow2_IZR by lia.
    change (2 ^ 7)%Z with 128%Z. change (2 ^ 6)%Z with 64%Z. lra.
  - change (53 - -6)%Z with 59%Z. rewrite pow2_IZR by lia.
    change (2 ^ 59)%Z with 576460752303423488%Z.
    apply Rabs_def1; lra.
Qed.

Lemma dy_all_below (l : list (Z * Z)) (top : Z * Z) (u : R) :
  forallb (fun c => dy_leb c top) l = true ->
  dy2R top <= u ->
  Forall (fun c => c <= u) (map dy2R l).
Proof.
  intros Hall Htop. apply Forall_map, Forall_forall. intros c Hc.
  rewrite forallb_forall in Hall. specialize (Hall c Hc).
  apply dy_leb_correct in Hall. lra.
Qed.

(** The running sum of 74 probabilities 1/74 in binary64: no entry is
    above [(2^53 - 13) * 2^-53], that is 0.99999999999999856. *)
Lemma binary64_cumsum_74_below :
  forallb (fun c => dy_leb c (9007199254740979, -53)%Z)
    ((7790010166262480, -59)%Z
       :: dy_cumsum_from (7790010166262480, -59)%Z
            (repeat (7790010166262480, -59)%Z 73)) = true.
Proof. vm_compute. reflexivity. Qed.

Lemma binary64_cumsum_74_top :
  dy2R (9007199254740979, -53)%Z = 1 - 13 * powerRZ 2 (-53).
Proof.
  unfold dy2R. cbn [fst snd].
  replace (IZR 9007199254740979) with (powerRZ 2 53 - 13).
  - pose proof (pow2_cancel 53) as Hc. change (- (53))%Z with (-53)%Z in Hc.
    rewrite Rmult_minus_distr_r, Hc. reflexivity.
  - rewrite pow2_IZR by lia. change (2 ^ 53)%Z with 9007199254740992%Z. lra.
Qed.

Lemma total_weight_ones (cloud : list Particle) :
  Forall (fun p => w p = 1) cloud -> total_weight cloud = INR (length cloud).
Proof.
  intros Hw. rewrite total_weight_sum.
  induction Hw as [|p cloud Hp _ IH]; [reflexivity|].
  cbn [map Rsum fold_right length]. fold (Rsum (map w cloud)).
  rewrite IH, Hp, S_INR. lra.
Qed.

Lemma equal_weights_probability (best : list Particle) (t : R) :
  Forall (fun p => w p = 1) best ->
  map norm_w (map (fun p => set_norm_w p (w p / t)) best)
  = repeat (1 / t) (length best).
Proof.
  intros Hw. induction Hw as [|p best Hp _ IH]; [reflexivity|].
  cbn [map length repeat norm_w set_norm_w]. rewrite Hp, IH. reflexivity.
Qed.

(** The cumulative probabilities of 74 survivors of equal weight, in
    binary64. *)
Lemma binary64_cumsum_74 (u : R) :
  1 - 13 * powerRZ 2 (-53) <= u ->
  Forall (fun c => c <= u) (cumsum b64 (map b64 (repeat (1 / 74) 74))).
Proof.
  intros Hu. rewrite map_repeat, b64_one_in_74.
  set (d0 := (7790010166262480, -59)%Z).
  change (repeat (dy2R d0) 74) with (dy2R d0 :: repeat (dy2R d0) 73).
  cbn [cumsum].
  replace (repeat (dy2R d0) 73) with (map dy2R (repeat d0 73)) by apply map_repeat.
  rewrite dy_cumsum_from_correct.
  - change (dy2R d0 :: map dy2R (dy_cumsum_from d0 (repeat d0 73)))
      with (map dy2R (d0 :: dy_cumsum_from d0 (repeat d0 73))).
    apply (dy_all_below _ (9007199254740979, -53)%Z).
    + exact binary64_cumsum_74_below.
    + rewrite binary64_cumsum_74_top. exact Hu.
  - reflexivity.
  - apply Forall_forall. intros a Ha. apply repeat_spec in Ha. subst a. reflexivity.
Qed.

(** C7: in binary64 the resampling of a full cloud can raise
    [IndexError] instead of producing [n_particles] particles.  With
    [n_particles] = 300 and a cloud of 300 particles of raw weight 1.0
    (what the initialization and every resampling build), the elitism
    stage keeps 74 survivors of probability 1/74 each, and their running
    sum ends at [1 - 13 * 2^-53] = 0.99999999999999856, not at 1.  As
    soon as one of the 300 uniform draws is at or above that value (for
    example the largest one, [1 - 2^-53]), the search finds no survivor,
    its index is 74, and [self.particle_cloud[selection_index]]
    raises. *)
Theorem resample_particles_binary64_shortfall
  (OdomPose LaserScan : Type) (randn rand : nat -> R)
  (pf : ParticleFilter OdomPose LaserScan) (i : nat) :
  n_particles pf = 300%nat ->
  length (particle_cloud pf) = 300%nat ->
  Forall (fun p => w p = 1) (particle_cloud pf) ->
  (i < 300)%nat ->
  1 - 13 * powerRZ 2 (-53) <= rand (rng_calls pf + 4 * i)%nat ->
  resample_particles randn rand b64 pf = Raise IndexError.
Proof.
  intros Hn Hlen Hw Hi Hu.
  assert (Hpos : Forall (fun p => 0 < w p) (particle_cloud pf)).
  { eapply Forall_impl; [|exact Hw]. intros p Hp. rewrite Hp. lra. }
  apply resample_particles_past_cumsum with (i := i);
    [exact Hpos|rewrite Hn; exact Hi|].
  destruct (survivors_ok _ _ pf Hpos) as (best & Hbest & Hbl & Hin & Hnorm).
  rewrite Hn, Hlen, elite_count_300 in Hbl.
  pose proof (resample_particles_unfold _ _ randn rand b64 pf best _ Hbest Hnorm)
    as [Hcum _].
  rewrite Hcum.
  assert (Hbw : Forall (fun p => w p = 1) best).
  { rewrite Forall_forall in *. intros p Hp. apply Hw, Hin, Hp. }
  rewrite (equal_weights_probability best _ Hbw), (total_weight_ones best Hbw), Hbl.
  rewrite INR_IZR_INZ. change (Z.of_nat 74) with 74%Z.
  unfold np_array. apply binary64_cumsum_74, Hu.
Qed.

(* ------------------------------------------------------------------ *)
(** ** The theorems at concrete inputs *)

Lemma ramp_cloud_length (n : nat) : length (ramp_cloud n) = n.
Proof. unfold ramp_cloud. rewrite length_map. apply length_seq. Qed.

Lemma ramp_cloud_positive (n : nat) : Forall (fun p => 0 < w p) (ramp_cloud n).
Proof.
  unfold ramp_cloud. apply Forall_map, Forall_forall. intros i _.
  unfold ramp_particle, Particle_init. cbn [w]. apply lt_0_INR. lia.
Qed.

Lemma ramp_cloud_300_nonempty : ramp_cloud 300 <> [].
Proof.
  intros E. apply (f_equal (@length Particle)) in E.
  rewrite ramp_cloud_length in E. discriminate E.
Qed.

Lemma one_metre_exceeds_d_thresh : Rabs (1 - 0) > 0.2.
Proof. rewrite Rabs_pos_eq; lra. Qed.

(** Two particles of weights 1 and 3 are normalized to 1/4 and 3/4. *)
Lemma normalize_particles_distribution_witness :
  exists pf' : ParticleFilter (R * R * R) Z,
    normalize_particles
      (with_cloud ParticleFilter_init [Particle_init 0 0 0 1; Particle_init 1 0 0 3])
    = Ok pf' /\
    Forall2 (fun p p' =>
               norm_w p' = w p / total_weight [Particle_init 0 0 0 1; Particle_init 1 0 0 3] /\
               w p' = w p /\ x p' = x p /\ y p' = y p /\ theta p' = theta p)
            [Particle_init 0 0 0 1; Particle_init 1 0 0 3] (particle_cloud pf') /\
    Rsum (map norm_w (particle_cloud pf')) = 1.
Proof.
  apply (normalize_particles_distribution (R * R * R) Z
           (with_cloud ParticleFilter_init
              [Particle_init 0 0 0 1; Particle_init 1 0 0 3])).
  - discriminate.
  - unfold total_weight. simpl. lra.
Defined.

(** The unit step applied to a particle at the origin heading along x. *)
Lemma motion_update_unit_step_along_heading_witness :
  exists pf' : ParticleFilter (R * R * R) Z,
    update_particles_with_odom plain_pose no_noise
      (with_odom_pose (tracking_filter 0%Z [Particle_new 0 0 0] (0, 0, 0))
                      (Some (1, 0, 0)))
    = Ok pf' /\
    Forall2 (fun p p' =>
               x p' = x p + cos (theta p) /\
               y p' = y p + sin (theta p) /\
               theta p' = theta p /\ w p' = w p /\
               (theta p = 0 -> x p' = x p + 1 /\ y p' = y p + 0))
            [Particle_new 0 0 0] (particle_cloud pf').
Proof.
  apply (motion_update_unit_step_along_heading (R * R * R) plain_pose Z no_noise
           (with_odom_pose (tracking_filter 0%Z [Particle_new 0 0 0] (0, 0, 0))
                           (Some (1, 0, 0)))
           (1, 0, 0)); reflexivity.
Defined.

(** C4, counterexample: a particle at the origin heading along y ends at
    (0, 1): its position has not shifted by (1, 0). *)
Lemma motion_update_shift_counterexample :
  exists (pf' : ParticleFilter (R * R * R) Z) (p' : Particle),
    update_particles_with_odom plain_pose no_noise
      (with_odom_pose
         (tracking_filter 0%Z [Particle_new 0 0 (PI / 2)] (0, 0, 0))
         (Some (1, 0, 0)))
    = Ok pf' /\
    particle_cloud pf' = [p'] /\
    x p' = 0 /\ y p' = 1 /\ x p' <> 0 + 1.
Proof.
  destruct (update_particles_with_odom_unit_step (R * R * R) plain_pose Z no_noise
              (with_odom_pose
                 (tracking_filter 0%Z [Particle_new 0 0 (PI / 2)] (0, 0, 0))
                 (Some (1, 0, 0)))
              (1, 0, 0) eq_refl eq_refl eq_refl (fun _ => eq_refl))
    as (pf' & Hrun & _ & Hall).
  cbn [particle_cloud with_odom_pose tracking_filter with_current_odom with_cloud] in Hall.
  inversion Hall as [|p p' l l' (Hx & Hy & _) Hrest Ep El]; subst.
  inversion Hrest; subst.
  cbn [x y theta Particle_new Particle_init] in Hx, Hy.
  rewrite cos_PI2 in Hx. rewrite sin_PI2 in Hy.
  exists pf', p'. split; [exact Hrun|]. split; [symmetry; assumption|].
  repeat split; lra.
Qed.

(** The gate of [__init__] on the baseline heading PI - 0.01 and the new
    heading -PI + 0.01: the headings are 0.02 rad apart, well below
    [a_thresh] = PI / 6, and the gate reports a move. *)
Lemma moved_far_enough_fires_across_wrap_witness :
  0.02 < PI / 6 /\
  moved_far_enough_to_update
    (tracking_filter (OdomPose := R * R * R) 0%Z [Particle_new 0 0 0] (0, 0, PI - 0.01))
    (0, 0, - PI + 0.01) = Ok true.
Proof.
  pose proof PI2_1 as Hpi. split; [lra|].
  apply (moved_far_enough_fires_across_wrap (R * R * R) Z
           (tracking_filter 0%Z [Particle_new 0 0 0] (0, 0, PI - 0.01))
           0 0 (PI - 0.01) (- PI + 0.01) 0.02).
  - reflexivity.
  - lra.
  - cbn [a_thresh tracking_filter with_current_odom with_cloud with_scan
         ParticleFilter_init]. lra.
  - cbn [a_thresh tracking_filter with_current_odom with_cloud with_scan
         ParticleFilter_init]. lra.
Defined.

(** A cloud of one particle of raw weight 0. *)
Lemma normalize_particles_zero_weights_raise_witness :
  normalize_particles (OdomPose := R * R * R) (LaserScan := Z)
    (with_cloud ParticleFilter_init [Particle_init 0 0 0 0])
  = Raise ZeroDivisionError.
Proof.
  apply (normalize_particles_zero_weights_raise (R * R * R) Z
           (with_cloud ParticleFilter_init [Particle_init 0 0 0 0])).
  - discriminate.
  - constructor; [reflexivity|constructor].
Defined.

(** C3, counterexample: on a cloud of two particles of raw weight 0,
    [normalize_particles] returns no cloud at all, so none in which the
    weights are uniform: it raises [ZeroDivisionError]. *)
Lemma normalize_particles_fallback_counterexample :
  normalize_particles (OdomPose := R * R * R) (LaserScan := Z)
    (with_cloud ParticleFilter_init [Particle_init 0 0 0 0; Particle_init 1 0 0 0])
  = Raise ZeroDivisionError /\
  forall cloud,
    normalize_particles (OdomPose := R * R * R) (LaserScan := Z)
      (with_cloud ParticleFilter_init [Particle_init 0 0 0 0; Particle_init 1 0 0 0])
    <> Ok (with_cloud ParticleFilter_init cloud).
Proof.
  assert (H : normalize_particles (OdomPose := R * R * R) (LaserScan := Z)
                (with_cloud ParticleFilter_init
                   [Particle_init 0 0 0 0; Particle_init 1 0 0 0])
              = Raise ZeroDivisionError).
  { unfold normalize_particles. cbn [enter particle_cloud with_cloud].
    rewrite normalize_cloud_zero; [reflexivity|discriminate|].
    unfold total_weight. simpl. lra. }
  split; [exact H|]. intros cloud. rewrite H. discriminate.
Qed.

(** The cloud that the initialization builds, up to the poses, and the
    largest uniform draw. *)
Lemma resample_particles_binary64_shortfall_witness :
  top_draw 0 < 1 /\
  resample_particles (OdomPose := R * R * R) (LaserScan := Z) no_noise top_draw b64
    (with_cloud ParticleFilter_init (repeat (Particle_new 0 0 0) 300))
  = Raise IndexError.
Proof.
  pose proof (pow2_pos (-53)) as Hp.
  split; [unfold top_draw; lra|].
  apply (resample_particles_binary64_shortfall (R * R * R) Z no_noise top_draw
           (with_cloud ParticleFilter_init (repeat (Particle_new 0 0 0) 300)) 0).
  - reflexivity.
  - apply repeat_length.
  - apply Forall_forall. intros p Hp'. apply repeat_spec in Hp'. subst p. reflexivity.
  - lia.
  - unfold top_draw. lra.
Defined.

(** One particle on each side of the wrap-around, both of weight 1. *)
Lemma update_robot_pose_circular_mean_witness :
  exists pf' : ParticleFilter (R * R * R) Z,
    update_robot_pose yaw_quaternion
      (with_cloud ParticleFilter_init
         [Particle_new 0 0 (- PI + 0.01); Particle_new 0 0 (PI - 0.01)]) = Ok pf' /\
    robot_pose pf' =
      Some (as_pose yaw_quaternion
              (mean_particle
                 [Particle_new 0 0 (- PI + 0.01); Particle_new 0 0 (PI - 0.01)])) /\
    theta (mean_particle
             [Particle_new 0 0 (- PI + 0.01); Particle_new 0 0 (PI - 0.01)]) = PI.
Proof.
  apply (update_robot_pose_circular_mean (R * R * R) yaw_quaternion Z
           (with_cloud ParticleFilter_init
              [Particle_new 0 0 (- PI + 0.01); Particle_new 0 0 (PI - 0.01)])
           [Particle_new 0 0 (- PI + 0.01)] [Particle_new 0 0 (PI - 0.01)] 1).
  - apply Permutation_refl.
  - constructor; [split; reflexivity|constructor].
  - constructor; [split; reflexivity|constructor].
  - reflexivity.
  - discriminate.
  - lra.
Defined.


Lemma ramp_300_elite :
  (0 < elite_count
         (n_particles
            (tracking_filter (OdomPose := (R * R * R)%type) 7%Z (ramp_cloud 300)
               (0, 0, 0)%R))
         (length
            (particle_cloud
               (tracking_filter (OdomPose := (R * R * R)%type) 7%Z (ramp_cloud 300)
                  (0, 0, 0)%R))))%nat.
Proof.
  cbn [n_particles particle_cloud tracking_filter with_current_odom with_cloud
       with_scan ParticleFilter_init].
  rewrite ramp_cloud_length, elite_count_300. lia.
Qed.

Lemma mid_draw_below_one (i : nat) : mid_draw i < 1.
Proof. unfold mid_draw. lra. Qed.

Arguments update_before_resample {OdomPose} _ _ _ {LaserScan} _ _ _ _.
Arguments draws_find_survivor {OdomPose LaserScan} _ _ _.
Arguments draw_misses {OdomPose} _ _ _ {LaserScan} _ _ _ _ _ _.

(** Without rounding, the draws 1/2 all find a survivor. *)
Lemma mid_draws_find_survivor
  (pf : ParticleFilter (R * R * R) Z) (r : list reading) (thetas : list R)
  (o : R * R * R) :
  odom_pose pf = Some o ->
  Forall (fun p => 0 < w p) (particle_cloud pf) ->
  (0 < elite_count (n_particles pf) (length (particle_cloud pf)))%nat ->
  forall pf_pose,
    update_before_resample plain_pose yaw_quaternion obstacle_nearby no_noise
      pf r thetas = Ok pf_pose ->
    draws_find_survivor mid_draw no_rounding pf_pose.
Proof.
  intros Ho Hpos Helite.
  apply (update_before_resample_draws_exact (R * R * R) plain_pose yaw_quaternion
           obstacle_nearby Z no_noise mid_draw no_rounding pf r thetas o
           (fun a => eq_refl) mid_draw_below_one Ho Hpos Helite).
Qed.

Lemma ramp_300_draws (pf_pose : ParticleFilter (R * R * R) Z) :
  update_before_resample plain_pose yaw_quaternion obstacle_nearby no_noise
    (with_odom_pose
       (with_scan _ _ (tracking_filter 7%Z (ramp_cloud 300) (0, 0, 0)) None)
       (Some (1, 0, 0)))
    (fst (two_beams 7)) (snd (two_beams 7)) = Ok pf_pose ->
  draws_find_survivor mid_draw no_rounding pf_pose.
Proof.
  apply (mid_draws_find_survivor
           (with_odom_pose
              (with_scan _ _ (tracking_filter 7%Z (ramp_cloud 300) (0, 0, 0)) None)
              (Some (1, 0, 0)))
           (fst (two_beams 7)) (snd (two_beams 7)) (1, 0, 0) eq_refl
           (ramp_cloud_positive 300) ramp_300_elite).
Qed.

(** One metre since the baseline, from the cloud of weights 1.0 to 300.0:
    the cycle runs the full update. *)
Lemma run_loop_update_step_order_witness :
  exists pf' : ParticleFilter (R * R * R) Z,
    run_loop plain_pose yaw_quaternion obstacle_nearby stamp_of two_beams
      no_noise mid_draw no_rounding
      (tracking_filter 7%Z (ramp_cloud 300) (0, 0, 0))
      (Some (1, 0, 0), None) = Ok pf' /\
    call_log pf' = [StepOdom; StepLaser; StepNormalize; StepRobotPose;
                    StepNormalize; StepResample; StepNormalize; StepPublish] /\
    current_odom_xy_theta pf' = Some (1, 0, 0).
Proof.
  destruct (run_loop_update_step_order (R * R * R) plain_pose yaw_quaternion
              obstacle_nearby Z stamp_of two_beams no_noise mid_draw no_rounding
              (tracking_filter 7%Z (ramp_cloud 300) (0, 0, 0))
              7%Z (1, 0, 0) None 0 0 0 1 0 0
              eq_refl eq_refl ramp_cloud_300_nonempty eq_refl
              (or_introl one_metre_exceeds_d_thresh))
    as [Hinv Hok].
  destruct (Hok (ramp_cloud_positive 300) ramp_300_elite
              ramp_300_draws)
    as (pf' & Hrun).
  exists pf'. split; [exact Hrun|].
  destruct (Hinv pf' Hrun) as (Hlog & _ & Hbase).
  split; [exact Hlog|exact Hbase].
Defined.

(** C1, counterexample: on that cycle the pose estimate is entered before
    the resampling, and is not entered again after it. *)
Lemma run_loop_pose_before_resample_counterexample :
  exists pf' : ParticleFilter (R * R * R) Z,
    run_loop plain_pose yaw_quaternion obstacle_nearby stamp_of two_beams
      no_noise mid_draw no_rounding
      (tracking_filter 7%Z (ramp_cloud 300) (0, 0, 0))
      (Some (1, 0, 0), None) = Ok pf' /\
    runs_after StepResample StepRobotPose (call_log pf') = true /\
    runs_after StepRobotPose StepResample (call_log pf') = false.
Proof.
  destruct (run_loop_update_ok (R * R * R) plain_pose yaw_quaternion
              obstacle_nearby Z stamp_of two_beams no_noise mid_draw no_rounding
              (tracking_filter 7%Z (ramp_cloud 300) (0, 0, 0))
              7%Z (1, 0, 0) None 0 0 0 1 0 0
              eq_refl eq_refl eq_refl
              (or_introl one_metre_exceeds_d_thresh)
              (ramp_cloud_positive 300) ramp_300_elite
              ramp_300_draws)
    as (pf' & Hrun).
  exists pf'. split; [exact Hrun|].
  destruct (run_loop_update_inv (R * R * R) plain_pose yaw_quaternion
              obstacle_nearby Z stamp_of two_beams no_noise mid_draw no_rounding
              (tracking_filter 7%Z (ramp_cloud 300) (0, 0, 0)) pf'
              7%Z (1, 0, 0) None 0 0 0 1 0 0
              eq_refl eq_refl ramp_cloud_300_nonempty eq_refl
              (or_introl one_metre_exceeds_d_thresh) Hrun)
    as (Hlog & _).
  cbn [call_log tracking_filter with_current_odom with_cloud with_scan
       ParticleFilter_init app] in Hlog.
  rewrite Hlog. split; reflexivity.
Qed.

(** On that cycle the one published message holds 300 weights, all 1.0.
    On the cycle that builds the first cloud, the published weights are
    the raw weights 1.0 of its 300 particles, whose normalized weights
    are 1/300. *)
Lemma run_loop_update_publishes_default_weights_witness :
  (exists (pf' : ParticleFilter (R * R * R) Z) (m : ParticleCloudMsg),
      run_loop plain_pose yaw_quaternion obstacle_nearby stamp_of two_beams
        no_noise mid_draw no_rounding
        (tracking_filter 7%Z (ramp_cloud 300) (0, 0, 0))
        (Some (1, 0, 0), None) = Ok pf' /\
      published pf' = [m] /\
      length (particles m) = 300%nat /\
      Forall (fun pw => snd pw = 1) (particles m)) /\
  (exists (pf' : ParticleFilter (R * R * R) Z) (m : ParticleCloudMsg),
      run_loop plain_pose yaw_quaternion obstacle_nearby stamp_of two_beams
        no_noise mid_draw no_rounding
        (tracking_filter 7%Z [] (0, 0, 0))
        (Some (1, 0, 0), None) = Ok pf' /\
      published pf' = [m] /\
      particles m =
        map (fun p => (as_pose yaw_quaternion p, w p)) (particle_cloud pf') /\
      length (particle_cloud pf') = 300%nat /\
      Forall (fun p => w p = 1 /\ norm_w p = 1 / INR 300) (particle_cloud pf')).
Proof.
  split.
  - destruct (run_loop_update_publishes_default_weights (R * R * R) plain_pose
                yaw_quaternion obstacle_nearby Z stamp_of two_beams no_noise mid_draw
                no_rounding (tracking_filter 7%Z (ramp_cloud 300) (0, 0, 0))
                7%Z (1, 0, 0) None eq_refl)
      as (_ & _ & Hupdate).
    destruct (Hupdate 0 0 0 1 0 0 eq_refl ramp_cloud_300_nonempty eq_refl
                (or_introl one_metre_exceeds_d_thresh))
      as [Hinv Hok].
    destruct (Hok (ramp_cloud_positive 300) ramp_300_elite ramp_300_draws)
      as (pf' & Hrun).
    destruct (Hinv pf' Hrun) as (m & Hpub & _ & Hlen & Hw).
    exists pf', m. split; [exact Hrun|]. split; [exact Hpub|].
    split; [exact Hlen|exact Hw].
  - destruct (run_loop_update_publishes_default_weights (R * R * R) plain_pose
                yaw_quaternion obstacle_nearby Z stamp_of two_beams no_noise mid_draw
                no_rounding (tracking_filter 7%Z [] (0, 0, 0))
                7%Z (1, 0, 0) None eq_refl)
      as (_ & Hfirst & _).
    destruct (Hfirst (0, 0, 0) eq_refl eq_refl)
      as (pf' & m & Hrun & Hpub & Hm & Hlen & Hw).
    exists pf', m. split; [exact Hrun|]. split; [exact Hpub|].
    split; [exact Hm|]. split; [exact Hlen|exact Hw].
Defined.

Arguments last_scan_timestamp {OdomPose LaserScan} _.
Arguments scan_received {OdomPose LaserScan} _ _ _.
Arguments ScanArrives {OdomPose LaserScan} _.
Arguments InitialPose {OdomPose LaserScan} _.
Arguments LoopPass {OdomPose LaserScan} _.
Arguments calls {OdomPose} _ _ _ {LaserScan} _ _ _ _ _ _ _.
Arguments cloud_ready {OdomPose LaserScan} _.
Arguments initialize_particle_cloud {OdomPose} _ _ {LaserScan} _ _ _.
Arguments update_particles_with_laser {OdomPose} _ {LaserScan} _ _ _.
Arguments full_update {OdomPose} _ _ _ {LaserScan} _ _ _ _ _ _.

(* ------------------------------------------------------------------ *)
(** ** The further properties at concrete inputs *)

Lemma ramp_cloud_nth (n i : nat) (d : Particle) :
  (i < n)%nat -> nth i (ramp_cloud n) d = ramp_particle i.
Proof.
  intros Hi. unfold ramp_cloud.
  rewrite (nth_map_in_range _ _ ramp_particle (seq 0 n) i 0%nat d)
    by (rewrite length_seq; exact Hi).
  rewrite seq_nth by exact Hi. reflexivity.
Qed.

Lemma one_and_three_total :
  total_weight [Particle_init 0 0 0 1; Particle_init 1 0 0 3] <> 0.
Proof. unfold total_weight. simpl. lra. Qed.

(** Normalizing twice the cloud of weights 1 and 3. *)
Lemma normalize_particles_idempotent_witness :
  exists pf1 pf2 : ParticleFilter (R * R * R) Z,
    normalize_particles
      (with_cloud ParticleFilter_init [Particle_init 0 0 0 1; Particle_init 1 0 0 3])
    = Ok pf1 /\
    normalize_particles pf1 = Ok pf2 /\
    particle_cloud pf2 = particle_cloud pf1.
Proof.
  destruct (normalize_particles_ok (R * R * R) Z
              (with_cloud ParticleFilter_init
                 [Particle_init 0 0 0 1; Particle_init 1 0 0 3])
              one_and_three_total) as (pf1 & H1).
  destruct (normalize_particles_idempotent (R * R * R) Z _ pf1 H1) as (pf2 & H2 & H3).
  exists pf1, pf2. split; [exact H1|]. split; [exact H2|exact H3].
Defined.

(** Three scans arriving on a fresh filter. *)
Lemma scan_burst_keeps_first_witness :
  scan_to_process
    (fold_left (scan_received stamp_of) [1%Z; 2%Z; 3%Z]
       (ParticleFilter_init (OdomPose := R * R * R))) = Some 1%Z /\
  last_scan_timestamp
    (fold_left (scan_received stamp_of) [1%Z; 2%Z; 3%Z]
       (ParticleFilter_init (OdomPose := R * R * R))) = Some 3%Z.
Proof.
  destruct (scan_burst_keeps_first (R * R * R) Z stamp_of ParticleFilter_init
              1%Z [2%Z; 3%Z] eq_refl) as (H1 & H2 & _).
  split; [exact H1|exact H2].
Defined.

(** Two passes that wait, one that reports the scan too old, and a late
    answer that finds nothing left to process. *)
Lemma loop_passes_wait_or_drop_witness :
  calls plain_pose yaw_quaternion obstacle_nearby stamp_of two_beams no_noise mid_draw no_rounding
    (tracking_filter 7%Z [Particle_new 0 0 0] (0, 0, 0))
    [LoopPass (None, None); LoopPass (None, Some 5%Z)]
  = Ok (tracking_filter 7%Z [Particle_new 0 0 0] (0, 0, 0)) /\
  exists pf' : ParticleFilter (R * R * R) Z,
    calls plain_pose yaw_quaternion obstacle_nearby stamp_of two_beams no_noise mid_draw no_rounding
      (tracking_filter 7%Z [Particle_new 0 0 0] (0, 0, 0))
      [LoopPass (None, None); LoopPass (None, Some 5%Z);
       LoopPass (None, Some (-1)%Z); LoopPass (Some (1, 0, 0), None)]
    = Ok pf' /\
    scan_to_process pf' = None /\
    published pf' = [].
Proof.
  destruct (loop_passes_wait_or_drop (R * R * R) plain_pose yaw_quaternion
              obstacle_nearby Z stamp_of two_beams no_noise mid_draw no_rounding
              (tracking_filter 7%Z [Particle_new 0 0 0] (0, 0, 0))
              [None; Some 5%Z] (Some (-1)%Z) [(Some (1, 0, 0), None)])
    as [Hwait Hdrop].
  - repeat constructor.
  - reflexivity.
  - split; [exact Hwait|].
    eexists. split; [exact Hdrop|]. split; reflexivity.
Defined.

(** Doubling the weight of a particle at (1, 2). *)
Lemma pose_estimate_under_weight_scale_witness :
  x (mean_particle (map (fun p => set_w p (2 * w p)) [Particle_init 1 2 0 1]))
  = 2 * x (mean_particle [Particle_init 1 2 0 1]) /\
  y (mean_particle (map (fun p => set_w p (2 * w p)) [Particle_init 1 2 0 1]))
  = 2 * y (mean_particle [Particle_init 1 2 0 1]) /\
  theta (mean_particle (map (fun p => set_w p (2 * w p)) [Particle_init 1 2 0 1]))
  = theta (mean_particle [Particle_init 1 2 0 1]).
Proof.
  apply (pose_estimate_under_weight_scale [Particle_init 1 2 0 1] 2). lra.
Defined.

(** Two particles at (1, 2) of weights 3 and 4. *)
Lemma pose_estimate_of_coincident_cloud_witness :
  x (mean_particle [Particle_init 1 2 0 3; Particle_init 1 2 1 4])
  = 1 * total_weight [Particle_init 1 2 0 3; Particle_init 1 2 1 4] /\
  y (mean_particle [Particle_init 1 2 0 3; Particle_init 1 2 1 4])
  = 2 * total_weight [Particle_init 1 2 0 3; Particle_init 1 2 1 4].
Proof.
  apply (pose_estimate_of_coincident_cloud
           [Particle_init 1 2 0 3; Particle_init 1 2 1 4] 1 2).
  repeat constructor.
Defined.

Lemma one_particle_positive : Forall (fun p => 0 < w p) [Particle_new 0 0 0].
Proof. repeat constructor. simpl. lra. Qed.

(** A scan of two readings on a cloud of one particle. *)
Lemma update_particles_with_laser_votes_witness :
  exists pf' : ParticleFilter (R * R * R) Z,
    update_particles_with_laser obstacle_nearby
      (tracking_filter 7%Z [Particle_new 0 0 0] (0, 0, 0))
      [Finite 1; Infinite] [0; PI / 2] = Ok pf' /\
    Forall2 (fun p p' =>
               x p' = x p /\ y p' = y p /\ theta p' = theta p /\
               exists k, (k <= 2)%nat /\ w p' = w p + INR k)
            [Particle_new 0 0 0] (particle_cloud pf').
Proof.
  destruct (update_particles_with_laser_ok (R * R * R) obstacle_nearby Z
              (tracking_filter 7%Z [Particle_new 0 0 0] (0, 0, 0))
              [Finite 1; Infinite] [0; PI / 2]
              ltac:(discriminate) one_particle_positive) as (pf' & Hrun).
  exists pf'. split; [exact Hrun|].
  exact (update_particles_with_laser_votes (R * R * R) obstacle_nearby Z _ pf'
           [Finite 1; Infinite] [0; PI / 2] Hrun).
Defined.

(** Two particles of heading 0, five metres apart. *)
Lemma laser_votes_ignore_position_witness :
  w (fold_left (score_beam obstacle_nearby) [(Finite 1, 0)] (Particle_new 0 0 0))
  - w (Particle_new 0 0 0)
  = w (fold_left (score_beam obstacle_nearby) [(Finite 1, 0)] (Particle_new 5 5 0))
    - w (Particle_new 5 5 0).
Proof.
  apply (laser_votes_ignore_position obstacle_nearby [(Finite 1, 0)]
           (Particle_new 0 0 0) (Particle_new 5 5 0)).
  reflexivity.
Defined.

(** A scan whose readings are all infinite. *)
Lemma update_particles_with_laser_no_hit_witness :
  exists pf' : ParticleFilter (R * R * R) Z,
    update_particles_with_laser obstacle_nearby
      (tracking_filter 7%Z [Particle_new 0 0 0] (0, 0, 0))
      [Infinite; Infinite] [0; PI / 2] = Ok pf' /\
    particle_cloud pf' =
      map (fun p => set_norm_w p (w p / total_weight [Particle_new 0 0 0]))
          [Particle_new 0 0 0].
Proof.
  destruct (update_particles_with_laser_ok (R * R * R) obstacle_nearby Z
              (tracking_filter 7%Z [Particle_new 0 0 0] (0, 0, 0))
              [Infinite; Infinite] [0; PI / 2]
              ltac:(discriminate) one_particle_positive) as (pf' & Hrun).
  exists pf'. split; [exact Hrun|].
  apply (update_particles_with_laser_no_hit (R * R * R) obstacle_nearby Z
           (tracking_filter 7%Z [Particle_new 0 0 0] (0, 0, 0)) pf'
           [Infinite; Infinite] [0; PI / 2]); [|exact Hrun].
  right. repeat constructor.
Defined.

(** The odometry going from (0, 0, 0) to (3, 4, 1). *)
Lemma motion_update_without_noise_witness :
  exists pf' : ParticleFilter (R * R * R) Z,
    update_particles_with_odom plain_pose no_noise
      (with_odom_pose (tracking_filter 0%Z [Particle_new 0 0 0] (0, 0, 0))
                      (Some (3, 4, 1))) = Ok pf' /\
    current_odom_xy_theta pf' = Some (3, 4, 1) /\
    Forall2 (fun p p' =>
               theta p' = theta p + (1 - 0) /\
               (x p' - x p) ^ 2 + (y p' - y p) ^ 2 = (3 - 0) ^ 2 + (4 - 0) ^ 2 /\
               w p' = w p /\ norm_w p' = norm_w p)
            [Particle_new 0 0 0] (particle_cloud pf').
Proof.
  destruct (motion_update_without_noise (R * R * R) plain_pose Z no_noise
              (with_odom_pose (tracking_filter 0%Z [Particle_new 0 0 0] (0, 0, 0))
                              (Some (3, 4, 1)))
              (3, 4, 1) 0 0 0 3 4 1 eq_refl eq_refl eq_refl (fun _ => eq_refl))
    as (pf' & Hrun & Hbase & _ & Hall).
  exists pf'. split; [exact Hrun|]. split; [exact Hbase|exact Hall].
Defined.

(** In the cloud of weights 1.0 to 300.0, the particle of weight 300.0. *)
Lemma elitism_drops_unique_best_witness :
  exists best,
    best_particles 300 (ramp_cloud 300) = Ok best /\
    Forall (fun p => w p < w (nth 299 (ramp_cloud 300) (Particle_new 0 0 0))) best /\
    ~ In (nth 299 (ramp_cloud 300) (Particle_new 0 0 0)) best.
Proof.
  apply (elitism_drops_unique_best 300 (ramp_cloud 300) 299 (Particle_new 0 0 0)).
  - apply ramp_cloud_length.
  - lia.
  - intros i Hi Hne. rewrite !ramp_cloud_nth by lia.
    unfold ramp_particle, Particle_init. cbn [w]. apply lt_INR. lia.
Defined.

(** 300 = 4 * 75 particles: 74 are kept. *)
Lemma elitism_keeps_one_fewer_witness :
  exists best,
    best_particles (4 * 75) (ramp_cloud 300) = Ok best /\
    S (length best) = 75%nat /\
    py_round (INR (4 * 75) * amount_to_keep) = Z.of_nat 75.
Proof.
  apply (elitism_keeps_one_fewer 75 (ramp_cloud 300)).
  - lia.
  - apply ramp_cloud_length.
Defined.

Lemma ramp_300_cloud_elite :
  (0 < elite_count
         (n_particles
            (with_cloud (ParticleFilter_init (OdomPose := (R * R * R)%type)
                           (LaserScan := Z))
               (ramp_cloud 300)))
         (length
            (particle_cloud
               (with_cloud (ParticleFilter_init (OdomPose := (R * R * R)%type)
                              (LaserScan := Z))
                  (ramp_cloud 300)))))%nat.
Proof.
  cbn [n_particles particle_cloud with_cloud ParticleFilter_init].
  rewrite ramp_cloud_length, elite_count_300. lia.
Qed.

(** Resampling the cloud of weights 1.0 to 300.0. *)
Lemma resample_particles_copies_old_cloud_witness :
  exists pf' : ParticleFilter (R * R * R) Z,
    resample_particles no_noise mid_draw no_rounding
      (with_cloud ParticleFilter_init (ramp_cloud 300)) = Ok pf' /\
    Forall (fun p =>
              exists s j,
                In s (ramp_cloud 300) /\
                x p = x s + position_noise * no_noise (j + 1) /\
                y p = y s + position_noise * no_noise (j + 2) /\
                theta p = theta s + angle_noise * no_noise (j + 3) /\
                w p = 1 /\ norm_w p = 1)
           (particle_cloud pf').
Proof.
  destruct (resample_particles_ok (R * R * R) Z no_noise mid_draw no_rounding
              (with_cloud ParticleFilter_init (ramp_cloud 300))
              ramp_300_cloud_elite (ramp_cloud_positive 300)
              (draws_find_survivor_exact (R * R * R) Z no_noise mid_draw no_rounding
                 (with_cloud ParticleFilter_init (ramp_cloud 300))
                 (fun a => eq_refl) mid_draw_below_one
                 (ramp_cloud_positive 300) ramp_300_cloud_elite))
    as (pf' & Hrun).
  exists pf'. split; [exact Hrun|].
  exact (resample_particles_copies_old_cloud (R * R * R) Z no_noise mid_draw no_rounding _ pf' Hrun).
Defined.

(** Without rounding, on the cloud of weights 1.0 to 300.0 and draws that
    are all 1/2. *)
Lemma resample_particles_completes_iff_witness :
  (draws_find_survivor mid_draw no_rounding
     (with_cloud (OdomPose := R * R * R) (LaserScan := Z) ParticleFilter_init
        (ramp_cloud 300)) <->
   exists pf' : ParticleFilter (R * R * R) Z,
     resample_particles no_noise mid_draw no_rounding
       (with_cloud ParticleFilter_init (ramp_cloud 300)) = Ok pf' /\
     length (particle_cloud pf') = 300%nat /\
     Forall (fun p => w p = 1) (particle_cloud pf')) /\
  (~ draws_find_survivor mid_draw no_rounding
       (with_cloud (OdomPose := R * R * R) (LaserScan := Z) ParticleFilter_init
          (ramp_cloud 300)) ->
   resample_particles no_noise mid_draw no_rounding
     (with_cloud (OdomPose := R * R * R) (LaserScan := Z) ParticleFilter_init
        (ramp_cloud 300)) = Raise IndexError).
Proof.
  apply (resample_particles_completes_iff (R * R * R) Z no_noise mid_draw no_rounding
           (with_cloud ParticleFilter_init (ramp_cloud 300))).
  - intros a b Hab. exact Hab.
  - intros a. reflexivity.
  - reflexivity.
  - apply ramp_cloud_positive.
  - exact ramp_300_cloud_elite.
Defined.

(** Resampling a cloud of 225 particles with [n_particles] = 300. *)
Lemma resample_particles_without_survivor_witness :
  resample_particles (OdomPose := R * R * R) (LaserScan := Z) no_noise mid_draw no_rounding
    (with_cloud ParticleFilter_init (ramp_cloud 225))
  = Raise IndexError.
Proof.
  apply (resample_particles_without_survivor (R * R * R) Z no_noise mid_draw no_rounding
           (with_cloud ParticleFilter_init (ramp_cloud 225))).
  - cbn [n_particles particle_cloud with_cloud ParticleFilter_init].
    rewrite ramp_cloud_length. apply elite_count_300_small. lia.
  - cbn [n_particles with_cloud ParticleFilter_init]. lia.
Defined.

(** Survivors of probabilities 1/4 and 3/4 and the draw 1/2. *)
Lemma selection_is_first_exceeding_witness :
  (forall i,
      lt i (searchsorted_true
              (map (fun c => Rgtb c (1 / 2)) (cumsum no_rounding [1 / 4; 3 / 4]))) ->
      nth i (cumsum no_rounding [1 / 4; 3 / 4]) 0 <= 1 / 2) /\
  (forall i,
      le (searchsorted_true
            (map (fun c => Rgtb c (1 / 2)) (cumsum no_rounding [1 / 4; 3 / 4]))) i /\
      lt i (length [1 / 4; 3 / 4]) ->
      nth i (cumsum no_rounding [1 / 4; 3 / 4]) 0 > 1 / 2).
Proof.
  apply (selection_is_first_exceeding no_rounding [1 / 4; 3 / 4] (1 / 2)).
  - intros a b Hab. exact Hab.
  - intros a. reflexivity.
  - repeat constructor; lra.
  - repeat constructor.
Defined.

(** A cloud seeded at (2, 3, 0.5). *)
Lemma initialize_particle_cloud_samples_witness :
  exists pf' : ParticleFilter (R * R * R) Z,
    initialize_particle_cloud plain_pose yaw_quaternion no_noise
      ParticleFilter_init (Some (2, 3, 0.5)) = Ok pf' /\
    length (particle_cloud pf') = 300%nat /\
    Forall (fun p => w p = 1 /\ norm_w p = 1 / INR 300) (particle_cloud pf') /\
    current_odom_xy_theta pf' = None.
Proof.
  destruct (initialize_particle_cloud_samples (R * R * R) plain_pose yaw_quaternion Z
              no_noise ParticleFilter_init (Some (2, 3, 0.5)) 2 3 0.5 eq_refl)
    as (pf' & Hrun & Hlen & _ & Hw & _ & _ & Hbase).
  exists pf'. split; [exact Hrun|]. split; [exact Hlen|].
  split; [exact Hw|exact Hbase].
Defined.

(** A filter fresh from [__init__] taking scans, passes and a pose
    estimate. *)
Lemma calls_stop_only_at_missed_draw_witness :
  exists pf' : ParticleFilter (R * R * R) Z,
    calls plain_pose yaw_quaternion obstacle_nearby stamp_of two_beams no_noise mid_draw no_rounding
      ParticleFilter_init
      [ScanArrives 1%Z; LoopPass (Some (0, 0, 0), None); InitialPose (1, 1, 0);
       ScanArrives 2%Z; LoopPass (Some (1, 0, 0), None);
       ScanArrives 3%Z; LoopPass (None, Some (-1)%Z)] = Ok pf' /\
    cloud_ready pf'.
Proof.
  apply (calls_stop_only_at_missed_draw (R * R * R) plain_pose yaw_quaternion
           obstacle_nearby Z stamp_of two_beams no_noise mid_draw no_rounding
           ParticleFilter_init).
  - apply ParticleFilter_init_ready.
  - intros pf1 c.
    apply (no_draw_misses_exact (R * R * R) plain_pose yaw_quaternion obstacle_nearby
             Z two_beams no_noise mid_draw no_rounding pf1 c (fun a => eq_refl)
             mid_draw_below_one).
Defined.

(** The first pass of a fresh filter on its first scan. *)
Lemma run_loop_aligned_publishes_once_witness :
  exists pf' : ParticleFilter (R * R * R) Z,
    run_loop plain_pose yaw_quaternion obstacle_nearby stamp_of two_beams
      no_noise mid_draw no_rounding
      (scan_received stamp_of ParticleFilter_init 1%Z) (Some (0, 0, 0), None) = Ok pf' /\
    published pf' =
      [mkParticleCloudMsg "map" 1%Z
         (map (fun p => (as_pose yaw_quaternion p, w p)) (particle_cloud pf'))].
Proof.
  destruct (bootstrap_pass (R * R * R) plain_pose yaw_quaternion obstacle_nearby Z
              stamp_of two_beams no_noise mid_draw no_rounding ParticleFilter_init 1%Z
              (0, 0, 0) None eq_refl eq_refl) as (pf' & Hrun & _).
  exists pf'. split; [exact Hrun|].
  exact (run_loop_aligned_publishes_once (R * R * R) plain_pose yaw_quaternion
           obstacle_nearby Z stamp_of two_beams no_noise mid_draw no_rounding
           (scan_received stamp_of ParticleFilter_init 1%Z) pf' 1%Z (0, 0, 0) None
           eq_refl Hrun).
Defined.

(** A fresh filter, two scans and two passes. *)
Lemma two_aligned_scans_start_tracking_witness :
  exists pf' : ParticleFilter (R * R * R) Z,
    calls plain_pose yaw_quaternion obstacle_nearby stamp_of two_beams no_noise mid_draw no_rounding
      ParticleFilter_init
      [ScanArrives 1%Z; LoopPass (Some (0, 0, 0), None);
       ScanArrives 2%Z; LoopPass (Some (2, 3, 0.5), None)] = Ok pf' /\
    current_odom_xy_theta pf' = Some (0, 0, 0) /\
    scan_to_process pf' = None /\
    length (particle_cloud pf') = 300%nat /\
    length (published pf') = 2%nat.
Proof.
  destruct (two_aligned_scans_start_tracking (R * R * R) plain_pose yaw_quaternion
              obstacle_nearby Z stamp_of two_beams no_noise mid_draw no_rounding
              ParticleFilter_init 1%Z 2%Z (0, 0, 0) (2, 3, 0.5) None None 2 3 0.5
              eq_refl eq_refl eq_refl eq_refl)
    as (pf' & Hrun & Hbase & Hscan & Hlen & _ & _ & Hpub).
  exists pf'. split; [exact Hrun|]. split; [exact Hbase|].
  split; [exact Hscan|]. split; [exact Hlen|]. rewrite Hpub. reflexivity.
Defined.

(** After the first pass, the next scan to arrive is accepted. *)
Lemma run_loop_aligned_clears_scan_witness :
  exists pf' : ParticleFilter (R * R * R) Z,
    run_loop plain_pose yaw_quaternion obstacle_nearby stamp_of two_beams
      no_noise mid_draw no_rounding
      (scan_received stamp_of ParticleFilter_init 1%Z) (Some (0, 0, 0), None) = Ok pf' /\
    scan_to_process pf' = None /\
    scan_to_process (scan_received stamp_of pf' 2%Z) = Some 2%Z.
Proof.
  destruct (bootstrap_pass (R * R * R) plain_pose yaw_quaternion obstacle_nearby Z
              stamp_of two_beams no_noise mid_draw no_rounding ParticleFilter_init 1%Z
              (0, 0, 0) None eq_refl eq_refl) as (pf' & Hrun & _).
  exists pf'. split; [exact Hrun|].
  exact (run_loop_aligned_clears_scan (R * R * R) plain_pose yaw_quaternion
           obstacle_nearby Z stamp_of two_beams no_noise mid_draw no_rounding
           (scan_received stamp_of ParticleFilter_init 1%Z) pf' 1%Z 2%Z (0, 0, 0) None
           eq_refl Hrun).
Defined.

Lemma one_and_three_nonnegative :
  Forall (fun p => 0 <= w p) [Particle_init 0 0 0 1; Particle_init 1 0 0 3].
Proof. repeat constructor; simpl; lra. Qed.

(** The cloud of weights 1 and 3, normalized. *)
Lemma normalize_particles_unit_interval_witness :
  exists pf' : ParticleFilter (R * R * R) Z,
    normalize_particles
      (with_cloud ParticleFilter_init [Particle_init 0 0 0 1; Particle_init 1 0 0 3])
    = Ok pf' /\
    Forall (fun p => 0 <= norm_w p <= 1) (particle_cloud pf') /\
    Rsum (map norm_w (particle_cloud pf')) = 1.
Proof.
  destruct (normalize_particles_ok (R * R * R) Z
              (with_cloud ParticleFilter_init
                 [Particle_init 0 0 0 1; Particle_init 1 0 0 3])
              one_and_three_total) as (pf' & Hrun).
  exists pf'. split; [exact Hrun|].
  apply (normalize_particles_unit_interval (R * R * R) Z
           (with_cloud ParticleFilter_init
              [Particle_init 0 0 0 1; Particle_init 1 0 0 3]) pf').
  - discriminate.
  - exact one_and_three_nonnegative.
  - exact Hrun.
Defined.
